(** * Drawdance canvas engine: canvas state, command interpreter, images

    A shallow embedding of [libengine/dpengine/canvas_state.c],
    [libengine/dpengine/image.c], [libengine/dpengine/canvas_diff.c] and the
    integer part of [libengine/dpengine/image_transform.c].
    Reference-counted objects live in an explicit heap ([gmap] from
    addresses to objects), so that pointer identity, reference counts and
    the release of transient objects can be stated.  C integers are [Z]
    values with their width written out.

    [DP_ASSERT]s of the source files are kept as checks: a computation
    whose assertion fails, or that dereferences a NULL or dangling pointer,
    has no result.  Images are plain [malloc]ed values without a reference
    count and are not part of the heap. *)

From Stdlib Require Import ZArith Lia List Bool.
From stdpp Require Import base option list gmap.

Local Open Scope Z_scope.

(** ** Machine integers *)

Module CInt.

(** Two's-complement reduction of [z] to a signed [bits]-bit integer.  ISO C
    leaves signed overflow undefined; this is what the arithmetic
    instructions of the compiled code do. *)
Definition wrap_signed (bits : Z) (z : Z) : Z :=
  (z + 2 ^ (bits - 1)) mod 2 ^ bits - 2 ^ (bits - 1).

Definition INT_MIN : Z := - 2 ^ 31.
Definition INT_MAX : Z := 2 ^ 31 - 1.
Definition INT16_MAX : Z := 32767.
Definition UINT32_MAX : Z := 2 ^ 32 - 1.
Definition LLONG_MIN : Z := - 2 ^ 63.
Definition LLONG_MAX : Z := 2 ^ 63 - 1.

Definition is_int (z : Z) : Prop := INT_MIN <= z <= INT_MAX.
Definition is_uint32 (z : Z) : Prop := 0 <= z <= UINT32_MAX.
Definition is_llong (z : Z) : Prop := LLONG_MIN <= z <= LLONG_MAX.

(** [int] *)
Definition to_int (z : Z) : Z := wrap_signed 32 z.
Definition int_add (a b : Z) : Z := to_int (a + b).
Definition int_sub (a b : Z) : Z := to_int (a - b).
Definition int_neg (a : Z) : Z := to_int (- a).
Definition int_mul (a b : Z) : Z := to_int (a * b).

(** [long long] *)
Definition to_llong (z : Z) : Z := wrap_signed 64 z.
Definition llong_add (a b : Z) : Z := to_llong (a + b).
Definition llong_mul (a b : Z) : Z := to_llong (a * b).

(** [DP_min_int], [DP_max_int] *)
Definition DP_min_int (a b : Z) : Z := if a <? b then a else b.
Definition DP_max_int (a b : Z) : Z := if a <? b then b else a.

(** [DP_uint_to_int], [DP_uint32_to_int]: the conversion of an unsigned
    value to [int]. *)
Definition DP_uint_to_int (u : Z) : Z := to_int u.
Definition DP_uint32_to_int (u : Z) : Z := to_int u.

End CInt.

(** ** Images ([image.c]) *)

Module Image.
Import CInt.

(** [struct DP_Image]: [count] is [width * height] and [pixels] holds that
    many 32-bit BGRA values. *)
Record DP_Image := mkImage {
  width : Z;
  height : Z;
  pixels : list Z
}.

(** [DP_image_new]: a zero-filled image; [None] when one of its assertions
    fails. *)
Definition DP_image_new (w h : Z) : option DP_Image :=
  if (0 <=? w) && (0 <=? h)
  then Some {| width := w; height := h;
               pixels := replicate (Z.to_nat (w * h)) 0 |}
  else None.

(** The [DP_ASSERT]s at the head of [copy_pixels]. *)
Definition copy_pixels_pre (dst src : DP_Image)
    (dst_x dst_y src_x src_y copy_width copy_height : Z) : bool :=
  (0 <=? dst_x) && (0 <=? dst_y) && (0 <=? src_x) && (0 <=? src_y)
  && (0 <=? copy_width) && (0 <=? copy_height)
  && (int_add dst_x copy_width <=? width dst)
  && (int_add src_x copy_width <=? width src)
  && (int_add dst_y copy_height <=? height dst)
  && (int_add src_y copy_height <=? height src).

(** [memcpy(dst_pixels + d, src_pixels + s, row_size)] on the pixel arrays. *)
Definition memcpy_pixels (dst_pixels src_pixels : list Z) (d s n : Z) : list Z :=
  take (Z.to_nat d) dst_pixels
    ++ take (Z.to_nat n) (drop (Z.to_nat s) src_pixels)
    ++ drop (Z.to_nat (d + n)) dst_pixels.

(** [copy_pixels]: [None] when one of its assertions fails. *)
Definition copy_pixels (dst src : DP_Image)
    (dst_x dst_y src_x src_y copy_width copy_height : Z) : option DP_Image :=
  if copy_pixels_pre dst src dst_x dst_y src_x src_y copy_width copy_height then
    let dst_width := width dst in
    let src_width := width src in
    Some {| width := width dst; height := height dst;
            pixels :=
              fold_left
                (fun dst_pixels y =>
                   let d := int_add (int_mul (int_add y dst_y) dst_width) dst_x in
                   let s := int_add (int_mul (int_add y src_y) src_width) src_x in
                   memcpy_pixels dst_pixels (pixels src) d s copy_width)
                (seqZ 0 copy_height) (pixels dst) |}
  else None.

(** The copy region [DP_image_new_subimage] hands to [copy_pixels]:
    [(dst_x, dst_y, src_x, src_y, copy_width, copy_height)]. *)
Definition subimage_region (img : DP_Image) (x y w h : Z)
    : Z * Z * Z * Z * Z * Z :=
  let dst_x := if x <? 0 then int_neg x else 0 in
  let dst_y := if y <? 0 then int_neg y else 0 in
  let src_x := if 0 <? x then x else 0 in
  let src_y := if 0 <? y then y else 0 in
  let copy_width := DP_min_int (int_sub w dst_x) (int_sub (width img) src_x) in
  let copy_height := DP_min_int (int_sub h dst_y) (int_sub (height img) src_y) in
  (dst_x, dst_y, src_x, src_y, copy_width, copy_height).

(** [DP_image_new_subimage]; [None] when an assertion fails, its own or one
    of [DP_image_new] and [copy_pixels]. *)
Definition DP_image_new_subimage (img : DP_Image) (x y w h : Z)
    : option DP_Image :=
  if (0 <=? w) && (0 <=? h) then
    sub ← DP_image_new w h;
    let '(dst_x, dst_y, src_x, src_y, copy_width, copy_height) :=
      subimage_region img x y w h in
    copy_pixels sub img dst_x dst_y src_x src_y copy_width copy_height
  else None.

(** The claim of the specification: the region computed for a request of
    non-negative size meets the preconditions of [copy_pixels]. *)
Definition subimage_region_ok (img : DP_Image) (x y w h : Z) : bool :=
  match DP_image_new w h with
  | Some sub =>
      let '(dst_x, dst_y, src_x, src_y, copy_width, copy_height) :=
        subimage_region img x y w h in
      copy_pixels_pre sub img dst_x dst_y src_x src_y copy_width copy_height
  | None => false
  end.

(** *** Pixel access *)

(** The pixel block has [width * height] cells. *)
Definition image_wf (img : DP_Image) : Prop :=
  0 <= width img /\ 0 <= height img
  /\ Z.of_nat (length (pixels img)) = width img * height img.

(** The [DP_ASSERT]s of [DP_image_pixel_at] and [DP_image_pixel_at_set]. *)
Definition pixel_at_pre (img : DP_Image) (x y : Z) : bool :=
  (0 <=? x) && (0 <=? y) && (x <? width img) && (y <? height img).

(** [DP_image_pixel_at]; [None] when an assertion fails or the index lies
    outside the pixel block. *)
Definition DP_image_pixel_at (img : DP_Image) (x y : Z) : option Z :=
  if pixel_at_pre img x y
  then pixels img !! Z.to_nat (int_add (int_mul y (width img)) x)
  else None.

(** [DP_image_pixel_at_set] *)
Definition DP_image_pixel_at_set (img : DP_Image) (x y : Z) (pixel : Z)
    : option DP_Image :=
  if pixel_at_pre img x y then
    let i := int_add (int_mul y (width img)) x in
    if (0 <=? i) && (i <? Z.of_nat (length (pixels img))) then
      Some {| width := width img; height := height img;
              pixels := <[Z.to_nat i := pixel]> (pixels img) |}
    else None
  else None.

(** *** Monochrome masks *)

(** The body of the loops of [extract_monochrome] at [(x, y)]: one bit per
    pixel, most significant bit first, [line_width] bytes per line.  [None]
    when the byte lies outside [buffer] or [DP_image_pixel_at_set] has no
    result. *)
Definition extract_monochrome_pixel (line_width : Z) (buffer : list Z)
    (img : DP_Image) (x y : Z) : option DP_Image :=
  let byte_index := int_add (int_mul y line_width) (Z.quot x 8) in
  let bit_mask := Z.shiftl 1 (int_sub 7 (Z.rem x 8)) in
  if 0 <=? byte_index then
    byte ← buffer !! Z.to_nat byte_index;
    let white := negb (Z.land byte bit_mask =? 0) in
    let pixel := if white then 0xffffffff else 0x00000000 in
    DP_image_pixel_at_set img x y pixel
  else None.

(** [extract_monochrome]: the two loops over the image made by
    [DP_image_new]. *)
Definition extract_monochrome (w h line_width : Z) (buffer : list Z)
    : option DP_Image :=
  img ← DP_image_new w h;
  fold_left
    (fun acc y =>
       fold_left
         (fun acc x =>
            img ← acc; extract_monochrome_pixel line_width buffer img x y)
         (seqZ 0 w) acc)
    (seqZ 0 h) (Some img).

Section Inflate.
(** [DP_compress_inflate] belongs to the codec collaborator: it yields the
    decompressed bytes, or nothing when the payload is rejected. *)
Variable DP_compress_inflate : list Z -> option (list Z).

(** [DP_image_new_from_compressed_monochrome], with the size check of
    [get_monochrome_buffer]: [Some None] is the NULL it returns for a payload
    the codec rejects or of the wrong size, [None] stands for a decoding
    without result (a failed assertion, a byte outside the buffer). *)
Definition DP_image_new_from_compressed_monochrome
    (w h : Z) (input : list Z) : option (option DP_Image) :=
  let line_width := int_mul (Z.quot (int_add w 31) 32) 4 in
  match DP_compress_inflate input with
  | Some buffer =>
      if Z.of_nat (length buffer) =? line_width * h
      then img ← extract_monochrome w h line_width buffer; Some (Some img)
      else Some None
  | None => Some None
  end.
End Inflate.

End Image.


(** ** Bilinear sampling ([image_transform.c]) *)

Module ImageTransform.
Import CInt.

(** [uint32_t] *)
Definition to_uint32 (z : Z) : Z := z mod 2 ^ 32.
Definition uint32_add (a b : Z) : Z := to_uint32 (a + b).
Definition uint32_sub (a b : Z) : Z := to_uint32 (a - b).
Definition uint32_mul (a b : Z) : Z := to_uint32 (a * b).

(** [fetch_transformed_bilinear_pixel_bounds]: [( *out_v1, *out_v2)]. *)
Definition fetch_transformed_bilinear_pixel_bounds (l1 l2 v1 : Z) : Z * Z :=
  if v1 <? l1 then (l1, l1)
  else if l2 <=? v1 then (l2, l2)
  else (v1, int_add v1 1).

(** [interpolate_pixel] *)
Definition interpolate_pixel (x a y b : Z) : Z :=
  let t := uint32_add (uint32_mul (Z.land x 0xff00ff) a)
             (uint32_mul (Z.land y 0xff00ff) b) in
  let t := Z.shiftr t 8 in
  let t := Z.land t 0xff00ff in
  let x := uint32_add (uint32_mul (Z.land (Z.shiftr x 8) 0xff00ff) a)
             (uint32_mul (Z.land (Z.shiftr y 8) 0xff00ff) b) in
  let x := Z.land x 0xff00ff00 in
  let x := Z.lor x t in
  x.

(** [interpolate_4_pixels] *)
Definition interpolate_4_pixels (tl tr bl br distx disty : Z) : Z :=
  let idistx := uint32_sub 256 distx in
  let idisty := uint32_sub 256 disty in
  let xtop := interpolate_pixel tl idistx tr distx in
  let xbot := interpolate_pixel bl idistx br distx in
  interpolate_pixel xtop idisty xbot disty.

(** Byte [n] of a 32-bit pixel, [n = 0] the lowest. *)
Definition channel (n : Z) (p : Z) : Z := Z.land (Z.shiftr p (8 * n)) 255.

(** *** Span rendering *)

(** [QT_FT_Span] of the rasterizer ([qgrayraster_inc.h]), with the fields
    [x], [len], [y] and [coverage] that [render_spans] reads: [len] pixels
    of line [y] from [x] on, covered to the degree [coverage]. *)
Record QT_FT_Span := mkSpan {
  span_x : Z;
  span_len : Z;
  span_y : Z;
  span_coverage : Z
}.

(** The calls [render_spans] makes: [Fetch x y length] for
    [fetch_transformed_bilinear (.., x, y, l, buffer)] and
    [Process len coverage src dst] for [process_span], with in [src] and
    [dst] the offsets of the pointers from [buffer] and from [dst_pixels]. *)
Inductive SpanCall :=
| Fetch (x y length : Z)
| Process (len coverage src dst : Z).

Section RenderSpans.
(** [DP_DRAW_CONTEXT_TRANSFORM_BUFFER_SIZE] of [draw_context.h] and
    [rsd->dst_width]. *)
Variables (DP_DRAW_CONTEXT_TRANSFORM_BUFFER_SIZE dst_width : Z).

(** "compute length of adjacent spans": [right] after the [for] loop over
    [spans[1 ..]]. *)
Fixpoint adjacent_right (y right : Z) (rest : list QT_FT_Span) : Z :=
  match rest with
  | s :: rest' =>
      if (span_y s =? y) && (span_x s =? right)
      then adjacent_right y (int_add right (span_len s)) rest'
      else right
  | [] => right
  end.

(** The loop [while (l > 0)]: the calls it makes, and [spans], [coverage]
    and [x] when it ends.  Reading [spans->x] after the last span has no
    result. *)
Fixpoint span_pieces (fuel : nat) (spans : list QT_FT_Span)
    (coverage x l offset dst : Z)
    : option (list SpanCall * (list QT_FT_Span * Z * Z)) :=
  if l <=? 0 then Some ([], (spans, coverage, x))
  else
    match fuel, spans with
    | S fuel, s :: rest =>
        let coverage :=
          if x =? span_x s
          then Z.shiftr (int_mul (span_coverage s) 256) 8 else coverage in
        let pr := int_add (span_x s) (span_len s) in
        let pl := DP_min_int l (int_sub pr x) in
        let call := Process pl coverage offset (dst + offset) in
        let l := int_sub l pl in
        let x := int_add x pl in
        let offset := int_add offset pl in
        '(calls, st) ← span_pieces fuel (if x =? pr then rest else spans)
                         coverage x l offset dst;
        Some (call :: calls, st)
    | _, _ => None
    end.

(** The loop [while (length)]. *)
Fixpoint span_chunks (fuel : nat) (spans : list QT_FT_Span)
    (coverage x y length : Z)
    : option (list SpanCall * (list QT_FT_Span * Z * Z)) :=
  if length =? 0 then Some ([], (spans, coverage, x))
  else
    match fuel with
    | S fuel =>
        let l := DP_min_int length DP_DRAW_CONTEXT_TRANSFORM_BUFFER_SIZE in
        let length := int_sub length l in
        let dst := int_mul y dst_width + x in
        let call := Fetch x y l in
        '(calls, (spans, coverage, x)) ←
          span_pieces fuel spans coverage x l 0 dst;
        '(calls', st) ← span_chunks fuel spans coverage x y length;
        Some (call :: calls ++ calls', st)
    | O => None
    end.

(** [render_spans]: the loop [while (count)] over the [count] spans left. *)
Fixpoint render_spans_from (fuel : nat) (spans : list QT_FT_Span)
    (coverage : Z) : option (list SpanCall) :=
  match spans with
  | [] => Some []
  | s :: rest =>
      match fuel with
      | S fuel =>
          if span_len s =? 0 then render_spans_from fuel rest coverage
          else
            let x := span_x s in
            let y := span_y s in
            let right := adjacent_right y (int_add x (span_len s)) rest in
            let length := int_sub right x in
            '(calls, (spans', coverage, _)) ←
              span_chunks fuel spans coverage x y length;
            calls' ← render_spans_from fuel spans' coverage;
            Some (calls ++ calls')
      | O => None
      end
  end.

Definition render_spans (fuel : nat) (spans : list QT_FT_Span)
    : option (list SpanCall) :=
  render_spans_from fuel spans 0.

End RenderSpans.

(** One composited pixel: the index into [dst_pixels], the position the
    source was sampled for, and the coverage. *)
Definition SpanPixel := (Z * (Z * Z) * Z)%type.

(** The pixels a sequence of calls composites: [Process] takes pixel [src + k]
    of the buffer, which the last [Fetch] filled with the sample for
    position [(x + src + k, y)]. *)
Fixpoint call_pixels (fetched : Z * Z) (calls : list SpanCall)
    : list SpanPixel :=
  match calls with
  | [] => []
  | Fetch x y _ :: calls => call_pixels (x, y) calls
  | Process len coverage src dst :: calls =>
      ((fun k => (dst + k, (fetched.1 + src + k, fetched.2), coverage))
         <$> seqZ 0 len)
      ++ call_pixels fetched calls
  end.

(** The calls respect the buffer: a [Fetch] fills between one and
    [DP_DRAW_CONTEXT_TRANSFORM_BUFFER_SIZE] pixels of it, and a [Process]
    reads inside the [avail] pixels the last [Fetch] filled. *)
Fixpoint calls_fit (buffer_size avail : Z) (calls : list SpanCall) : Prop :=
  match calls with
  | [] => True
  | Fetch _ _ length :: calls =>
      0 < length <= buffer_size /\ calls_fit buffer_size length calls
  | Process len _ src _ :: calls =>
      0 <= len /\ 0 <= src /\ src + len <= avail
      /\ calls_fit buffer_size avail calls
  end.

(** The number of pixels of the spans. *)
Fixpoint sum_len (spans : list QT_FT_Span) : Z :=
  match spans with
  | [] => 0
  | s :: rest => span_len s + sum_len rest
  end.

(** The pixels of a span. *)
Definition span_pixels (dst_width : Z) (s : QT_FT_Span) : list SpanPixel :=
  (fun k => (span_y s * dst_width + span_x s + k,
             (span_x s + k, span_y s), span_coverage s))
    <$> seqZ 0 (span_len s).

(** The ranges of the fields of a span. *)
Definition span_ok (s : QT_FT_Span) : Prop :=
  - 32768 <= span_x s <= 32767 /\ 0 <= span_len s <= 65535
  /\ - 32768 <= span_y s <= 32767 /\ 0 <= span_coverage s <= 255.

(** The pixels of [spans] that are left when the first [k0] pixels of the
    first span are done. *)
Definition spans_left (dw k0 : Z) (spans : list QT_FT_Span) : list SpanPixel :=
  match spans with
  | [] => []
  | s :: rest =>
      ((fun k => (span_y s * dw + span_x s + k,
                  (span_x s + k, span_y s), span_coverage s))
         <$> seqZ k0 (span_len s - k0))
      ++ (rest ≫= span_pixels dw)
  end.

(** From the span boundary [x] on line [y], the next [L] pixels are those of
    adjacent spans at the head of the list. *)
Inductive adjacent (y : Z) : Z -> Z -> list QT_FT_Span -> Prop :=
| adjacent_none x spans : adjacent y x 0 spans
| adjacent_span x L s rest :
    span_y s = y -> span_x s = x -> span_len s <= L ->
    adjacent y (x + span_len s) (L - span_len s) rest ->
    adjacent y x L (s :: rest).

(** The state of the inner loops: at a span boundary, or [k0] pixels into
    the first span. *)
Definition in_run (y L : Z) (spans : list QT_FT_Span) (x coverage k0 : Z)
    : Prop :=
  (k0 = 0 /\ adjacent y x L spans)
  \/ exists s rest,
       spans = s :: rest /\ 0 < k0 < span_len s /\ x = span_x s + k0
       /\ span_y s = y /\ coverage = span_coverage s
       /\ span_len s - k0 <= L
       /\ adjacent y (span_x s + span_len s) (L - (span_len s - k0)) rest.

(** What a [Process] call may touch: [len] pixels of the buffer from [src]
    on, inside [[lo, hi]]. *)
Definition process_within (lo hi : Z) (c : SpanCall) : Prop :=
  match c with
  | Process len _ src _ => 0 <= len /\ lo <= src /\ src + len <= hi
  | Fetch _ _ _ => False
  end.

End ImageTransform.


(** ** Canvas diff ([canvas_diff.c]) *)

Module CanvasDiff.
Import CInt.

(** [struct DP_CanvasDiff]: [tile_changes] is the allocated block of
    [tile_changes_reserved] flags (empty for the NULL pointer), of which the
    first [count] are in use. *)
Record DP_CanvasDiff := mkCanvasDiff {
  count : Z;
  xtiles : Z;
  ytiles : Z;
  tile_changes_reserved : Z;
  tile_changes : list bool;
  layer_props_changed : bool
}.

Definition set_tile_changes (block : list bool) (diff : DP_CanvasDiff)
    : DP_CanvasDiff :=
  mkCanvasDiff (count diff) (xtiles diff) (ytiles diff)
    (tile_changes_reserved diff) block (layer_props_changed diff).

(** [DP_canvas_diff_new] *)
Definition DP_canvas_diff_new : DP_CanvasDiff :=
  mkCanvasDiff 0 0 0 0 [] false.

(** [tile_changes[i] = b]; a write beyond the block leaves it as it is. *)
Definition write_flag (block : list bool) (i : Z) (b : bool) : list bool :=
  <[Z.to_nat i := b]> block.

(** [tile_changes[i]]; a read beyond the block yields [false]. *)
Definition read_flag (block : list bool) (i : Z) : bool :=
  default false (block !! Z.to_nat i).

Section Begin.
(** [DP_tile_size_round_up] is a macro of [tile.h]. *)
Variable DP_tile_size_round_up : Z -> Z.
(** What [DP_realloc] leaves in the cells it adds. *)
Variable indeterminate : bool.

(** [DP_realloc(diff->tile_changes, size)] *)
Definition DP_realloc (block : list bool) (size : Z) : list bool :=
  resize (Z.to_nat size) indeterminate block.

(** [DP_canvas_diff_begin]; [None] when one of its assertions fails. *)
Definition DP_canvas_diff_begin (diff : DP_CanvasDiff)
    (old_width old_height current_width current_height : Z)
    (layer_props_changed : bool) : option DP_CanvasDiff :=
  if (0 <=? old_width) && (0 <=? old_height)
     && (0 <=? current_width) && (0 <=? current_height)
  then
    let xtiles := DP_tile_size_round_up current_width in
    let ytiles := DP_tile_size_round_up current_height in
    let count := int_mul xtiles ytiles in
    let '(reserved, block) :=
      if tile_changes_reserved diff <? count
      then (count, DP_realloc (tile_changes diff) count)
      else (tile_changes_reserved diff, tile_changes diff) in
    let init :=
      negb (old_width =? current_width) || negb (old_height =? current_height) in
    Some (mkCanvasDiff count xtiles ytiles reserved
            (fold_left (fun tile_changes i => write_flag tile_changes i init)
               (seqZ 0 count) block)
            layer_props_changed)
  else None.
End Begin.

(** [DP_canvas_diff_check]: [fn] works on the caller's [data]. *)
Definition DP_canvas_diff_check {D} (diff : DP_CanvasDiff)
    (fn : D -> Z -> bool * D) (data : D) : DP_CanvasDiff * D :=
  let '(block, data') :=
    fold_left
      (fun '(tile_changes, data) i =>
         if read_flag tile_changes i then (tile_changes, data)
         else
           let '(changed, data') := fn data i in
           if (changed : bool) then (write_flag tile_changes i true, data')
           else (tile_changes, data'))
      (seqZ 0 (count diff)) (tile_changes diff, data) in
  (set_tile_changes block diff, data').

(** [DP_canvas_diff_check_all] *)
Definition DP_canvas_diff_check_all (diff : DP_CanvasDiff) : DP_CanvasDiff :=
  set_tile_changes
    (fold_left (fun tile_changes i => write_flag tile_changes i true)
       (seqZ 0 (count diff)) (tile_changes diff))
    diff.

(** [DP_canvas_diff_each_index] *)
Definition DP_canvas_diff_each_index {D} (diff : DP_CanvasDiff)
    (fn : D -> Z -> D) (data : D) : D :=
  fold_left
    (fun data i => if read_flag (tile_changes diff) i then fn data i else data)
    (seqZ 0 (count diff)) data.

(** [DP_canvas_diff_each_pos] *)
Definition DP_canvas_diff_each_pos {D} (diff : DP_CanvasDiff)
    (fn : D -> Z -> Z -> D) (data : D) : D :=
  let xtiles := xtiles diff in
  fold_left
    (fun data y =>
       fold_left
         (fun data x =>
            if read_flag (tile_changes diff) (int_add (int_mul y xtiles) x)
            then fn data x y else data)
         (seqZ 0 xtiles) data)
    (seqZ 0 (ytiles diff)) data.

(** [DP_canvas_diff_tiles_changed] *)
Definition DP_canvas_diff_tiles_changed (diff : DP_CanvasDiff) : bool :=
  existsb (read_flag (tile_changes diff)) (seqZ 0 (count diff)).

(** [DP_canvas_diff_layer_props_changed_reset] *)
Definition DP_canvas_diff_layer_props_changed_reset (diff : DP_CanvasDiff)
    : bool * DP_CanvasDiff :=
  (layer_props_changed diff,
   mkCanvasDiff (count diff) (xtiles diff) (ytiles diff)
     (tile_changes_reserved diff) (tile_changes diff) false).

(** The block has room for every flag in use. *)
Definition diff_wf (d : DP_CanvasDiff) : Prop :=
  count d <= tile_changes_reserved d
  /\ 0 <= tile_changes_reserved d
  /\ Z.of_nat (length (tile_changes d)) = tile_changes_reserved d.

(** The diffs a caller can hold: made by [DP_canvas_diff_new] and passed
    through the functions that write to a diff. *)
Inductive diff_reachable (DP_tile_size_round_up : Z -> Z)
    : DP_CanvasDiff -> Prop :=
| reach_new : diff_reachable DP_tile_size_round_up DP_canvas_diff_new
| reach_begin d indeterminate ow oh cw ch lpc d' :
    diff_reachable DP_tile_size_round_up d ->
    DP_canvas_diff_begin DP_tile_size_round_up indeterminate d ow oh cw ch lpc
    = Some d' ->
    diff_reachable DP_tile_size_round_up d'
| reach_check (D : Type) d (fn : D -> Z -> bool * D) data :
    diff_reachable DP_tile_size_round_up d ->
    diff_reachable DP_tile_size_round_up (DP_canvas_diff_check d fn data).1
| reach_check_all d :
    diff_reachable DP_tile_size_round_up d ->
    diff_reachable DP_tile_size_round_up (DP_canvas_diff_check_all d)
| reach_reset d :
    diff_reachable DP_tile_size_round_up d ->
    diff_reachable DP_tile_size_round_up
      (DP_canvas_diff_layer_props_changed_reset d).2.

End CanvasDiff.


(** ** The heap of reference-counted objects *)

Module Heap.
Import CInt.

(** Addresses of heap objects; a nullable pointer is an [option addr]. *)
Abbreviation addr := positive.

(** [DP_Tile]: a reference-counted block of [TILE_SIZE * TILE_SIZE] pixels,
    tagged with the context that made it. *)
Inductive TilePixels :=
| SolidPixels (color : Z)
| InflatedPixels (bytes : list Z).

Record DP_Tile := mkTile {
  tile_refcount : Z;
  tile_context_id : Z;
  tile_pixels : TilePixels
}.

#[local] Set Warnings "-register-all".

(** [DP_Layer]: properties, pixel content and the sublayers used for indirect
    drawing.  The tile grid of the content is kept as the layer's pixels;
    the sharing of tiles between layers is not modelled. *)
Inductive DP_Layer := mkLayer {
  layer_id : Z;
  layer_title : list Z;
  layer_opacity : Z;
  layer_blend_mode : Z;
  layer_visible : bool;
  layer_censored : bool;
  layer_fixed : bool;
  layer_width : Z;
  layer_height : Z;
  layer_pixels : list Z;
  layer_sublayers : list DP_Layer
}.

(** [DP_LayerList] and [DP_TransientLayerList] share one representation, as
    in the source; [ll_transient] tells them apart. *)
Record DP_LayerList := mkLayerList {
  ll_refcount : Z;
  ll_transient : bool;
  ll_layers : list DP_Layer
}.

(** [struct DP_CanvasState] / [struct DP_TransientCanvasState] *)
Record DP_CanvasState := mkCanvasState {
  refcount : Z;
  transient : bool;
  width : Z;
  height : Z;
  background_tile : option addr;
  layers : option addr
}.

Record heap := mkHeap {
  states : gmap positive DP_CanvasState;
  lists : gmap positive DP_LayerList;
  tiles : gmap positive DP_Tile
}.

(** Heap computations.  [None] stands for undefined behaviour: a NULL or
    dangling pointer is dereferenced, or a [DP_ASSERT] fails. *)
Definition M (A : Type) : Type := heap -> option (A * heap).

#[global] Instance M_ret : MRet M := fun A a h => Some (a, h).
#[global] Instance M_bind : MBind M := fun A B f m h =>
  match m h with
  | Some (a, h') => f a h'
  | None => None
  end.

Definition undefined {A} : M A := fun _ => None.

(** [DP_ASSERT] *)
Definition DP_ASSERT (b : bool) : M unit :=
  if b then mret tt else undefined.

(** Dereferencing a nullable pointer. *)
Definition deref {A} (p : option A) : M A :=
  match p with
  | Some a => mret a
  | None => undefined
  end.

Definition load_state (p : addr) : M DP_CanvasState :=
  fun h => s ← states h !! p; Some (s, h).
Definition store_state (p : addr) (s : DP_CanvasState) : M unit :=
  fun h => Some (tt, mkHeap (<[p := s]> (states h)) (lists h) (tiles h)).
Definition malloc_state (s : DP_CanvasState) : M addr :=
  fun h => let p := fresh (dom (states h)) in
           Some (p, mkHeap (<[p := s]> (states h)) (lists h) (tiles h)).
Definition free_state (p : addr) : M unit :=
  fun h => Some (tt, mkHeap (delete p (states h)) (lists h) (tiles h)).

Definition load_list (p : addr) : M DP_LayerList :=
  fun h => l ← lists h !! p; Some (l, h).
Definition store_list (p : addr) (l : DP_LayerList) : M unit :=
  fun h => Some (tt, mkHeap (states h) (<[p := l]> (lists h)) (tiles h)).
Definition malloc_list (l : DP_LayerList) : M addr :=
  fun h => let p := fresh (dom (lists h)) in
           Some (p, mkHeap (states h) (<[p := l]> (lists h)) (tiles h)).
Definition free_list (p : addr) : M unit :=
  fun h => Some (tt, mkHeap (states h) (delete p (lists h)) (tiles h)).

Definition load_tile (p : addr) : M DP_Tile :=
  fun h => t ← tiles h !! p; Some (t, h).
Definition store_tile (p : addr) (t : DP_Tile) : M unit :=
  fun h => Some (tt, mkHeap (states h) (lists h) (<[p := t]> (tiles h))).
Definition malloc_tile (t : DP_Tile) : M addr :=
  fun h => let p := fresh (dom (tiles h)) in
           Some (p, mkHeap (states h) (lists h) (<[p := t]> (tiles h))).
Definition free_tile (p : addr) : M unit :=
  fun h => Some (tt, mkHeap (states h) (lists h) (delete p (tiles h))).

End Heap.


(** ** Collaborators of the canvas state

    [canvas_state.c] drives the layer list, the tiles, the blend-mode table
    and the codec through their headers.  Their pixel work is taken as given:
    a layer-list operation is a function on the layers of a transient list
    that either yields the updated layers or reports failure. *)

Module Collab.
Import CInt Heap.

(** [DP_Rect] and [DP_Quad] of [dpcommon/geom.h]. *)
Record DP_Rect := mkRect { rect_x1 : Z; rect_y1 : Z; rect_x2 : Z; rect_y2 : Z }.
Record DP_Quad := mkQuad {
  quad_x1 : Z; quad_y1 : Z; quad_x2 : Z; quad_y2 : Z;
  quad_x3 : Z; quad_y3 : Z; quad_x4 : Z; quad_y4 : Z
}.

(** The three draw-dabs message types: [DP_MSG_DRAW_DABS_CLASSIC],
    [DP_MSG_DRAW_DABS_PIXEL] and [DP_MSG_DRAW_DABS_PIXEL_SQUARE]. *)
Inductive DabsKind := DabsClassic | DabsPixel | DabsPixelSquare.

(** [DP_PaintDrawDabsParams], in the order of its initialiser; the draw
    context is left out. *)
Record DP_PaintDrawDabsParams := mkDabsParams {
  dp_type : DabsKind;
  dp_context_id : Z;
  dp_origin_x : Z;
  dp_origin_y : Z;
  dp_color : Z;
  dp_blend_mode : Z;
  dp_dab_count : Z;
  dp_dabs : list Z
}.

Class BlendModes := {
  DP_blend_mode_exists : Z -> bool;
  DP_blend_mode_valid_for_brush : Z -> bool;
  DP_BLEND_MODE_NORMAL : Z
}.

Class Codec := {
  (** [DP_compress_inflate]: the decompressed bytes, if the payload is sound. *)
  DP_compress_inflate : list Z -> option (list Z)
}.

Class Geometry := {
  (** [DP_rect_size (DP_quad_bounds quad)]: the [long long] area of the
      bounding rectangle of a quad. *)
  DP_quad_bounds_size : DP_Quad -> Z;
  DP_rect_make : Z -> Z -> Z -> Z -> DP_Rect
}.

Class LayerListOps := {
  layer_create : Z -> Z -> option DP_Tile -> bool -> bool -> Z -> Z -> list Z ->
                 list DP_Layer -> option (list DP_Layer);
  layer_attr : Z -> Z -> Z -> Z -> bool -> bool ->
               list DP_Layer -> option (list DP_Layer);
  layer_retitle : Z -> list Z -> list DP_Layer -> option (list DP_Layer);
  layer_delete : Z -> Z -> bool -> list DP_Layer -> option (list DP_Layer);
  layer_visibility : Z -> bool -> list DP_Layer -> option (list DP_Layer);
  put_image : Z -> Z -> Z -> Z -> Z -> Z -> Z -> list Z ->
              list DP_Layer -> option (list DP_Layer);
  fill_rect : Z -> Z -> Z -> Z -> Z -> Z -> Z -> Z ->
              list DP_Layer -> option (list DP_Layer);
  region_move : Z -> Z -> DP_Rect -> DP_Quad -> option Image.DP_Image ->
                list DP_Layer -> option (list DP_Layer);
  put_tile : DP_Tile -> Z -> Z -> Z -> Z -> Z ->
             list DP_Layer -> option (list DP_Layer);
  draw_dabs : Z -> Z -> Z -> Z -> DP_PaintDrawDabsParams ->
              list DP_Layer -> option (list DP_Layer);
  resize : Z -> Z -> Z -> Z -> Z -> list DP_Layer -> list DP_Layer;
  (** the pixels of a layer after one of its sublayers is merged into it *)
  merge_pixels : Z -> DP_Layer -> DP_Layer -> list Z;
  (** what a reordering makes of ids that all exist but are no permutation
      of the existing ids *)
  reorder_other : list Z -> list DP_Layer -> list DP_Layer;
  (** [DP_layer_list_diff] *)
  layer_list_diff : list DP_Layer -> list DP_Layer ->
                    CanvasDiff.DP_CanvasDiff -> CanvasDiff.DP_CanvasDiff
}.

End Collab.


(** ** Canvas state and command interpreter ([canvas_state.c]) *)

Module Canvas.
Import CInt Heap Collab.

(** [TILE_SIZE] *)
Definition DP_TILE_SIZE : Z := 64.

(** *** Drawing messages

    The typed records of [dpmsg]; the interpreter reads their fields by
    name.  [MsgOther] stands for every message type the interpreter has no
    case for. *)

Inductive TilePayload :=
| PayloadColor (color : Z)
| PayloadImage (image : list Z).

Inductive MessageBody :=
| MsgCanvasResize (top right bottom left : Z)
| MsgLayerCreate (layer_id source_id fill : Z) (insert copy : bool) (title : list Z)
| MsgLayerAttr (layer_id sublayer_id opacity blend_mode : Z) (censored fixed : bool)
| MsgLayerOrder (layer_ids : list Z)
| MsgLayerRetitle (layer_id : Z) (title : list Z)
| MsgLayerDelete (layer_id : Z) (merge : bool)
| MsgLayerVisibility (layer_id : Z) (visible : bool)
| MsgPutImage (layer_id blend_mode x y w h : Z) (image : list Z)
| MsgFillRect (layer_id blend_mode x y w h color : Z)
| MsgRegionMove (layer_id src_x src_y src_width src_height : Z)
    (dst_quad : DP_Quad) (mask : option (list Z))
| MsgPutTile (layer_id sublayer_id x y repeat : Z) (payload : TilePayload)
| MsgCanvasBackground (payload : TilePayload)
| MsgPenUp
| MsgDrawDabs (kind : DabsKind) (layer_id origin_x origin_y color blend_mode : Z)
    (indirect : bool) (dabs : list Z)
| MsgOther (type : Z).

Record DP_Message := mkMessage {
  DP_message_context_id : Z;
  DP_message_body : MessageBody
}.

Section Interpreter.
Context `{!BlendModes, !Codec, !Geometry, !LayerListOps}.

(** *** Tiles ([tile.h]) *)

(** Modelled from the spec: [DP_tile_incref_nullable] of [tile.c], which is
    not among the sources; reference counts move by one, and a count that
    reaches zero releases the object. *)
Definition DP_tile_incref_nullable (t : option addr) : M (option addr) :=
  match t with
  | Some p =>
      tile ← load_tile p;
      store_tile p (mkTile (tile_refcount tile + 1) (tile_context_id tile)
                      (tile_pixels tile));;
      mret (Some p)
  | None => mret None
  end.

(** Modelled from the spec: [DP_tile_decref] of [tile.c]. *)
Definition DP_tile_decref (p : addr) : M unit :=
  tile ← load_tile p;
  if tile_refcount tile - 1 =? 0 then free_tile p
  else store_tile p (mkTile (tile_refcount tile - 1) (tile_context_id tile)
                       (tile_pixels tile)).

(** Modelled from the spec: [DP_tile_decref_nullable] of [tile.c]. *)
Definition DP_tile_decref_nullable (t : option addr) : M unit :=
  match t with
  | Some p => DP_tile_decref p
  | None => mret tt
  end.

(** Modelled from the spec: [DP_tile_new_from_bgra] of [tile.c], a new tile
    filled with one colour. *)
Definition DP_tile_new_from_bgra (context_id color : Z) : M addr :=
  malloc_tile (mkTile 1 context_id (SolidPixels color)).

(** Modelled from the spec: [DP_tile_new_from_compressed] of [tile.c]; the
    codec must yield [TILE_SIZE * TILE_SIZE] pixels of four bytes, else the
    result is NULL. *)
Definition DP_tile_new_from_compressed (context_id : Z) (image : list Z)
    : M (option addr) :=
  match DP_compress_inflate image with
  | Some bytes =>
      if Z.of_nat (length bytes) =? DP_TILE_SIZE * DP_TILE_SIZE * 4
      then p ← malloc_tile (mkTile 1 context_id (InflatedPixels bytes));
           mret (Some p)
      else mret None
  | None => mret None
  end.

(** *** Layer lists ([layer_list.h]) *)

(** Modelled from the spec: [DP_layer_list_new] of [layer_list.c], an empty
    persistent list. *)
Definition DP_layer_list_new : M addr :=
  malloc_list (mkLayerList 1 false []).

(** Modelled from the spec: [DP_layer_list_incref] of [layer_list.c]. *)
Definition DP_layer_list_incref (p : addr) : M addr :=
  ll ← load_list p;
  store_list p (mkLayerList (ll_refcount ll + 1) (ll_transient ll) (ll_layers ll));;
  mret p.

(** Modelled from the spec: [DP_layer_list_decref] of [layer_list.c]. *)
Definition DP_layer_list_decref (p : addr) : M unit :=
  ll ← load_list p;
  if ll_refcount ll - 1 =? 0 then free_list p
  else store_list p (mkLayerList (ll_refcount ll - 1) (ll_transient ll)
                       (ll_layers ll)).

(** Modelled from the spec: [DP_layer_list_transient] of [layer_list.c]. *)
Definition DP_layer_list_transient (p : addr) : M bool :=
  ll ← load_list p; mret (ll_transient ll).

(** Modelled from the spec: [DP_layer_list_layer_count] of [layer_list.c]. *)
Definition DP_layer_list_layer_count (p : addr) : M nat :=
  ll ← load_list p; mret (length (ll_layers ll)).

(** Modelled from the spec: [DP_transient_layer_list_new] of [layer_list.c],
    the shallow clone of a list: a new object of reference count one with
    the transient flag set. *)
Definition DP_transient_layer_list_new (p : addr) (reserve : Z) : M addr :=
  ll ← load_list p;
  malloc_list (mkLayerList 1 true (ll_layers ll)).

(** Modelled from the spec: [DP_transient_layer_list_reserve] of
    [layer_list.c]; capacity is not part of the model. *)
Definition DP_transient_layer_list_reserve (tll : addr) (reserve : Z) : M addr :=
  mret tll.

(** Modelled from the spec: [DP_transient_layer_list_persist] of
    [layer_list.c]: the transient flag is cleared. *)
Definition DP_transient_layer_list_persist (tll : addr) : M unit :=
  ll ← load_list tll;
  store_list tll (mkLayerList (ll_refcount ll) false (ll_layers ll)).

(** Modelled from the spec: the write operations of a transient layer list
    ([DP_transient_layer_list_layer_create], [..._fill_rect], ...) of
    [layer_list.c].  Each works on the list it is handed, and reports
    success. *)
Definition transient_layer_list_apply
    (op : list DP_Layer -> option (list DP_Layer)) (tll : addr) : M bool :=
  ll ← load_list tll;
  match op (ll_layers ll) with
  | Some ls =>
      store_list tll (mkLayerList (ll_refcount ll) (ll_transient ll) ls);;
      mret true
  | None => mret false
  end.

(** Modelled from the spec: [DP_transient_layer_list_resize] of
    [layer_list.c], which resizes every layer and cannot fail. *)
Definition DP_transient_layer_list_resize (tll : addr)
    (context_id top right bottom left : Z) : M unit :=
  ll ← load_list tll;
  store_list tll (mkLayerList (ll_refcount ll) (ll_transient ll)
                    (resize context_id top right bottom left (ll_layers ll))).

(** Modelled from the spec: the search of a layer by id in [layer_list.c]. *)
Definition find_layer (id : Z) (ls : list DP_Layer) : option DP_Layer :=
  List.find (fun l => layer_id l =? id) ls.

(** Modelled from the spec: the reordering of [layer_list.c], which
    "reorders to match the supplied permutation of existing IDs; unknown IDs
    cause failure".  A permutation of the existing ids, each named once, puts
    the layers in its order, and an unknown id causes failure.  For ids that
    all exist but are no such permutation the spec says nothing:
    [reorder_other] of the collaborator stands for the list made then. *)
Definition reorder_layers (ls : list DP_Layer) (layer_ids : list Z)
    : option (list DP_Layer) :=
  if bool_decide (Forall (fun id => id ∈ layer_id <$> ls) layer_ids) then
    if bool_decide (NoDup layer_ids /\ layer_ids ≡ₚ layer_id <$> ls)
    then Some (omap (fun id => find_layer id ls) layer_ids)
    else Some (reorder_other layer_ids ls)
  else None.

(** Modelled from the spec: [DP_layer_list_layer_reorder] of [layer_list.c].
    It returns a new transient list, or NULL when the reordering fails. *)
Definition DP_layer_list_layer_reorder (p : addr) (layer_ids : list Z)
    : M (option addr) :=
  ll ← load_list p;
  match reorder_layers (ll_layers ll) layer_ids with
  | Some ls => q ← malloc_list (mkLayerList 1 true ls); mret (Some q)
  | None => mret None
  end.

(** *** Canvas states *)

Definition set_refcount (n : Z) (s : DP_CanvasState) : DP_CanvasState :=
  mkCanvasState n (transient s) (width s) (height s) (background_tile s) (layers s).
Definition set_transient (b : bool) (s : DP_CanvasState) : DP_CanvasState :=
  mkCanvasState (refcount s) b (width s) (height s) (background_tile s) (layers s).
Definition set_size (w h : Z) (s : DP_CanvasState) : DP_CanvasState :=
  mkCanvasState (refcount s) (transient s) w h (background_tile s) (layers s).
Definition set_background_tile (t : option addr) (s : DP_CanvasState)
    : DP_CanvasState :=
  mkCanvasState (refcount s) (transient s) (width s) (height s) t (layers s).
Definition set_layers (l : option addr) (s : DP_CanvasState) : DP_CanvasState :=
  mkCanvasState (refcount s) (transient s) (width s) (height s)
    (background_tile s) l.

(** [allocate_canvas_state] *)
Definition allocate_canvas_state (is_transient : bool) (w h : Z) : M addr :=
  malloc_state (mkCanvasState 1 is_transient w h None None).

(** [DP_canvas_state_new] *)
Definition DP_canvas_state_new : M addr :=
  tcs ← allocate_canvas_state false 0 0;
  ll ← DP_layer_list_new;
  s ← load_state tcs;
  store_state tcs (set_layers (Some ll) s);;
  mret tcs.

(** [DP_canvas_state_incref] *)
Definition DP_canvas_state_incref (cs : addr) : M addr :=
  s ← load_state cs;
  DP_ASSERT (0 <? refcount s);;
  store_state cs (set_refcount (refcount s + 1) s);;
  mret cs.

(** [DP_canvas_state_decref] *)
Definition DP_canvas_state_decref (cs : addr) : M unit :=
  s ← load_state cs;
  DP_ASSERT (0 <? refcount s);;
  if refcount s - 1 =? 0 then
    DP_tile_decref_nullable (background_tile s);;
    ll ← deref (layers s);
    DP_layer_list_decref ll;;
    free_state cs
  else store_state cs (set_refcount (refcount s - 1) s).

(** [get_transient_layer_list] *)
Definition get_transient_layer_list (tcs : addr) (reserve : Z) : M addr :=
  s ← load_state tcs;
  DP_ASSERT (0 <? refcount s);;
  DP_ASSERT (transient s);;
  DP_ASSERT (0 <=? reserve);;
  ll ← deref (layers s);
  is_transient ← DP_layer_list_transient ll;
  if negb is_transient then
    tll ← DP_transient_layer_list_new ll reserve;
    store_state tcs (set_layers (Some tll) s);;
    DP_layer_list_decref ll;;
    mret tll
  else if 0 <? reserve then
    tll ← DP_transient_layer_list_reserve ll reserve;
    store_state tcs (set_layers (Some tll) s);;
    mret tll
  else mret ll.

(** [DP_transient_canvas_state_new] *)
Definition DP_transient_canvas_state_new (cs : addr) : M addr :=
  s ← load_state cs;
  DP_ASSERT (0 <? refcount s);;
  DP_ASSERT (negb (transient s));;
  tcs ← allocate_canvas_state true (width s) (height s);
  bg ← DP_tile_incref_nullable (background_tile s);
  ll ← deref (layers s);
  ll' ← DP_layer_list_incref ll;
  t ← load_state tcs;
  store_state tcs (set_layers (Some ll') (set_background_tile bg t));;
  mret tcs.

(** [DP_transient_canvas_state_decref] *)
Definition DP_transient_canvas_state_decref (tcs : addr) : M unit :=
  DP_canvas_state_decref tcs.

(** [DP_transient_canvas_state_persist] *)
Definition DP_transient_canvas_state_persist (tcs : addr) : M addr :=
  s ← load_state tcs;
  DP_ASSERT (0 <? refcount s);;
  DP_ASSERT (transient s);;
  ll ← deref (layers s);
  is_transient ← DP_layer_list_transient ll;
  (if (is_transient : bool) then DP_transient_layer_list_persist ll
   else mret tt);;
  store_state tcs (set_transient false s);;
  mret tcs.

(** The arithmetic of [DP_transient_canvas_state_resize]: the new
    dimensions, or nothing when the resize is rejected. *)
Definition resize_dimensions (w h top right bottom left : Z) : option (Z * Z) :=
  let north := int_neg top in
  let west := int_neg left in
  let east := int_add w right in
  let south := int_add h bottom in
  if (south <=? north) || (east <=? west) then None
  else
    let width' := int_add east left in
    let height' := int_add south top in
    if (width' <? 1) || (height' <? 1)
       || (INT16_MAX <? width') || (INT16_MAX <? height')
    then None
    else Some (width', height').

(** The rejection test of [DP_transient_canvas_state_resize], on the sums as
    the [int] type computes them: a new size outside [1, 32767], or inverted
    borders. *)
Definition resize_rejected (w h top right bottom left : Z) : Prop :=
  let new_w := to_int (w + left + right) in
  let new_h := to_int (h + top + bottom) in
  new_w < 1 \/ INT16_MAX < new_w \/ new_h < 1 \/ INT16_MAX < new_h
  \/ int_add h bottom <= int_neg top
  \/ int_add w right <= int_neg left.

(** [DP_transient_canvas_state_resize] *)
Definition DP_transient_canvas_state_resize (tcs : addr)
    (context_id top right bottom left : Z) : M bool :=
  s ← load_state tcs;
  DP_ASSERT (0 <? refcount s);;
  DP_ASSERT (transient s);;
  match resize_dimensions (width s) (height s) top right bottom left with
  | None => mret false
  | Some (w, h) =>
      store_state tcs (set_size w h s);;
      ll ← deref (layers s);
      n ← DP_layer_list_layer_count ll;
      (if (0 <? n)%nat then
         tll ← get_transient_layer_list tcs 0;
         DP_transient_layer_list_resize tll context_id top right bottom left
       else mret tt : M unit);;
      mret true
  end.

(** The common tail of the handlers: persist the transient state when the
    operation succeeded, else drop it and return NULL. *)
Definition persist_or_discard (tcs : addr) (ok : bool) : M (option addr) :=
  if ok then cs ← DP_transient_canvas_state_persist tcs; mret (Some cs)
  else DP_transient_canvas_state_decref tcs;; mret None.

(** [handle_canvas_resize] *)
Definition handle_canvas_resize (cs : addr) (context_id : Z)
    (top right bottom left : Z) : M (option addr) :=
  tcs ← DP_transient_canvas_state_new cs;
  ok ← DP_transient_canvas_state_resize tcs context_id top right bottom left;
  persist_or_discard tcs ok.

(** [handle_layer_create] *)
Definition handle_layer_create (cs : addr) (context_id : Z)
    (layer_id source_id fill : Z) (insert copy : bool) (title : list Z)
    : M (option addr) :=
  tcs ← DP_transient_canvas_state_new cs;
  tile ← (if fill =? 0 then mret None
          else p ← DP_tile_new_from_bgra context_id fill; mret (Some p)
          : M (option addr));
  tll ← get_transient_layer_list tcs 1;
  t ← load_state tcs;
  fill_tile ← (match tile with
               | Some p => x ← load_tile p; mret (Some x)
               | None => mret None
               end : M (option DP_Tile));
  ok ← transient_layer_list_apply
         (layer_create layer_id source_id fill_tile insert copy
            (width t) (height t) title) tll;
  DP_tile_decref_nullable tile;;
  persist_or_discard tcs ok.

(** [handle_layer_attr] *)
Definition handle_layer_attr (cs : addr)
    (layer_id sublayer_id opacity blend_mode : Z) (censored fixed : bool)
    : M (option addr) :=
  tcs ← DP_transient_canvas_state_new cs;
  tll ← get_transient_layer_list tcs 0;
  ok ← transient_layer_list_apply
         (layer_attr layer_id sublayer_id opacity blend_mode censored fixed) tll;
  persist_or_discard tcs ok.

(** [handle_layer_order] *)
Definition handle_layer_order (cs : addr) (layer_ids : list Z)
    : M (option addr) :=
  tcs ← DP_transient_canvas_state_new cs;
  t ← load_state tcs;
  ll ← deref (layers t);
  DP_layer_list_decref ll;;
  s ← load_state cs;
  ll0 ← deref (layers s);
  tll ← DP_layer_list_layer_reorder ll0 layer_ids;
  t ← load_state tcs;
  store_state tcs (set_layers tll t);;
  cs' ← DP_transient_canvas_state_persist tcs;
  mret (Some cs').

(** [handle_layer_retitle] *)
Definition handle_layer_retitle (cs : addr) (layer_id : Z) (title : list Z)
    : M (option addr) :=
  tcs ← DP_transient_canvas_state_new cs;
  tll ← get_transient_layer_list tcs 0;
  ok ← transient_layer_list_apply (layer_retitle layer_id title) tll;
  persist_or_discard tcs ok.

(** [handle_layer_delete] *)
Definition handle_layer_delete (cs : addr) (context_id : Z)
    (layer_id : Z) (merge : bool) : M (option addr) :=
  tcs ← DP_transient_canvas_state_new cs;
  tll ← get_transient_layer_list tcs 0;
  ok ← transient_layer_list_apply (layer_delete context_id layer_id merge) tll;
  persist_or_discard tcs ok.

(** [handle_layer_visibility] *)
Definition handle_layer_visibility (cs : addr) (layer_id : Z) (visible : bool)
    : M (option addr) :=
  tcs ← DP_transient_canvas_state_new cs;
  tll ← get_transient_layer_list tcs 0;
  ok ← transient_layer_list_apply (layer_visibility layer_id visible) tll;
  persist_or_discard tcs ok.

(** [handle_put_image] *)
Definition handle_put_image (cs : addr) (context_id : Z)
    (layer_id blend_mode x y w h : Z) (image : list Z) : M (option addr) :=
  if negb (DP_blend_mode_exists blend_mode) then mret None
  else
    tcs ← DP_transient_canvas_state_new cs;
    tll ← get_transient_layer_list tcs 0;
    ok ← transient_layer_list_apply
           (put_image context_id layer_id blend_mode x y w h image) tll;
    persist_or_discard tcs ok.

(** The effective rectangle of [handle_fill_rect]:
    [(left, top, right, bottom)]. *)
Definition fill_rect_bounds (x y w h canvas_width canvas_height : Z)
    : Z * Z * Z * Z :=
  let left := DP_max_int x 0 in
  let top := DP_max_int y 0 in
  let right := DP_min_int (int_add x w) canvas_width in
  let bottom := DP_min_int (int_add y h) canvas_height in
  (left, top, right, bottom).

(** [handle_fill_rect] *)
Definition handle_fill_rect (cs : addr) (context_id : Z)
    (layer_id blend_mode x y w h color : Z) : M (option addr) :=
  if negb (DP_blend_mode_exists blend_mode) then mret None
  else if negb (DP_blend_mode_valid_for_brush blend_mode) then mret None
  else
    s ← load_state cs;
    let '(rect_left, rect_top, rect_right, rect_bottom) :=
      fill_rect_bounds x y w h (width s) (height s) in
    if (rect_right <=? rect_left) || (rect_bottom <=? rect_top) then mret None
    else
      tcs ← DP_transient_canvas_state_new cs;
      tll ← get_transient_layer_list tcs 0;
      ok ← transient_layer_list_apply
             (fill_rect context_id layer_id blend_mode
                rect_left rect_top rect_right rect_bottom color) tll;
      persist_or_discard tcs ok.

(** [max_size] of [handle_region_move], computed in [long long]. *)
Definition region_move_max_size (canvas_width canvas_height : Z) : Z :=
  llong_mul (llong_add canvas_width 1) (llong_add canvas_height 1).

(** [handle_region_move].  A mask that is not decoded ends the handler: the
    NULL of a rejected payload, and likewise a decoding without result, which
    with [src_width] and [src_height] positive takes a mask whose buffer or
    pixel block has more than [INT_MAX] cells. *)
Definition handle_region_move (cs : addr) (context_id : Z)
    (layer_id src_x src_y src_width src_height : Z) (dst_quad : DP_Quad)
    (in_mask : option (list Z)) : M (option addr) :=
  if (src_width <=? 0) || (src_height <=? 0) then mret None
  else
    let decoded :=
      match in_mask with
      | Some bytes =>
          match Image.DP_image_new_from_compressed_monochrome
                  DP_compress_inflate src_width src_height bytes with
          | Some (Some mask) => Some (Some mask)
          | _ => None
          end
      | None => Some None
      end in
    match decoded with
    | None => mret None
    | Some mask =>
        s ← load_state cs;
        let max_size := region_move_max_size (width s) (height s) in
        if max_size <? DP_quad_bounds_size dst_quad then mret None
        else
          tcs ← DP_transient_canvas_state_new cs;
          let src_rect := DP_rect_make src_x src_y src_width src_height in
          tll ← get_transient_layer_list tcs 0;
          ok ← transient_layer_list_apply
                 (region_move context_id layer_id src_rect dst_quad mask) tll;
          persist_or_discard tcs ok
    end.

(** The tile of a [PutTile] or [CanvasBackground] payload: a solid colour or
    a compressed tile. *)
Definition tile_of_payload (context_id : Z) (payload : TilePayload)
    : M (option addr) :=
  match payload with
  | PayloadColor color =>
      p ← DP_tile_new_from_bgra context_id color; mret (Some p)
  | PayloadImage image => DP_tile_new_from_compressed context_id image
  end.

(** The tile object [tile_of_payload] allocates, if any. *)
Definition payload_tile (context_id : Z) (payload : TilePayload)
    : option DP_Tile :=
  match payload with
  | PayloadColor color => Some (mkTile 1 context_id (SolidPixels color))
  | PayloadImage image =>
      match DP_compress_inflate image with
      | Some bytes =>
          if Z.of_nat (length bytes) =? DP_TILE_SIZE * DP_TILE_SIZE * 4
          then Some (mkTile 1 context_id (InflatedPixels bytes))
          else None
      | None => None
      end
  end.

(** [handle_put_tile] *)
Definition handle_put_tile (cs : addr) (context_id : Z)
    (layer_id sublayer_id x y repeat : Z) (payload : TilePayload)
    : M (option addr) :=
  tile ← tile_of_payload context_id payload;
  match tile with
  | Some p =>
      tcs ← DP_transient_canvas_state_new cs;
      tll ← get_transient_layer_list tcs 0;
      t ← load_tile p;
      ok ← transient_layer_list_apply
             (put_tile t layer_id sublayer_id x y repeat) tll;
      DP_tile_decref p;;
      persist_or_discard tcs ok
  | None => mret None
  end.

(** [handle_canvas_background] *)
Definition handle_canvas_background (cs : addr) (context_id : Z)
    (payload : TilePayload) : M (option addr) :=
  tile ← tile_of_payload context_id payload;
  match tile with
  | Some p =>
      tcs ← DP_transient_canvas_state_new cs;
      t ← load_state tcs;
      DP_tile_decref_nullable (background_tile t);;
      store_state tcs (set_background_tile (Some p) t);;
      cs' ← DP_transient_canvas_state_persist tcs;
      mret (Some cs')
  | None => mret None
  end.

(** *** PenUp *)

(** A [DP_Layer *] (or the list of its sublayers): the layer list that holds
    the layer and its index there. *)
Abbreviation layer_ref := (positive * nat)%type.

(** [DP_layer_list_at_noinc] *)
Definition load_layer (r : layer_ref) : M DP_Layer :=
  ll ← load_list r.1; deref (ll_layers ll !! r.2).

(** [DP_layer_list_layer_count] on the sublayers of a layer. *)
Definition sublayer_count_of (sll : layer_ref) : M nat :=
  l ← load_layer sll; mret (length (layer_sublayers l)).

(** [DP_layer_id (DP_layer_list_at_noinc (sll, j))] *)
Definition sublayer_id_at (sll : layer_ref) (j : nat) : M Z :=
  l ← load_layer sll;
  sub ← deref (layer_sublayers l !! j);
  mret (layer_id sub).

(** Modelled from the spec: the merge of one sublayer into its parent layer
    ([layer.c]); the sublayer leaves the list of sublayers. *)
Definition merge_sublayer (context_id : Z) (l : DP_Layer) (j : nat)
    : option DP_Layer :=
  sub ← layer_sublayers l !! j;
  Some (mkLayer (layer_id l) (layer_title l) (layer_opacity l)
          (layer_blend_mode l) (layer_visible l) (layer_censored l)
          (layer_fixed l) (layer_width l) (layer_height l)
          (merge_pixels context_id l sub)
          (delete j (layer_sublayers l))).

(** Modelled from the spec: [DP_transient_layer_list_transient_at] of
    [layer_list.c]; it makes the layer at [i] of the list it is handed
    writable and returns it. *)
Definition DP_transient_layer_list_transient_at (tll : addr) (i : nat)
    : M layer_ref :=
  ll ← load_list tll;
  _ ← deref (ll_layers ll !! i);
  mret (tll, i).

(** Modelled from the spec: [DP_transient_layer_merge_sublayer_at] of
    [layer.c]. *)
Definition DP_transient_layer_merge_sublayer_at (tl : layer_ref)
    (context_id : Z) (j : nat) : M unit :=
  ll ← load_list tl.1;
  l ← deref (ll_layers ll !! tl.2);
  l' ← deref (merge_sublayer context_id l j);
  store_list tl.1 (mkLayerList (ll_refcount ll) (ll_transient ll)
                     (<[tl.2 := l']> (ll_layers ll))).

(** The variables of [handle_pen_up] that outlive an iteration. *)
Record PenUpLocals := mkPenUp {
  pu_tcs : option addr;
  pu_ll : addr;
  pu_tl : option layer_ref;
  pu_sll : layer_ref
}.

(** The inner loop of [handle_pen_up], at index [j] of the sublayers of layer
    [i]; [n] is [sublayer_count - j], which every iteration decreases: a
    merge decrements [sublayer_count] and leaves [j] in place. *)
Fixpoint pen_up_sublayers (n : nat) (cs : addr) (context_id sublayer_id : Z)
    (i j : nat) (st : PenUpLocals) : M PenUpLocals :=
  match n with
  | O => mret st
  | S n' =>
      id ← sublayer_id_at (pu_sll st) j;
      if id =? sublayer_id then
        st' ← match pu_tl st with
              | Some tl =>
                  DP_transient_layer_merge_sublayer_at tl context_id j;;
                  mret st
              | None =>
                  '(tcs, tll, ll) ←
                    match pu_tcs st with
                    | Some tcs =>
                        (* tll = (DP_TransientLayerList * )ll *)
                        mret (tcs, pu_ll st, pu_ll st)
                    | None =>
                        tcs ← DP_transient_canvas_state_new cs;
                        tll ← get_transient_layer_list tcs 0;
                        (* ll = (DP_LayerList * )ll *)
                        mret (tcs, tll, pu_ll st)
                    end;
                  tl ← DP_transient_layer_list_transient_at tll i;
                  DP_transient_layer_merge_sublayer_at tl context_id j;;
                  mret (mkPenUp (Some tcs) ll (Some tl) tl)
              end;
        pen_up_sublayers n' cs context_id sublayer_id i j st'
      else pen_up_sublayers n' cs context_id sublayer_id i (S j) st
  end.

(** The outer loop of [handle_pen_up], at layer [i]; [n] is
    [layer_count - i]. *)
Fixpoint pen_up_layers (n : nat) (cs : addr) (context_id sublayer_id : Z)
    (i : nat) (tcs : option addr) (ll : addr) : M (option addr) :=
  match n with
  | O => mret tcs
  | S n' =>
      let sll := (ll, i) in
      sublayer_count ← sublayer_count_of sll;
      st ← pen_up_sublayers sublayer_count cs context_id sublayer_id i 0
             (mkPenUp tcs ll None sll);
      pen_up_layers n' cs context_id sublayer_id (S i) (pu_tcs st) (pu_ll st)
  end.

(** [handle_pen_up] *)
Definition handle_pen_up (cs : addr) (context_id : Z) : M (option addr) :=
  let sublayer_id := DP_uint_to_int context_id in
  s ← load_state cs;
  ll ← deref (layers s);
  layer_count ← DP_layer_list_layer_count ll;
  tcs ← pen_up_layers layer_count cs context_id sublayer_id 0 None ll;
  match tcs with
  | Some t => cs' ← DP_transient_canvas_state_persist t; mret (Some cs')
  | None => cs' ← DP_canvas_state_incref cs; mret (Some cs')
  end.

(** *** DrawDabs *)

(** What [handle_draw_dabs] derives from the indirect flag:
    [(sublayer_id, sublayer_opacity, sublayer_blend_mode, dabs_blend_mode)]. *)
Definition draw_dabs_modes (context_id color blend_mode : Z) (indirect : bool)
    : Z * Z * Z * Z :=
  if indirect then
    (DP_uint_to_int context_id,
     DP_uint32_to_int (Z.shiftr (Z.land color 4278190080) 24),
     blend_mode,
     DP_BLEND_MODE_NORMAL)
  else (0, -1, -1, blend_mode).

(** [handle_draw_dabs] *)
Definition handle_draw_dabs (cs : addr) (kind : DabsKind) (context_id : Z)
    (layer_id origin_x origin_y color blend_mode : Z) (indirect : bool)
    (dabs : list Z) : M (option addr) :=
  if negb (DP_blend_mode_exists blend_mode) then mret None
  else if negb (DP_blend_mode_valid_for_brush blend_mode) then mret None
  else
    let dab_count := Z.of_nat (length dabs) in
    if dab_count <? 1 then
      cs' ← DP_canvas_state_incref cs; mret (Some cs')
    else
      let '(sublayer_id, sublayer_opacity, sublayer_blend_mode,
            dabs_blend_mode) :=
        draw_dabs_modes context_id color blend_mode indirect in
      let params :=
        mkDabsParams kind context_id origin_x origin_y color
          dabs_blend_mode dab_count dabs in
      tcs ← DP_transient_canvas_state_new cs;
      tll ← get_transient_layer_list tcs 0;
      ok ← transient_layer_list_apply
             (draw_dabs layer_id sublayer_id sublayer_blend_mode
                sublayer_opacity params) tll;
      persist_or_discard tcs ok.

(** *** The interpreter *)

(** [DP_canvas_state_handle] *)
Definition DP_canvas_state_handle (cs : addr) (msg : DP_Message)
    : M (option addr) :=
  s ← load_state cs;
  DP_ASSERT (0 <? refcount s);;
  DP_ASSERT (negb (transient s));;
  let context_id := DP_message_context_id msg in
  match DP_message_body msg with
  | MsgCanvasResize top_ right_ bottom_ left_ =>
      handle_canvas_resize cs context_id top_ right_ bottom_ left_
  | MsgLayerCreate layer_id source_id fill insert copy title =>
      handle_layer_create cs context_id layer_id source_id fill insert copy title
  | MsgLayerAttr layer_id sublayer_id opacity blend_mode censored fixed =>
      handle_layer_attr cs layer_id sublayer_id opacity blend_mode censored fixed
  | MsgLayerOrder layer_ids => handle_layer_order cs layer_ids
  | MsgLayerRetitle layer_id title => handle_layer_retitle cs layer_id title
  | MsgLayerDelete layer_id merge =>
      handle_layer_delete cs context_id layer_id merge
  | MsgLayerVisibility layer_id visible =>
      handle_layer_visibility cs layer_id visible
  | MsgPutImage layer_id blend_mode x y w h image =>
      handle_put_image cs context_id layer_id blend_mode x y w h image
  | MsgFillRect layer_id blend_mode x y w h color =>
      handle_fill_rect cs context_id layer_id blend_mode x y w h color
  | MsgRegionMove layer_id src_x src_y src_width src_height dst_quad mask =>
      handle_region_move cs context_id layer_id src_x src_y src_width
        src_height dst_quad mask
  | MsgPutTile layer_id sublayer_id x y repeat payload =>
      handle_put_tile cs context_id layer_id sublayer_id x y repeat payload
  | MsgCanvasBackground payload => handle_canvas_background cs context_id payload
  | MsgPenUp => handle_pen_up cs context_id
  | MsgDrawDabs kind layer_id origin_x origin_y color blend_mode indirect dabs =>
      handle_draw_dabs cs kind context_id layer_id origin_x origin_y color
        blend_mode indirect dabs
  | MsgOther _ => mret None
  end.

(** *** Canvas diff *)

(** Modelled from the spec: [DP_tile_size_round_up] of [tile.h], the number
    of tiles that cover [i] pixels. *)
Definition DP_tile_size_round_up (i : Z) : Z :=
  Z.quot (int_add i (DP_TILE_SIZE - 1)) DP_TILE_SIZE.

Section Diff.
(** What [DP_realloc] leaves in the cells it adds, and the sixth argument of
    [DP_canvas_diff_begin]: [canvas_diff.c] as it is among the sources takes
    [layer_props_changed], which the calls in [DP_canvas_state_diff] do not
    pass. *)
Variables (indeterminate layer_props_changed : bool).

(** [DP_canvas_diff_begin (diff, ...)] as [DP_canvas_state_diff] calls it. *)
Definition canvas_diff_begin (diff : CanvasDiff.DP_CanvasDiff)
    (old_width old_height current_width current_height : Z)
    : M CanvasDiff.DP_CanvasDiff :=
  deref (CanvasDiff.DP_canvas_diff_begin DP_tile_size_round_up indeterminate
           diff old_width old_height current_width current_height
           layer_props_changed).

(** [diff_states] *)
Definition diff_states (cs prev : addr) (diff : CanvasDiff.DP_CanvasDiff)
    : M CanvasDiff.DP_CanvasDiff :=
  c ← load_state cs;
  p ← load_state prev;
  if negb (bool_decide (background_tile c = background_tile p))
     || negb (width c =? width p) || negb (height c =? height p)
  then mret (CanvasDiff.DP_canvas_diff_check_all diff)
  else
    lc ← deref (layers c);
    lp ← deref (layers p);
    llc ← load_list lc;
    llp ← load_list lp;
    mret (layer_list_diff (ll_layers llc) (ll_layers llp) diff).

(** [DP_canvas_state_diff] *)
Definition DP_canvas_state_diff (cs : addr) (prev_or_null : option addr)
    (diff : CanvasDiff.DP_CanvasDiff) : M CanvasDiff.DP_CanvasDiff :=
  c ← load_state cs;
  DP_ASSERT (0 <? refcount c);;
  match prev_or_null with
  | Some prev =>
      p ← load_state prev;
      DP_ASSERT (0 <? refcount p);;
      diff' ← canvas_diff_begin diff (width p) (height p) (width c) (height c);
      if negb (bool_decide (cs = prev)) then diff_states cs prev diff'
      else mret diff'
  | None => canvas_diff_begin diff 0 0 (width c) (height c)
  end.
End Diff.

(** *** Well-formed snapshots *)

(** A persisted snapshot as [DP_canvas_state_handle] expects it: a live,
    non-transient canvas state whose layer list and background tile are
    live as well. *)
Definition valid_snapshot (h : heap) (cs : addr) : bool :=
  match states h !! cs with
  | Some s =>
      (0 <? refcount s) && negb (transient s)
      && match layers s with
         | Some l =>
             match lists h !! l with
             | Some ll => (0 <? ll_refcount ll) && negb (ll_transient ll)
             | None => false
             end
         | None => false
         end
      && match background_tile s with
         | Some t =>
             match tiles h !! t with
             | Some tile => 0 <? tile_refcount tile
             | None => false
             end
         | None => true
         end
  | None => false
  end.

(** *** Heaps after a transition *)

(** The tiles after [DP_tile_incref_nullable t]. *)
Definition incref_tile (t : option addr) (ts : gmap positive DP_Tile)
    : gmap positive DP_Tile :=
  match t with
  | Some p =>
      match ts !! p with
      | Some tile =>
          <[p := mkTile (tile_refcount tile + 1) (tile_context_id tile)
                   (tile_pixels tile)]> ts
      | None => ts
      end
  | None => ts
  end.

(** The lists after [DP_layer_list_incref l]. *)
Definition incref_list (l : addr) (lls : gmap positive DP_LayerList)
    : gmap positive DP_LayerList :=
  match lls !! l with
  | Some ll =>
      <[l := mkLayerList (ll_refcount ll + 1) (ll_transient ll) (ll_layers ll)]> lls
  | None => lls
  end.

(** The addresses the next allocations return. *)
Definition next_state (h : heap) : addr := fresh (dom (states h)).
Definition next_list (h : heap) : addr := fresh (dom (lists h)).
Definition next_tile (h : heap) : addr := fresh (dom (tiles h)).

(** The heap after a handler published a snapshot of size [w] by [ht] over
    the background [bg] with a layer list of its own: one new state at
    [next_state h], one new list at [next_list h], one more reference to the
    background tile, and nothing else touched. *)
Definition published (h : heap) (w ht : Z) (bg : option addr)
    (ls : list DP_Layer) : heap :=
  mkHeap (<[next_state h :=
              mkCanvasState 1 false w ht bg (Some (next_list h))]> (states h))
         (<[next_list h := mkLayerList 1 false ls]> (lists h))
         (incref_tile bg (tiles h)).

(** The heap after a handler published a snapshot that shares the layer list
    [l] of its input. *)
Definition published_shared (h : heap) (w ht : Z) (bg : option addr)
    (l : addr) : heap :=
  mkHeap (<[next_state h := mkCanvasState 1 false w ht bg (Some l)]> (states h))
         (incref_list l (lists h))
         (incref_tile bg (tiles h)).

(** The heap after one more reference to the snapshot [cs] was taken. *)
Definition with_incref (h : heap) (cs : addr) : heap :=
  match states h !! cs with
  | Some s => mkHeap (<[cs := set_refcount (refcount s + 1) s]> (states h))
                (lists h) (tiles h)
  | None => h
  end.

(** A snapshot that did not exist in [h] and is persisted in [h']: its
    reference count is one, and neither it nor its layer list is transient. *)
Definition fresh_snapshot (h h' : heap) (p : addr) : Prop :=
  states h !! p = None
  /\ exists s' q x,
       states h' !! p = Some s' /\ refcount s' = 1 /\ transient s' = false
       /\ layers s' = Some q /\ lists h' !! q = Some x
       /\ ll_transient x = false.

(** What [DP_canvas_state_handle] may answer on the snapshot [cs] of [h]:
    NULL with the heap as it was, the snapshot itself with one more
    reference, or a fresh persisted snapshot. *)
Definition handled (h : heap) (cs : addr) (r : option addr) (h' : heap)
    : Prop :=
  match r with
  | None => h' = h
  | Some p => (p = cs /\ h' = with_incref h cs) \/ fresh_snapshot h h' p
  end.

(** Some layer carries a sublayer of the given id. *)
Definition has_stroke (sublayer_id : Z) (ls : list DP_Layer) : bool :=
  existsb (fun l => existsb (fun sub => layer_id sub =? sublayer_id)
                      (layer_sublayers l)) ls.

(** The heap while [handle_pen_up] holds a transient state: the input list
    [l] with layers [A], the transient list with layers [B]. *)
Definition pen_up_heap (h0 : heap) (s : DP_CanvasState) (l : addr)
    (rc : Z) (A B : list DP_Layer) : heap :=
  mkHeap (<[next_state h0 :=
              mkCanvasState 1 true (width s) (height s) (background_tile s)
                (Some (next_list h0))]> (states h0))
         (<[l := mkLayerList rc false A]>
            (<[next_list h0 := mkLayerList 1 true B]> (lists h0)))
         (incref_tile (background_tile s) (tiles h0)).

Inductive pen_up_phase (h0 : heap) (s : DP_CanvasState) (l : addr)
    (ll : DP_LayerList) : option addr -> heap -> Prop :=
| pen_up_idle : pen_up_phase h0 s l ll None h0
| pen_up_working A B :
    length A = length (ll_layers ll) -> length B = length (ll_layers ll) ->
    pen_up_phase h0 s l ll (Some (next_state h0))
      (pen_up_heap h0 s l (ll_refcount ll) A B).

(** *** Rendering *)

Section Render.
(** [DP_transient_layer_resize_to] and [DP_transient_layer_render_tile]
    belong to [layer.c]; the target layer is an object of the caller. *)
Variable DP_transient_layer_resize_to : DP_Layer -> Z -> Z -> Z -> DP_Layer.
Variable DP_transient_layer_render_tile :
  DP_Layer -> heap -> addr -> Z -> DP_Layer.

(** [render_tile] *)
Definition render_tile (h : heap) (cs : addr) (target : DP_Layer)
    (tile_index : Z) : DP_Layer :=
  DP_transient_layer_render_tile target h cs tile_index.

(** [DP_canvas_state_render] *)
Definition DP_canvas_state_render (cs : addr) (target : DP_Layer)
    (diff : CanvasDiff.DP_CanvasDiff) : M DP_Layer :=
  s ← load_state cs;
  ((fun h =>
      Some (CanvasDiff.DP_canvas_diff_each_index diff (render_tile h cs)
              (DP_transient_layer_resize_to target 0 (width s) (height s)),
            h)) : M DP_Layer).
End Render.

(** *** Observations on snapshots *)

(** What a snapshot shows: its size, the pixels of its background tile and
    its layers. *)
Definition snapshot_view (h : heap) (cs : addr)
    : option (Z * Z * option TilePixels * list DP_Layer) :=
  s ← states h !! cs;
  l ← layers s;
  ll ← lists h !! l;
  bg ← match background_tile s with
       | Some t => tile ← tiles h !! t; Some (Some (tile_pixels tile))
       | None => Some None
       end;
  Some (width s, height s, bg, ll_layers ll).

(** The sizes a canvas can have: none yet, or one that
    [DP_transient_canvas_state_resize] accepts. *)
Definition canvas_size_ok (w h : Z) : Prop :=
  (w = 0 /\ h = 0) \/ (1 <= w <= INT16_MAX /\ 1 <= h <= INT16_MAX).

(** The heap after [handle_canvas_background] published a snapshot over the
    new background tile [t]. *)
Definition published_background (h : heap) (s : DP_CanvasState) (l : addr)
    (t : DP_Tile) : heap :=
  mkHeap (<[next_state h :=
              mkCanvasState 1 false (width s) (height s)
                (Some (next_tile h)) (Some l)]> (states h))
         (incref_list l (lists h))
         (<[next_tile h := t]> (tiles h)).

(** The answers of [DP_canvas_state_handle] to the messages that do not go
    through [handle_pen_up], on the snapshot [cs] with state [s] and layer
    list [l]. *)
Inductive answer (h : heap) (cs : addr) (s : DP_CanvasState) (l : addr)
    : option addr -> heap -> Prop :=
| answer_failure : answer h cs s l None h
| answer_input : answer h cs s l (Some cs) (with_incref h cs)
| answer_layers ls :
    answer h cs s l (Some (next_state h))
      (published h (width s) (height s) (background_tile s) ls)
| answer_resized w ht ls :
    1 <= w <= INT16_MAX -> 1 <= ht <= INT16_MAX ->
    answer h cs s l (Some (next_state h))
      (published h w ht (background_tile s) ls)
| answer_resized_empty w ht :
    1 <= w <= INT16_MAX -> 1 <= ht <= INT16_MAX ->
    answer h cs s l (Some (next_state h))
      (published_shared h w ht (background_tile s) l)
| answer_background t :
    tile_refcount t = 1 ->
    answer h cs s l (Some (next_state h)) (published_background h s l t).

End Interpreter.
End Canvas.


(** ** A small instance of the collaborators

    Used to run the interpreter on concrete heaps. *)

Module Sample.
Import CInt Heap Collab Canvas.

(** Blend modes 0 to 3 exist; 1 (normal) and 2 are brush modes. *)
#[global] Instance blend_modes : BlendModes := {|
  DP_blend_mode_exists m := (0 <=? m) && (m <=? 3);
  DP_blend_mode_valid_for_brush m := (1 <=? m) && (m <=? 2);
  DP_BLEND_MODE_NORMAL := 1
|}.

(** A codec that stores payloads uncompressed. *)
#[global] Instance codec : Codec := {|
  DP_compress_inflate bytes := Some bytes
|}.

Definition min4 (a b c d : Z) : Z := Z.min (Z.min a b) (Z.min c d).
Definition max4 (a b c d : Z) : Z := Z.max (Z.max a b) (Z.max c d).

(** Modelled from the spec: [DP_quad_bounds] and [DP_rect_size] of
    [dpcommon/geom.h], the bounding rectangle of the four corners and its
    area in [long long]. *)
Definition quad_bounds (q : DP_Quad) : DP_Rect :=
  mkRect (min4 (quad_x1 q) (quad_x2 q) (quad_x3 q) (quad_x4 q))
         (min4 (quad_y1 q) (quad_y2 q) (quad_y3 q) (quad_y4 q))
         (max4 (quad_x1 q) (quad_x2 q) (quad_x3 q) (quad_x4 q))
         (max4 (quad_y1 q) (quad_y2 q) (quad_y3 q) (quad_y4 q)).

Definition rect_size (r : DP_Rect) : Z :=
  llong_mul (int_add (int_sub (rect_x2 r) (rect_x1 r)) 1)
            (int_add (int_sub (rect_y2 r) (rect_y1 r)) 1).

#[global] Instance geometry : Geometry := {|
  DP_quad_bounds_size q := rect_size (quad_bounds q);
  DP_rect_make x y w h := mkRect x y (int_sub (int_add x w) 1) (int_sub (int_add y h) 1)
|}.

(** Layer operations that only look the addressed layer up. *)
Definition on_layer (id : Z) (ls : list DP_Layer) : option (list DP_Layer) :=
  if existsb (fun l => layer_id l =? id) ls then Some ls else None.

Definition blank_layer (id w h : Z) (title : list Z) : DP_Layer :=
  mkLayer id title 255 1 true false false w h [] [].

#[global] Instance layer_ops : LayerListOps := {|
  layer_create id _ _ _ _ w h title ls :=
    if existsb (fun l => layer_id l =? id) ls then None
    else Some (ls ++ [blank_layer id w h title]);
  layer_attr id _ _ _ _ _ := on_layer id;
  layer_retitle id _ := on_layer id;
  layer_delete _ id _ ls :=
    if existsb (fun l => layer_id l =? id) ls
    then Some (List.filter (fun l => negb (layer_id l =? id)) ls) else None;
  layer_visibility id _ := on_layer id;
  put_image _ id _ _ _ _ _ _ := on_layer id;
  fill_rect _ id _ _ _ _ _ _ := on_layer id;
  region_move _ id _ _ _ := on_layer id;
  put_tile _ id _ _ _ _ := on_layer id;
  draw_dabs id _ _ _ _ := on_layer id;
  resize _ _ _ _ _ ls := ls;
  merge_pixels _ l sub := layer_pixels l ++ layer_pixels sub;
  reorder_other _ ls := ls;
  layer_list_diff _ _ diff := diff
|}.

(** A stroke sublayer of context 7 and two layers that carry one each. *)
Definition stroke (id : Z) : DP_Layer :=
  mkLayer id [] 128 1 true false false 64 64 [id] [].
Definition layer_with_stroke (id : Z) : DP_Layer :=
  mkLayer id [] 255 1 true false false 64 64 [] [stroke 7].

(** A heap that holds one snapshot at address 1 over the list at address 1. *)
Definition snapshot_heap (w h : Z) (ls : list DP_Layer) : heap :=
  mkHeap {[ 1%positive := mkCanvasState 1 false w h None (Some 1%positive) ]}
         {[ 1%positive := mkLayerList 1 false ls ]}
         ∅.

(** A 64 by 64 canvas with the single layer 1. *)
Definition canvas : heap := snapshot_heap 64 64 [blank_layer 1 64 64 []].

(** A canvas whose layers 1 and 2 both carry a stroke of context 7. *)
Definition two_strokes : heap :=
  snapshot_heap 64 64 [layer_with_stroke 1; layer_with_stroke 2].

(** The tiles that cover [i] pixels, for tiles of 64 by 64 pixels. *)
Definition round_up (i : Z) : Z := (i + 63) / 64.

(** A diff begun for a canvas of 100 by 100 pixels that had no size. *)
Definition four_tiles : CanvasDiff.DP_CanvasDiff :=
  CanvasDiff.mkCanvasDiff 4 2 2 4 [true; true; true; true] false.

End Sample.


(** * Properties *)

Import CInt Heap Collab Canvas.

(** ** Machine integers *)

Lemma wrap_signed_id bits z :
  0 < bits -> - 2 ^ (bits - 1) <= z < 2 ^ (bits - 1) -> wrap_signed bits z = z.
Proof.
  intros Hb Hz. unfold wrap_signed.
  assert (H2 : 2 ^ bits = 2 * 2 ^ (bits - 1)).
  { replace bits with (Z.succ (bits - 1)) at 1 by lia.
    rewrite Z.pow_succ_r by lia. reflexivity. }
  rewrite Z.mod_small by lia. lia.
Qed.

Lemma to_int_id z : is_int z -> to_int z = z.
Proof.
  unfold is_int, INT_MIN, INT_MAX, to_int. intros Hz.
  apply wrap_signed_id; [lia|]. change (32 - 1) with 31. lia.
Qed.

Lemma to_llong_id z : is_llong z -> to_llong z = z.
Proof.
  unfold is_llong, LLONG_MIN, LLONG_MAX, to_llong. intros Hz.
  apply wrap_signed_id; [lia|]. change (64 - 1) with 63. lia.
Qed.

Lemma to_int_range z : is_int (to_int z).
Proof.
  unfold is_int, to_int, wrap_signed, INT_MIN, INT_MAX.
  change (32 - 1) with 31.
  pose proof (Z.mod_pos_bound (z + 2 ^ 31) (2 ^ 32) ltac:(lia)) as Hm.
  change (2 ^ 32) with (2 * 2 ^ 31) in *. lia.
Qed.

(** Reduction to [int] may be postponed to the end of a sum. *)
Lemma to_int_add_l a b : to_int (to_int a + b) = to_int (a + b).
Proof.
  unfold to_int, wrap_signed. change (32 - 1) with 31. f_equal.
  replace ((a + 2 ^ 31) mod 2 ^ 32 - 2 ^ 31 + b + 2 ^ 31)
    with ((a + 2 ^ 31) mod 2 ^ 32 + b) by lia.
  rewrite Zplus_mod_idemp_l. f_equal. lia.
Qed.

Lemma int_add_assoc3 w a b : int_add (int_add w a) b = to_int (w + b + a).
Proof.
  unfold int_add. rewrite to_int_add_l. f_equal. lia.
Qed.

Lemma DP_min_int_spec a b : DP_min_int a b = Z.min a b.
Proof. unfold DP_min_int. destruct (Z.ltb_spec a b); lia. Qed.

Lemma DP_max_int_spec a b : DP_max_int a b = Z.max a b.
Proof. unfold DP_max_int. destruct (Z.ltb_spec a b); lia. Qed.

Ltac int_range :=
  cbv [is_int is_llong is_uint32 INT_MIN INT_MAX LLONG_MIN LLONG_MAX INT16_MAX
       UINT32_MAX] in *;
  change (2 ^ 31) with 2147483648 in *;
  change (2 ^ 32) with 4294967296 in *;
  change (2 ^ 63) with 9223372036854775808 in *;
  lia.

Ltac int_norm :=
  unfold int_add, int_sub, int_neg in *;
  rewrite ?to_int_id in * by int_range.

(** ** Sub-images *)

Section Subimage.
Import Image.

Lemma int_neg_INT_MIN : int_neg INT_MIN = INT_MIN.
Proof. reflexivity. Qed.

(** For requests of moderate size the preconditions of [copy_pixels] hold
    exactly when the requested rectangle touches the source image: it may
    hang over an edge, but it may not lie beyond one. *)
Lemma subimage_region_ok_iff img x y w h :
  0 <= Image.width img <= INT16_MAX -> 0 <= Image.height img <= INT16_MAX ->
  0 <= w <= INT16_MAX -> 0 <= h <= INT16_MAX ->
  is_int x -> is_int y ->
  subimage_region_ok img x y w h = true
  <-> (- w <= x <= Image.width img /\ - h <= y <= Image.height img).
Proof.
  intros Hiw Hih Hw Hh Hx Hy.
  unfold subimage_region_ok, subimage_region, copy_pixels_pre, DP_image_new.
  rewrite (proj2 (Z.leb_le 0 w)), (proj2 (Z.leb_le 0 h)) by lia.
  cbn [andb Image.width Image.height].
  rewrite !DP_min_int_spec.
  assert (Ex : x = INT_MIN \/ INT_MIN < x) by (unfold is_int in *; lia).
  assert (Ey : y = INT_MIN \/ INT_MIN < y) by (unfold is_int in *; lia).
  destruct Ex as [->|Hx'], Ey as [->|Hy'].
  all: rewrite ?int_neg_INT_MIN.
  all: rewrite !andb_true_iff, !Z.leb_le.
  all: try (change (INT_MIN <? 0) with true; change (0 <? INT_MIN) with false;
            cbn iota).
  1-3: split;
    [intros H; exfalso; unfold INT_MIN in H;
     change (2 ^ 31) with 2147483648 in H; lia
    |unfold INT_MIN, INT16_MAX in *; change (2 ^ 31) with 2147483648 in *; lia].
  destruct (Z.ltb_spec x 0), (Z.ltb_spec 0 x), (Z.ltb_spec y 0), (Z.ltb_spec 0 y);
    try lia; int_norm; lia.
Qed.

(** C10 (code defect).  A request that lies entirely to the right of the
    source image makes [DP_image_new_subimage] call [copy_pixels] with a
    negative copy width, against the assertion [copy_width >= 0]. *)
Theorem subimage_outside_breaks_copy_pixels :
  exists img,
    DP_image_new 4 4 = Some img
    /\ subimage_region img 10 0 2 2 = (0, 0, 10, 0, -6, 2)
    /\ subimage_region_ok img 10 0 2 2 = false
    /\ DP_image_new_subimage img 10 0 2 2 = None.
Proof.
  exists (mkImage 4 4 (replicate 16 0)). vm_compute. repeat split; reflexivity.
Qed.

End Subimage.

(** ** Pixels of images and sub-images *)

Section ImageProps.
Import CInt Image.

Ltac cmp_true :=
  repeat match goal with
         | |- context [?a <=? ?b] => rewrite (proj2 (Z.leb_le a b)) by lia
         | |- context [?a <? ?b] => rewrite (proj2 (Z.ltb_lt a b)) by lia
         end;
  cbn [andb].

Lemma pixel_index_range img x y :
  image_wf img -> width img * height img <= INT_MAX ->
  0 <= x < width img -> 0 <= y < height img ->
  int_add (int_mul y (width img)) x = y * width img + x
  /\ 0 <= y * width img + x < width img * height img.
Proof.
  intros (Hw & Hh & Hl) Hmax Hx Hy.
  assert (0 <= y * width img + x < width img * height img) by nia.
  assert (0 <= y * width img <= width img * height img) by nia.
  unfold int_add, int_mul.
  rewrite (to_int_id (y * _)) by int_range.
  rewrite to_int_id by int_range. done.
Qed.

Lemma pixel_index_inj w x y x' y' :
  0 <= x < w -> 0 <= x' < w -> y * w + x = y' * w + x' -> x = x' /\ y = y'.
Proof.
  intros Hx Hx' E.
  assert (y = y') by nia. subst. lia.
Qed.

(** X15.  On a well-formed image, [DP_image_pixel_at_set] at a position
    inside the image succeeds, keeps the size, and changes exactly one
    pixel: [DP_image_pixel_at] reads the new value back at that position and
    the old value at every other one. *)
Theorem pixel_at_set_then_pixel_at img x y pixel :
  image_wf img -> width img * height img <= INT_MAX ->
  0 <= x < width img -> 0 <= y < height img ->
  exists img',
    DP_image_pixel_at_set img x y pixel = Some img'
    /\ image_wf img' /\ width img' = width img /\ height img' = height img
    /\ DP_image_pixel_at img' x y = Some pixel
    /\ forall x' y', (x', y') <> (x, y) ->
         DP_image_pixel_at img' x' y' = DP_image_pixel_at img x' y'.
Proof.
  intros Hwf Hmax Hx Hy.
  destruct (pixel_index_range img x y Hwf Hmax Hx Hy) as [Ei Hi].
  pose proof Hwf as (Hw & Hh & Hl).
  unfold DP_image_pixel_at_set, pixel_at_pre.
  cmp_true. rewrite Ei. cmp_true. eexists. split; [reflexivity|].
  assert (Hwf' : image_wf
            {| width := width img; height := height img;
               pixels := <[Z.to_nat (y * width img + x) := pixel]> (pixels img) |}).
  { unfold image_wf. cbn. rewrite length_insert. done. }
  repeat split; try apply Hwf'.
  - unfold DP_image_pixel_at, pixel_at_pre. cbn [width height pixels].
    cmp_true. rewrite Ei. apply list_lookup_insert_eq. lia.
  - intros x' y' Hne. unfold DP_image_pixel_at, pixel_at_pre.
    cbn [width height pixels].
    destruct (Z.leb_spec 0 x'), (Z.leb_spec 0 y'), (Z.ltb_spec x' (width img)),
      (Z.ltb_spec y' (height img)); cbn [andb]; try done.
    destruct (pixel_index_range img x' y' Hwf Hmax) as [Ei' Hi']; [lia..|].
    rewrite Ei'. apply list_lookup_insert_ne.
    intros E. apply Hne.
    destruct (pixel_index_inj (width img) x y x' y') as [-> ->]; [lia..|done].
Qed.


Lemma memcpy_pixels_length dst src d s n :
  0 <= d -> 0 <= s -> 0 <= n ->
  d + n <= Z.of_nat (length dst) -> s + n <= Z.of_nat (length src) ->
  length (memcpy_pixels dst src d s n) = length dst.
Proof.
  intros Hd Hs Hn Hdn Hsn. unfold memcpy_pixels.
  rewrite !length_app, !length_take, !length_drop. lia.
Qed.

Lemma memcpy_pixels_lookup dst src d s n k :
  0 <= d -> 0 <= s -> 0 <= n -> 0 <= k ->
  d + n <= Z.of_nat (length dst) -> s + n <= Z.of_nat (length src) ->
  memcpy_pixels dst src d s n !! Z.to_nat k
  = if (d <=? k) && (k <? d + n) then src !! Z.to_nat (s + (k - d))
    else dst !! Z.to_nat k.
Proof.
  intros Hd Hs Hn Hk Hdn Hsn. unfold memcpy_pixels.
  destruct (Z.leb_spec d k) as [Hdk|Hdk]; cbn [andb].
  - rewrite lookup_app_r by (rewrite length_take; lia).
    rewrite length_take, Nat.min_l by lia.
    destruct (Z.ltb_spec k (d + n)) as [Hkn|Hkn].
    + rewrite lookup_app_l by (rewrite length_take, length_drop; lia).
      rewrite lookup_take_lt by lia. rewrite lookup_drop. f_equal. lia.
    + rewrite lookup_app_r by (rewrite length_take, length_drop; lia).
      rewrite length_take, length_drop, Nat.min_l by lia.
      rewrite lookup_drop. f_equal. lia.
  - rewrite lookup_app_l by (rewrite length_take; lia).
    apply lookup_take_lt. lia.
Qed.

(** The row loop of [copy_pixels], after [rows] rows. *)
Lemma copy_rows_lookup (rows : nat) dst src dst_x dst_y src_x src_y cw dw dh sw sh i j :
  0 <= dst_x -> 0 <= dst_y -> 0 <= src_x -> 0 <= src_y -> 0 <= cw ->
  dst_x + cw <= dw -> src_x + cw <= sw ->
  dst_y + Z.of_nat rows <= dh -> src_y + Z.of_nat rows <= sh ->
  Z.of_nat (length dst) = dw * dh -> Z.of_nat (length src) = sw * sh ->
  dw * dh <= INT_MAX -> sw * sh <= INT_MAX -> dh <= INT_MAX -> sh <= INT_MAX ->
  0 <= i < dw -> 0 <= j < dh ->
  let out :=
    fold_left
      (fun dst_pixels y =>
         memcpy_pixels dst_pixels src
           (int_add (int_mul (int_add y dst_y) dw) dst_x)
           (int_add (int_mul (int_add y src_y) sw) src_x) cw)
      (seqZ 0 (Z.of_nat rows)) dst in
  length out = length dst
  /\ out !! Z.to_nat (j * dw + i)
     = if (dst_y <=? j) && (j <? dst_y + Z.of_nat rows)
          && (dst_x <=? i) && (i <? dst_x + cw)
       then src !! Z.to_nat ((j - dst_y + src_y) * sw + (src_x + (i - dst_x)))
       else dst !! Z.to_nat (j * dw + i).
Proof.
  intros Hdx Hdy Hsx Hsy Hcw Hdw Hsw Hdh Hsh Hld Hls Hdmax Hsmax Hdhm Hshm Hi Hj.
  induction rows as [|rows IH]; cbn zeta.
  - cbn. split; [done|].
    destruct (Z.leb_spec dst_y j), (Z.ltb_spec j (dst_y + Z.of_nat 0));
      cbn [andb]; try done; lia.
  - destruct IH as [IHlen IHlook]; [lia..|].
    rewrite seqZ_S, fold_left_app. cbn [fold_left]. rewrite Z.add_0_l.
    set (prev := fold_left _ (seqZ 0 (Z.of_nat rows)) dst) in *.
    set (r := Z.of_nat rows) in *.
    assert (Hr : 0 <= r) by lia.
    assert (Hd1 : 0 <= (r + dst_y) * dw + dst_x) by nia.
    assert (Hs1 : 0 <= (r + src_y) * sw + src_x) by nia.
    assert (Hd0 : 0 <= (r + dst_y) * dw <= dw * dh) by nia.
    assert (Hs0 : 0 <= (r + src_y) * sw <= sw * sh) by nia.
    assert (Hd3 : (r + dst_y) * dw + dst_x <= dw * dh) by nia.
    assert (Hs3 : (r + src_y) * sw + src_x <= sw * sh) by nia.
    assert (Ed : int_add (int_mul (int_add r dst_y) dw) dst_x
                 = (r + dst_y) * dw + dst_x).
    { unfold int_add, int_mul. rewrite (to_int_id (r + dst_y)) by int_range.
      rewrite (to_int_id ((r + dst_y) * dw)) by int_range.
      apply to_int_id. int_range. }
    assert (Es : int_add (int_mul (int_add r src_y) sw) src_x
                 = (r + src_y) * sw + src_x).
    { unfold int_add, int_mul. rewrite (to_int_id (r + src_y)) by int_range.
      rewrite (to_int_id ((r + src_y) * sw)) by int_range.
      apply to_int_id. int_range. }
    rewrite Ed, Es.
    assert (Hd2 : (r + dst_y) * dw + dst_x + cw <= Z.of_nat (length prev)).
    { rewrite IHlen, Hld. nia. }
    assert (Hs2 : (r + src_y) * sw + src_x + cw <= Z.of_nat (length src)).
    { rewrite Hls. nia. }
    split.
    + rewrite memcpy_pixels_length by lia. exact IHlen.
    + rewrite memcpy_pixels_lookup by (lia || nia).
      rewrite IHlook.
      replace (dst_y + Z.of_nat (S rows)) with (dst_y + r + 1) by lia.
      destruct (Z.leb_spec ((r + dst_y) * dw + dst_x) (j * dw + i)) as [Ha|Ha],
        (Z.ltb_spec (j * dw + i) ((r + dst_y) * dw + dst_x + cw)) as [Hb|Hb];
        cbn [andb].
      * (* inside row [r] *)
        assert (j = r + dst_y) by nia. subst j.
        assert (dst_x <= i < dst_x + cw) by lia.
        destruct (Z.leb_spec dst_y (r + dst_y)); [|lia].
        destruct (Z.ltb_spec (r + dst_y) (dst_y + r + 1)); [|lia].
        destruct (Z.leb_spec dst_x i); [|lia].
        destruct (Z.ltb_spec i (dst_x + cw)); [|lia].
        cbn [andb]. f_equal. nia.
      * assert (~ (j = r + dst_y /\ dst_x <= i < dst_x + cw)) by nia.
        destruct (Z.leb_spec dst_y j), (Z.ltb_spec j (dst_y + r)),
          (Z.ltb_spec j (dst_y + r + 1)), (Z.leb_spec dst_x i),
          (Z.ltb_spec i (dst_x + cw)); cbn [andb]; try done; lia.
      * assert (~ (j = r + dst_y /\ dst_x <= i < dst_x + cw)) by nia.
        destruct (Z.leb_spec dst_y j), (Z.ltb_spec j (dst_y + r)),
          (Z.ltb_spec j (dst_y + r + 1)), (Z.leb_spec dst_x i),
          (Z.ltb_spec i (dst_x + cw)); cbn [andb]; try done; lia.
      * assert (~ (j = r + dst_y /\ dst_x <= i < dst_x + cw)) by nia.
        destruct (Z.leb_spec dst_y j), (Z.ltb_spec j (dst_y + r)),
          (Z.ltb_spec j (dst_y + r + 1)), (Z.leb_spec dst_x i),
          (Z.ltb_spec i (dst_x + cw)); cbn [andb]; try done; lia.
Qed.


Lemma subimage_region_values img x y w h :
  0 <= width img <= INT16_MAX -> 0 <= height img <= INT16_MAX ->
  0 <= w <= INT16_MAX -> 0 <= h <= INT16_MAX ->
  - 1073741824 <= x <= 1073741824 -> - 1073741824 <= y <= 1073741824 ->
  subimage_region img x y w h
  = (Z.max 0 (- x), Z.max 0 (- y), Z.max 0 x, Z.max 0 y,
     Z.min (w - Z.max 0 (- x)) (width img - Z.max 0 x),
     Z.min (h - Z.max 0 (- y)) (height img - Z.max 0 y)).
Proof.
  intros Hiw Hih Hw Hh Hx Hy. unfold subimage_region.
  rewrite !DP_min_int_spec.
  destruct (Z.ltb_spec x 0), (Z.ltb_spec 0 x), (Z.ltb_spec y 0), (Z.ltb_spec 0 y);
    try lia; int_norm; repeat f_equal; lia.
Qed.

Lemma DP_image_new_ok w h :
  0 <= w -> 0 <= h ->
  DP_image_new w h = Some (mkImage w h (replicate (Z.to_nat (w * h)) 0)).
Proof.
  intros Hw Hh. unfold DP_image_new.
  by rewrite (proj2 (Z.leb_le 0 w)), (proj2 (Z.leb_le 0 h)) by lia.
Qed.

Lemma new_image_lookup w h k :
  0 <= k < w * h -> replicate (Z.to_nat (w * h)) 0 !! Z.to_nat k = Some 0.
Proof. intros Hk. apply lookup_replicate_2. lia. Qed.

(** X16.  [DP_image_new_subimage] on a rectangle that touches the source
    image: the result has the requested size, and its pixel [(i, j)] is the
    source pixel at [(x + i, y + j)] where that position lies inside the
    source, and zero (transparent) everywhere else. *)
Theorem subimage_pixels img x y w h i j :
  image_wf img -> width img <= INT16_MAX -> height img <= INT16_MAX ->
  0 <= w <= INT16_MAX -> 0 <= h <= INT16_MAX ->
  - w <= x <= width img -> - h <= y <= height img ->
  0 <= i < w -> 0 <= j < h ->
  exists sub,
    DP_image_new_subimage img x y w h = Some sub
    /\ width sub = w /\ height sub = h /\ image_wf sub
    /\ DP_image_pixel_at sub i j
       = if (0 <=? x + i) && (x + i <? width img)
            && (0 <=? y + j) && (y + j <? height img)
         then DP_image_pixel_at img (x + i) (y + j)
         else Some 0.
Proof.
  intros Hwf Hiw Hih Hw Hh Hx Hy Hi Hj.
  pose proof Hwf as (Hiw0 & Hih0 & Hil).
  change INT16_MAX with 32767 in *.
  assert (Hidx : 0 <= j * w + i < w * h) by nia.
  assert (Hwh : 0 <= w * h <= 32767 * 32767) by nia.
  assert (Hiwh : 0 <= width img * height img <= 32767 * 32767) by nia.
  assert (Hok : subimage_region_ok img x y w h = true).
  { apply subimage_region_ok_iff;
      first [change INT16_MAX with 32767; lia | int_range]. }
  unfold subimage_region_ok in Hok. unfold DP_image_new_subimage.
  rewrite (proj2 (Z.leb_le 0 w)), (proj2 (Z.leb_le 0 h)) by lia. cbn [andb].
  rewrite DP_image_new_ok in * by lia. cbn [mbind option_bind].
  rewrite subimage_region_values in * by (change INT16_MAX with 32767; lia).
  unfold copy_pixels. rewrite Hok.
  cbn [width height pixels].
  set (dst_x := Z.max 0 (- x)) in *. set (dst_y := Z.max 0 (- y)) in *.
  set (src_x := Z.max 0 x) in *. set (src_y := Z.max 0 y) in *.
  set (cw := Z.min (w - dst_x) (width img - src_x)) in *.
  set (ch := Z.min (h - dst_y) (height img - src_y)) in *.
  assert (Hcw : 0 <= cw) by lia. assert (Hch : 0 <= ch) by lia.
  destruct (copy_rows_lookup (Z.to_nat ch) (replicate (Z.to_nat (w * h)) 0)
              (pixels img) dst_x dst_y src_x src_y cw w h (width img)
              (height img) i j) as [Hlen Hlook];
    [lia..|rewrite length_replicate, Z2Nat.id by lia; reflexivity|lia
    |unfold INT_MAX; change (2 ^ 31) with 2147483648; lia
    |unfold INT_MAX; change (2 ^ 31) with 2147483648; lia
    |unfold INT_MAX; change (2 ^ 31) with 2147483648; lia
    |unfold INT_MAX; change (2 ^ 31) with 2147483648; lia|lia|lia|].
  cbn zeta in Hlen, Hlook. rewrite Z2Nat.id in Hlen, Hlook by lia.
  eexists. split; [reflexivity|].
  cbn [width height]. split; [reflexivity|]. split; [reflexivity|]. split.
  - unfold image_wf. cbn [width height pixels].
    rewrite Hlen, length_replicate, Z2Nat.id by lia. repeat split; lia.
  - unfold DP_image_pixel_at at 1, pixel_at_pre. cbn [width height pixels].
    cmp_true.
    assert (Ewh : w * h <= INT_MAX) by (unfold INT_MAX; change (2 ^ 31) with 2147483648; lia).
    destruct (pixel_index_range
                (mkImage w h (replicate (Z.to_nat (w * h)) 0)) i j) as [Ei _];
      [unfold image_wf; cbn [width height pixels];
       rewrite length_replicate, Z2Nat.id by lia; repeat split; lia
      |exact Ewh|exact Hi|exact Hj|].
    cbn [width] in Ei. rewrite Ei, Hlook.
    assert (Hcov : (dst_y <=? j) && (j <? dst_y + ch) && (dst_x <=? i)
                   && (i <? dst_x + cw)
                   = (0 <=? x + i) && (x + i <? width img)
                     && (0 <=? y + j) && (y + j <? height img)).
    { apply eq_true_iff_eq.
      rewrite !andb_true_iff, !Z.leb_le, !Z.ltb_lt. lia. }
    rewrite Hcov.
    destruct (Z.leb_spec 0 (x + i)), (Z.ltb_spec (x + i) (width img)),
      (Z.leb_spec 0 (y + j)), (Z.ltb_spec (y + j) (height img));
      cbn [andb]; try (apply (new_image_lookup w h (j * w + i)); exact Hidx).
    unfold DP_image_pixel_at, pixel_at_pre. cmp_true.
    destruct (pixel_index_range img (x + i) (y + j)) as [Ei' _];
      [exact Hwf|unfold INT_MAX; change (2 ^ 31) with 2147483648; lia|lia|lia|].
    rewrite Ei'. f_equal. f_equal. lia.
Qed.

(** X17.  For a request of non-negative size, [DP_image_new_subimage] gets
    past the assertions of [copy_pixels] and returns an image exactly when
    the rectangle touches the source image or lies along one of its edges:
    [-width <= x <= img->width] and [-height <= y <= img->height]. *)
Theorem subimage_succeeds_iff img x y w h :
  0 <= width img <= INT16_MAX -> 0 <= height img <= INT16_MAX ->
  0 <= w <= INT16_MAX -> 0 <= h <= INT16_MAX ->
  is_int x -> is_int y ->
  is_Some (DP_image_new_subimage img x y w h)
  <-> - w <= x <= width img /\ - h <= y <= height img.
Proof.
  intros Hiw Hih Hw Hh Hx Hy.
  rewrite <- (subimage_region_ok_iff img x y w h) by done.
  unfold DP_image_new_subimage, subimage_region_ok.
  rewrite (proj2 (Z.leb_le 0 w)), (proj2 (Z.leb_le 0 h)) by lia. cbn [andb].
  rewrite DP_image_new_ok by lia. cbn [mbind option_bind].
  destruct (subimage_region img x y w h) as [[[[[dst_x dst_y] src_x] src_y] cw] ch].
  unfold copy_pixels.
  destruct (copy_pixels_pre _ _ _ _ _ _ _ _); split; try done.
Qed.


Lemma land_bit_mask b k :
  0 <= k -> (Z.land b (Z.shiftl 1 k) =? 0) = negb (Z.testbit b k).
Proof.
  intros Hk. rewrite Z.shiftl_1_l.
  assert (E : Z.land b (2 ^ k) = if Z.testbit b k then 2 ^ k else 0).
  { apply Z.bits_inj'. intros n Hn. rewrite Z.land_spec, Z.pow2_bits_eqb by done.
    destruct (Z.eqb_spec k n) as [->|Hne].
    - rewrite andb_true_r. destruct (Z.testbit b n).
      + by rewrite Z.pow2_bits_true.
      + by rewrite Z.bits_0.
    - rewrite andb_false_r. destruct (Z.testbit b k).
      + by rewrite Z.pow2_bits_false.
      + by rewrite Z.bits_0. }
  rewrite E. destruct (Z.testbit b k); cbn [negb].
  - apply Z.eqb_neq. pose proof (Z.pow_pos_nonneg 2 k). lia.
  - reflexivity.
Qed.

(** The nested loops over an image visit its positions line by line. *)
Lemma fold_left_positions {A} (g : A -> Z -> Z -> A) (xs ys : list Z) init :
  fold_left (fun acc y => fold_left (fun acc x => g acc x y) xs acc) ys init
  = fold_left (fun acc p => g acc p.1 p.2) (y ← ys; x ← xs; [(x, y)]) init.
Proof.
  revert init. induction ys as [|y ys IH]; intros init; [done|].
  cbn [fold_left mbind list_bind]. rewrite fold_left_app, <- IH. f_equal.
  clear IH. revert init. induction xs as [|x xs IHx]; intros init; [done|].
  cbn. apply IHx.
Qed.

Lemma elem_of_positions w h x y :
  (x, y) ∈ (y ← seqZ 0 h; x ← seqZ 0 w; [(x, y)])
  <-> 0 <= x < w /\ 0 <= y < h.
Proof.
  rewrite list_elem_of_bind. split.
  - intros (y' & (x' & Hp%list_elem_of_singleton & Hx%elem_of_seqZ)%list_elem_of_bind
              & Hy%elem_of_seqZ).
    injection Hp as -> ->. lia.
  - intros [Hx Hy]. exists y. split; [|apply elem_of_seqZ; lia].
    apply list_elem_of_bind. exists x. split; [|apply elem_of_seqZ; lia].
    by apply list_elem_of_singleton.
Qed.

(** The mask pixel that the bit of [(x, y)] stands for. *)
Lemma extract_monochrome_pixel_spec lw buffer img x y byte :
  image_wf img -> width img * height img <= INT_MAX ->
  0 <= lw -> lw * height img <= INT_MAX ->
  0 <= x < width img -> 0 <= y < height img -> x < 8 * lw ->
  buffer !! Z.to_nat (y * lw + x / 8) = Some byte ->
  extract_monochrome_pixel lw buffer img x y
  = Some {| width := width img; height := height img;
            pixels := <[Z.to_nat (y * width img + x) :=
                          if Z.testbit byte (7 - x mod 8) then 4294967295 else 0]>
                        (pixels img) |}.
Proof.
  intros Hwf Hmax Hlw Hlmax Hx Hy Hx8 Hbyte.
  destruct (pixel_index_range img x y Hwf Hmax Hx Hy) as [Ei Hi].
  pose proof Hwf as (Hw & Hh & Hl).
  assert (H8 : 0 <= x / 8 < lw) by (Z.div_mod_to_equations; lia).
  assert (Hm : 0 <= x mod 8 < 8) by (apply Z.mod_pos_bound; lia).
  assert (Hyl : 0 <= y * lw <= lw * height img) by nia.
  assert (Hidx : 0 <= y * lw + x / 8 < lw * height img) by nia.
  unfold extract_monochrome_pixel. cbv zeta.
  rewrite Z.quot_div_nonneg, Z.rem_mod_nonneg by lia.
  unfold int_add, int_mul, int_sub.
  rewrite !(to_int_id (y * lw)) by int_range.
  rewrite !(to_int_id (y * lw + x / 8)) by int_range.
  rewrite !(to_int_id (7 - x mod 8)) by int_range.
  rewrite (proj2 (Z.leb_le 0 _)) by lia. rewrite Hbyte. cbn [mbind option_bind].
  rewrite land_bit_mask by lia. rewrite negb_involutive.
  unfold DP_image_pixel_at_set, pixel_at_pre.
  cmp_true. rewrite Ei. cmp_true. reflexivity.
Qed.

(** The loop body of [extract_monochrome] over the positions [ps]: every
    position of [ps] holds the pixel of its bit, the others are untouched. *)
Lemma extract_monochrome_fold lw buffer w h ps :
  0 <= lw -> lw * h <= INT_MAX -> w * h <= INT_MAX -> w <= 8 * lw ->
  lw * h <= Z.of_nat (length buffer) ->
  Forall (fun p => 0 <= p.1 < w /\ 0 <= p.2 < h) ps ->
  forall img,
  image_wf img -> width img = w -> height img = h ->
  exists img',
    fold_left
      (fun acc p => img ← acc; extract_monochrome_pixel lw buffer img p.1 p.2)
      ps (Some img) = Some img'
    /\ image_wf img' /\ width img' = w /\ height img' = h
    /\ (forall x y byte,
          (x, y) ∈ ps -> buffer !! Z.to_nat (y * lw + x / 8) = Some byte ->
          pixels img' !! Z.to_nat (y * w + x)
          = Some (if Z.testbit byte (7 - x mod 8) then 4294967295 else 0))
    /\ (forall x y,
          0 <= x < w -> 0 <= y < h -> (x, y) ∉ ps ->
          pixels img' !! Z.to_nat (y * w + x)
          = pixels img !! Z.to_nat (y * w + x)).
Proof.
  intros Hlw Hlmax Hmax Hw8 Hbuf Hps.
  induction Hps as [|[px py] ps [Hpx Hpy] _ IH]; intros img Hwf Ew Eh.
  { exists img. repeat split; try done; try apply Hwf.
    intros x y byte Hin. by apply elem_of_nil in Hin. }
  cbn [fst snd] in Hpx, Hpy. cbn [fold_left fst snd mbind option_bind].
  assert (Hyl : 0 <= py * lw + px / 8 < lw * h)
    by (assert (0 <= px / 8 < lw) by (Z.div_mod_to_equations; lia); nia).
  destruct (lookup_lt_is_Some_2 buffer (Z.to_nat (py * lw + px / 8)))
    as [pbyte Hpbyte]; [lia|].
  rewrite (extract_monochrome_pixel_spec lw buffer img px py pbyte)
    by (rewrite ?Ew, ?Eh; done || lia).
  rewrite Ew, Eh.
  set (img1 := {| width := w; height := h; pixels := _ |}).
  pose proof Hwf as (Hw0 & Hh0 & Hl).
  assert (Hwf1 : image_wf img1).
  { unfold image_wf, img1. cbn. rewrite length_insert. rewrite <- Ew, <- Eh. done. }
  destruct (IH img1 Hwf1 eq_refl eq_refl)
    as (img' & Hrun & Hwf' & Ew' & Eh' & Hset & Hkeep).
  exists img'. split; [exact Hrun|]. repeat split; try done; try apply Hwf'.
  - intros x y byte Hin Hbyte.
    destruct (decide ((x, y) ∈ ps)) as [Hin'|Hnin]; [by apply Hset|].
    apply elem_of_cons in Hin as [[= -> ->]|Hin]; [|done].
    rewrite Hkeep by done. unfold img1. cbn [pixels].
    rewrite Hpbyte in Hbyte. injection Hbyte as <-.
    apply list_lookup_insert_eq. rewrite Ew, Eh in Hl. nia.
  - intros x y Hx Hy Hnin. apply not_elem_of_cons in Hnin as [Hne Hnin].
    rewrite Hkeep by done. unfold img1. cbn [pixels].
    apply list_lookup_insert_ne. intros E. apply Hne.
    destruct (pixel_index_inj w px py x y) as [-> ->]; [lia|lia|nia|done].
Qed.

(** X18.  [DP_image_new_from_compressed_monochrome] on a payload that
    inflates to [line_width * height] bytes, with lines padded to 32 bits,
    for a mask whose buffer and pixel block have at most [INT_MAX] cells:
    no assertion fails, every byte it reads lies inside the inflated buffer,
    and pixel [(x, y)] of the mask is opaque white exactly when bit
    [7 - x mod 8] of byte [x / 8] of line [y] is set (most significant bit
    first), and zero otherwise. *)
Theorem monochrome_mask_pixels (inflate : list Z -> option (list Z))
    w h input buffer x y :
  0 <= w -> w + 31 <= INT_MAX -> 0 <= h -> w * h <= INT_MAX ->
  4 * ((w + 31) / 32) * h <= INT_MAX ->
  inflate input = Some buffer ->
  Z.of_nat (length buffer) = 4 * ((w + 31) / 32) * h ->
  0 <= x < w -> 0 <= y < h ->
  exists img byte,
    DP_image_new_from_compressed_monochrome inflate w h input = Some (Some img)
    /\ width img = w /\ height img = h /\ image_wf img
    /\ buffer !! Z.to_nat (y * (4 * ((w + 31) / 32)) + x / 8) = Some byte
    /\ DP_image_pixel_at img x y
       = Some (if Z.testbit byte (7 - x mod 8) then 4294967295 else 0).
Proof.
  intros Hw Hw31 Hh Hwh Hlh Hinf Hlen Hx Hy.
  set (lw := 4 * ((w + 31) / 32)) in *.
  assert (Hlw : w <= 8 * lw) by (unfold lw; Z.div_mod_to_equations; lia).
  assert (Hlw0 : 0 <= lw <= INT_MAX)
    by (unfold lw, INT_MAX in *; Z.div_mod_to_equations; lia).
  assert (Hx8 : 0 <= x / 8 < lw) by (Z.div_mod_to_equations; lia).
  assert (Hidx : 0 <= y * lw + x / 8 < lw * h) by nia.
  destruct (lookup_lt_is_Some_2 buffer (Z.to_nat (y * lw + x / 8))) as [byte Hbyte];
    [lia|].
  unfold DP_image_new_from_compressed_monochrome. rewrite Hinf.
  unfold int_add, int_mul. rewrite (to_int_id (w + 31)) by int_range.
  rewrite Z.quot_div_nonneg by lia.
  replace ((w + 31) / 32 * 4) with lw by (unfold lw; lia).
  rewrite (to_int_id lw) by int_range.
  rewrite (proj2 (Z.eqb_eq _ _)) by lia.
  unfold extract_monochrome. rewrite DP_image_new_ok by lia.
  cbn [mbind option_bind].
  rewrite (fold_left_positions
             (fun acc x y => img ← acc; extract_monochrome_pixel lw buffer img x y)).
  destruct (extract_monochrome_fold lw buffer w h
              (y ← seqZ 0 h; x ← seqZ 0 w; [(x, y)]))
    with (img := mkImage w h (replicate (Z.to_nat (w * h)) 0))
    as (img' & Hrun & Hwf' & Ew' & Eh' & Hset & _);
    [lia|lia|lia|lia|lia| | |reflexivity|reflexivity|].
  { apply Forall_forall. intros [px py] Hp%elem_of_positions. done. }
  { unfold image_wf. cbn. rewrite length_replicate, Z2Nat.id by nia.
    repeat split; lia. }
  rewrite Hrun. cbn [option_bind]. exists img', byte.
  split; [reflexivity|]. repeat split; try done; try apply Hwf'.
  unfold DP_image_pixel_at, pixel_at_pre. rewrite Ew', Eh'. cmp_true.
  assert (0 <= y * w + x < w * h) by nia.
  assert (0 <= y * w <= w * h) by nia.
  unfold int_add, int_mul. rewrite (to_int_id (y * w)) by int_range.
  rewrite to_int_id by int_range.
  apply Hset; [|exact Hbyte]. apply elem_of_positions. lia.
Qed.

End ImageProps.

(** ** Bilinear sampling *)

Section ImageTransformProps.
Import CInt ImageTransform.

Lemma lor_disjoint_add a b : Z.land a b = 0 -> Z.lor a b = a + b.
Proof.
  intros H. rewrite <- Z.lxor_lor by exact H. symmetry.
  by apply Z.add_nocarry_lxor.
Qed.

Lemma testbit_lanes_low m :
  0 <= m -> Z.testbit 0xff00ff m = (m <? 8) || ((16 <=? m) && (m <? 24)).
Proof.
  intros Hm. change 0xff00ff with (Z.lor (Z.ones 8) (Z.shiftl (Z.ones 8) 16)).
  rewrite Z.lor_spec, Z.shiftl_spec by lia.
  rewrite Z.testbit_ones_nonneg by lia.
  destruct (Z.leb_spec 16 m).
  - rewrite Z.testbit_ones_nonneg by lia.
    destruct (Z.ltb_spec m 8), (Z.ltb_spec (m - 16) 8), (Z.ltb_spec m 24); lia || done.
  - rewrite Z.testbit_neg_r by lia. cbn. by rewrite orb_false_r.
Qed.

(** [v & 0xff00ff] keeps bytes 0 and 2. *)
Lemma land_lanes_low v :
  0 <= v ->
  Z.land v 0xff00ff = v mod 256 + 65536 * ((v / 65536) mod 256).
Proof.
  intros Hv.
  assert (E : Z.land v 0xff00ff
              = Z.lor (Z.land v (Z.ones 8))
                  (Z.shiftl (Z.land (Z.shiftr v 16) (Z.ones 8)) 16)).
  { apply Z.bits_inj'. intros m Hm.
    rewrite Z.land_spec, testbit_lanes_low, Z.lor_spec, Z.land_spec by done.
    rewrite Z.shiftl_spec by done.
    rewrite Z.testbit_ones_nonneg by lia.
    destruct (Z.leb_spec 16 m).
    - rewrite Z.land_spec, Z.shiftr_spec, Z.testbit_ones_nonneg by lia.
      replace (m - 16 + 16) with m by lia.
      destruct (Z.ltb_spec m 8), (Z.ltb_spec (m - 16) 8), (Z.ltb_spec m 24);
        try lia; cbn; by rewrite ?andb_false_r, ?andb_true_r.
    - rewrite (Z.testbit_neg_r _ (m - 16)) by lia.
      cbn. by rewrite !orb_false_r. }
  rewrite E, lor_disjoint_add.
  - rewrite !Z.land_ones, Z.shiftl_mul_pow2, Z.shiftr_div_pow2 by lia.
    change (2 ^ 8) with 256. change (2 ^ 16) with 65536. lia.
  - apply Z.bits_inj'. intros m Hm.
    rewrite Z.land_spec, Z.land_spec, Z.shiftl_spec, Z.bits_0 by done.
    rewrite Z.testbit_ones_nonneg by lia.
    destruct (Z.leb_spec 16 m).
    + destruct (Z.ltb_spec m 8); [lia|]. by rewrite andb_false_r.
    + rewrite (Z.testbit_neg_r _ (m - 16)) by lia. by rewrite andb_false_r.
Qed.


Lemma land_shiftl_mask v m k :
  0 <= k -> Z.land v (Z.shiftl m k) = Z.shiftl (Z.land (Z.shiftr v k) m) k.
Proof.
  intros Hk. apply Z.bits_inj'. intros n Hn.
  rewrite Z.land_spec, !Z.shiftl_spec by done.
  destruct (Z.leb_spec k n).
  - rewrite Z.land_spec, Z.shiftr_spec by lia.
    by replace (n - k + k) with n by lia.
  - rewrite !(Z.testbit_neg_r _ (n - k)) by lia. by rewrite andb_false_r.
Qed.

(** [v & 0xff00ff00] keeps bytes 1 and 3. *)
Lemma land_lanes_high v :
  0 <= v ->
  Z.land v 0xff00ff00
  = 256 * ((v / 256) mod 256) + 16777216 * ((v / 16777216) mod 256).
Proof.
  intros Hv. change 0xff00ff00 with (Z.shiftl 0xff00ff 8).
  rewrite land_shiftl_mask by lia.
  rewrite Z.shiftr_div_pow2, Z.shiftl_mul_pow2 by lia. change (2 ^ 8) with 256.
  rewrite land_lanes_low by (apply Z.div_pos; lia).
  rewrite Z.div_div by lia. change (256 * 65536) with 16777216. lia.
Qed.

Lemma lanes_disjoint x t :
  Z.lor (Z.land x 0xff00ff00) (Z.land t 0xff00ff)
  = Z.land x 0xff00ff00 + Z.land t 0xff00ff.
Proof.
  apply lor_disjoint_add.
  rewrite <- Z.land_assoc, (Z.land_assoc 0xff00ff00), (Z.land_comm 0xff00ff00 t).
  rewrite <- (Z.land_assoc t).
  change (Z.land 0xff00ff00 0xff00ff) with 0.
  by rewrite !Z.land_0_r.
Qed.

Lemma lanes_low_calc s0 s2 :
  0 <= s0 <= 65280 -> 0 <= s2 <= 65280 ->
  ((s0 + 65536 * s2) / 256) mod 256
  + 65536 * (((s0 + 65536 * s2) / 16777216) mod 256)
  = s0 / 256 + 65536 * (s2 / 256).
Proof. intros. Z.div_mod_to_equations. lia. Qed.

Lemma lanes_high_calc s1 s3 :
  0 <= s1 <= 65280 -> 0 <= s3 <= 65280 ->
  256 * (((s1 + 65536 * s3) / 256) mod 256)
  + 16777216 * (((s1 + 65536 * s3) / 16777216) mod 256)
  = 256 * (s1 / 256) + 16777216 * (s3 / 256).
Proof. intros. Z.div_mod_to_equations. lia. Qed.

(** Byte [n] of a number below [2 ^ 32]. *)
Definition byte_of (n p : Z) : Z := (p / 256 ^ n) mod 256.

(** The value of [interpolate_pixel] for weights that sum to at most 256:
    every byte is interpolated on its own. *)
Lemma interpolate_pixel_bytes x a y b :
  0 <= x < 2 ^ 32 -> 0 <= y < 2 ^ 32 -> 0 <= a -> 0 <= b -> a + b <= 256 ->
  interpolate_pixel x a y b
  = (byte_of 0 x * a + byte_of 0 y * b) / 256
    + 256 * ((byte_of 1 x * a + byte_of 1 y * b) / 256)
    + 65536 * ((byte_of 2 x * a + byte_of 2 y * b) / 256)
    + 16777216 * ((byte_of 3 x * a + byte_of 3 y * b) / 256).
Proof.
  intros Hx Hy Ha Hb Hab. unfold interpolate_pixel. cbv zeta.
  rewrite lanes_disjoint.
  rewrite !Z.shiftr_div_pow2 by lia. change (2 ^ 8) with 256.
  rewrite !(land_lanes_low x), !(land_lanes_low y) by lia.
  rewrite !(land_lanes_low (x / 256)), !(land_lanes_low (y / 256))
    by (apply Z.div_pos; lia).
  rewrite !Z.div_div by lia. change (256 * 65536) with 16777216.
  unfold byte_of. change (256 ^ 0) with 1. change (256 ^ 1) with 256.
  change (256 ^ 2) with 65536. change (256 ^ 3) with 16777216.
  rewrite !Z.div_1_r.
  change (2 ^ 32) with 4294967296 in *.
  set (x0 := x mod 256). set (x1 := (x / 256) mod 256).
  set (x2 := (x / 65536) mod 256). set (x3 := (x / 16777216) mod 256).
  set (y0 := y mod 256). set (y1 := (y / 256) mod 256).
  set (y2 := (y / 65536) mod 256). set (y3 := (y / 16777216) mod 256).
  assert (Hb0 : forall u v, 0 <= u < 256 -> 0 <= v < 256 ->
                  0 <= u * a + v * b <= 65280) by (intros; nia).
  pose proof (Hb0 x0 y0 ltac:(apply Z.mod_pos_bound; lia) ltac:(apply Z.mod_pos_bound; lia)) as H0.
  pose proof (Hb0 x1 y1 ltac:(apply Z.mod_pos_bound; lia) ltac:(apply Z.mod_pos_bound; lia)) as H1.
  pose proof (Hb0 x2 y2 ltac:(apply Z.mod_pos_bound; lia) ltac:(apply Z.mod_pos_bound; lia)) as H2.
  pose proof (Hb0 x3 y3 ltac:(apply Z.mod_pos_bound; lia) ltac:(apply Z.mod_pos_bound; lia)) as H3.
  unfold uint32_add, uint32_mul, to_uint32. change (2 ^ 32) with 4294967296.
  replace ((x0 + 65536 * x2) * a) with (x0 * a + 65536 * (x2 * a)) by lia.
  replace ((y0 + 65536 * y2) * b) with (y0 * b + 65536 * (y2 * b)) by lia.
  replace ((x1 + 65536 * x3) * a) with (x1 * a + 65536 * (x3 * a)) by lia.
  replace ((y1 + 65536 * y3) * b) with (y1 * b + 65536 * (y3 * b)) by lia.
  assert (Hp : forall u, 0 <= u < 256 -> 0 <= u * a <= 65280 /\ 0 <= u * b <= 65280)
    by (intros; nia).
  pose proof (Hp x0 ltac:(apply Z.mod_pos_bound; lia)).
  pose proof (Hp x1 ltac:(apply Z.mod_pos_bound; lia)).
  pose proof (Hp x2 ltac:(apply Z.mod_pos_bound; lia)).
  pose proof (Hp x3 ltac:(apply Z.mod_pos_bound; lia)).
  pose proof (Hp y0 ltac:(apply Z.mod_pos_bound; lia)).
  pose proof (Hp y1 ltac:(apply Z.mod_pos_bound; lia)).
  pose proof (Hp y2 ltac:(apply Z.mod_pos_bound; lia)).
  pose proof (Hp y3 ltac:(apply Z.mod_pos_bound; lia)).
  rewrite !(Z.mod_small (_ + 65536 * _) 4294967296) by lia.
  rewrite !(Z.mod_small (_ + _) 4294967296) by lia.
  rewrite land_lanes_high by lia.
  rewrite land_lanes_low by (apply Z.div_pos; lia).
  rewrite !Z.div_div by lia. change (256 * 65536) with 16777216.
  replace (x0 * a + 65536 * (x2 * a) + (y0 * b + 65536 * (y2 * b)))
    with (x0 * a + y0 * b + 65536 * (x2 * a + y2 * b)) by lia.
  replace (x1 * a + 65536 * (x3 * a) + (y1 * b + 65536 * (y3 * b)))
    with (x1 * a + y1 * b + 65536 * (x3 * a + y3 * b)) by lia.
  rewrite lanes_low_calc, lanes_high_calc by done. lia.
Qed.


Lemma channel_byte_of n p : 0 <= n -> channel n p = byte_of n p.
Proof.
  intros Hn. unfold channel, byte_of.
  change 255 with (Z.ones 8). rewrite Z.land_ones, Z.shiftr_div_pow2 by lia.
  change (2 ^ 8) with 256. rewrite Z.pow_mul_r by lia. done.
Qed.

Lemma byte_of_bytes r0 r1 r2 r3 :
  0 <= r0 < 256 -> 0 <= r1 < 256 -> 0 <= r2 < 256 -> 0 <= r3 < 256 ->
  let r := r0 + 256 * r1 + 65536 * r2 + 16777216 * r3 in
  byte_of 0 r = r0 /\ byte_of 1 r = r1 /\ byte_of 2 r = r2 /\ byte_of 3 r = r3.
Proof.
  intros H0 H1 H2 H3. unfold byte_of.
  change (256 ^ 0) with 1. change (256 ^ 1) with 256.
  change (256 ^ 2) with 65536. change (256 ^ 3) with 16777216.
  cbv zeta. repeat split; Z.div_mod_to_equations; lia.
Qed.

Lemma bytes_sum p :
  0 <= p < 2 ^ 32 ->
  byte_of 0 p + 256 * byte_of 1 p + 65536 * byte_of 2 p + 16777216 * byte_of 3 p
  = p.
Proof.
  intros Hp. unfold byte_of. change (2 ^ 32) with 4294967296 in Hp.
  change (256 ^ 0) with 1. change (256 ^ 1) with 256.
  change (256 ^ 2) with 65536. change (256 ^ 3) with 16777216.
  Z.div_mod_to_equations. lia.
Qed.

Lemma byte_of_range n p : 0 <= byte_of n p < 256.
Proof. unfold byte_of. apply Z.mod_pos_bound. lia. Qed.

Lemma weighted_byte u v a b :
  0 <= u < 256 -> 0 <= v < 256 -> 0 <= a -> 0 <= b -> a + b <= 256 ->
  0 <= (u * a + v * b) / 256 < 256.
Proof.
  intros. assert (0 <= u * a + v * b <= 65280) by nia.
  Z.div_mod_to_equations. lia.
Qed.

Lemma interpolate_pixel_channel x a y b n :
  0 <= x < 2 ^ 32 -> 0 <= y < 2 ^ 32 -> 0 <= a -> 0 <= b -> a + b <= 256 ->
  n ∈ [0; 1; 2; 3] ->
  channel n (interpolate_pixel x a y b)
  = (channel n x * a + channel n y * b) / 256
  /\ 0 <= interpolate_pixel x a y b < 2 ^ 32.
Proof.
  intros Hx Hy Ha Hb Hab Hn.
  assert (0 <= n) by (repeat (apply elem_of_cons in Hn as [->|Hn]);
                        [..|by apply elem_of_nil in Hn]; lia).
  rewrite !channel_byte_of by done.
  rewrite interpolate_pixel_bytes by done.
  pose proof (weighted_byte _ _ a b (byte_of_range 0 x) (byte_of_range 0 y) Ha Hb Hab).
  pose proof (weighted_byte _ _ a b (byte_of_range 1 x) (byte_of_range 1 y) Ha Hb Hab).
  pose proof (weighted_byte _ _ a b (byte_of_range 2 x) (byte_of_range 2 y) Ha Hb Hab).
  pose proof (weighted_byte _ _ a b (byte_of_range 3 x) (byte_of_range 3 y) Ha Hb Hab).
  split.
  - match goal with
    | |- byte_of n (?r0 + 256 * ?r1 + 65536 * ?r2 + 16777216 * ?r3) = _ =>
        destruct (byte_of_bytes r0 r1 r2 r3) as (E0 & E1 & E2 & E3); [done..|]
    end.
    cbv zeta in E0, E1, E2, E3.
    repeat (apply elem_of_cons in Hn as [->|Hn]); [..|by apply elem_of_nil in Hn];
      assumption.
  - change (2 ^ 32) with 4294967296. lia.
Qed.

(** X20.  [interpolate_pixel] on 32-bit pixels with weights that sum to at
    most 256 mixes the four bytes of a pixel independently: every byte of
    the result is [(x_n * a + y_n * b) / 256] of the corresponding bytes,
    with no carry from or into the neighbouring bytes, and the result is
    again a 32-bit value. *)
Theorem interpolate_pixel_channels x a y b :
  0 <= x < 2 ^ 32 -> 0 <= y < 2 ^ 32 -> 0 <= a -> 0 <= b -> a + b <= 256 ->
  Forall (fun n => channel n (interpolate_pixel x a y b)
                   = (channel n x * a + channel n y * b) / 256)
    [0; 1; 2; 3]
  /\ 0 <= interpolate_pixel x a y b < 2 ^ 32.
Proof.
  intros Hx Hy Ha Hb Hab. split.
  - apply Forall_forall. intros n Hn.
    by apply interpolate_pixel_channel.
  - by apply (interpolate_pixel_channel x a y b 0); [..|left].
Qed.

Lemma weighted_between u v a b lo hi :
  lo <= u <= hi -> lo <= v <= hi -> 0 <= a -> 0 <= b -> a + b = 256 ->
  lo <= (u * a + v * b) / 256 <= hi.
Proof.
  intros Hu Hv Ha Hb Hab.
  assert (lo * 256 <= u * a + v * b <= hi * 256) by nia.
  Z.div_mod_to_equations. lia.
Qed.

(** X22.  [interpolate_4_pixels] never overshoots: for distances up to 256,
    each byte of the result lies between the smallest and the largest of
    the corresponding bytes of the four pixels; in particular fully opaque
    neighbours give a fully opaque pixel and fully transparent ones a fully
    transparent pixel. *)
Theorem interpolate_4_pixels_within_range tl tr bl br distx disty n lo hi :
  0 <= tl < 2 ^ 32 -> 0 <= tr < 2 ^ 32 -> 0 <= bl < 2 ^ 32 -> 0 <= br < 2 ^ 32 ->
  0 <= distx <= 256 -> 0 <= disty <= 256 -> n ∈ [0; 1; 2; 3] ->
  Forall (fun p => lo <= channel n p <= hi) [tl; tr; bl; br] ->
  lo <= channel n (interpolate_4_pixels tl tr bl br distx disty) <= hi.
Proof.
  intros Htl Htr Hbl Hbr Hdx Hdy Hn Hall.
  apply Forall_cons in Hall as [H1 Hall]. apply Forall_cons in Hall as [H2 Hall].
  apply Forall_cons in Hall as [H3 Hall]. apply Forall_cons in Hall as [H4 _].
  unfold interpolate_4_pixels. cbv zeta. unfold uint32_sub, to_uint32.
  rewrite !(Z.mod_small (256 - _)) by (change (2 ^ 32) with 4294967296; lia).
  destruct (interpolate_pixel_channel tl (256 - distx) tr distx n) as [Et Rt];
    [done || lia..|].
  destruct (interpolate_pixel_channel bl (256 - distx) br distx n) as [Eb Rb];
    [done || lia..|].
  destruct (interpolate_pixel_channel
              (interpolate_pixel tl (256 - distx) tr distx) (256 - disty)
              (interpolate_pixel bl (256 - distx) br distx) disty n) as [E _];
    [done || lia..|].
  rewrite E, Et, Eb.
  apply weighted_between; try lia; apply weighted_between; lia.
Qed.

Lemma interpolate_pixel_same p a b :
  0 <= p < 2 ^ 32 -> 0 <= a -> 0 <= b -> a + b = 256 ->
  interpolate_pixel p a p b = p.
Proof.
  intros Hp Ha Hb Hab. rewrite interpolate_pixel_bytes by (done || lia).
  rewrite <- (bytes_sum p) at 9 by done.
  assert (E : forall u, (u * a + u * b) / 256 = u).
  { intros u. replace (u * a + u * b) with (u * 256) by nia.
    apply Z.div_mul. lia. }
  by rewrite !E.
Qed.

Lemma interpolate_pixel_left x y :
  0 <= x < 2 ^ 32 -> 0 <= y < 2 ^ 32 -> interpolate_pixel x 256 y 0 = x.
Proof.
  intros Hx Hy. rewrite interpolate_pixel_bytes by (done || lia).
  rewrite <- (bytes_sum x) at 5 by done.
  assert (E : forall u v, (u * 256 + v * 0) / 256 = u).
  { intros u v. rewrite Z.mul_0_r, Z.add_0_r. apply Z.div_mul. lia. }
  by rewrite !E.
Qed.

(** X21.  [interpolate_4_pixels] is exact where it has to be: at distances
    [(0, 0)] it returns the top-left pixel unchanged, and over four equal
    pixels it returns that pixel for every pair of distances up to 256, so a
    flat area of the source stays flat. *)
Theorem interpolate_4_pixels_exact tl tr bl br p distx disty :
  0 <= tl < 2 ^ 32 -> 0 <= tr < 2 ^ 32 -> 0 <= bl < 2 ^ 32 -> 0 <= br < 2 ^ 32 ->
  0 <= p < 2 ^ 32 -> 0 <= distx <= 256 -> 0 <= disty <= 256 ->
  interpolate_4_pixels tl tr bl br 0 0 = tl
  /\ interpolate_4_pixels p p p p distx disty = p.
Proof.
  intros Htl Htr Hbl Hbr Hp Hdx Hdy. unfold interpolate_4_pixels. cbv zeta.
  unfold uint32_sub, to_uint32. split.
  - change ((256 - 0) mod 2 ^ 32) with 256.
    by rewrite !interpolate_pixel_left by (rewrite ?interpolate_pixel_left; done).
  - rewrite !(Z.mod_small (256 - _)) by (change (2 ^ 32) with 4294967296; lia).
    by rewrite !interpolate_pixel_same by (rewrite ?interpolate_pixel_same; done || lia).
Qed.

(** X19.  [fetch_transformed_bilinear_pixel_bounds] with limits [l1 <= l2]
    yields two indices inside [[l1, l2]], the second equal to the first or
    one above it; a coordinate inside [[l1, l2)] is kept, with its right
    neighbour. *)
Theorem pixel_bounds_within_limits l1 l2 v1 :
  l1 <= l2 -> is_int l1 -> is_int l2 -> is_int v1 ->
  let '(o1, o2) := fetch_transformed_bilinear_pixel_bounds l1 l2 v1 in
  l1 <= o1 <= l2 /\ l1 <= o2 <= l2 /\ (o2 = o1 \/ o2 = o1 + 1)
  /\ (l1 <= v1 < l2 -> o1 = v1 /\ o2 = v1 + 1).
Proof.
  intros Hl H1 H2 Hv. unfold fetch_transformed_bilinear_pixel_bounds.
  destruct (Z.ltb_spec v1 l1); [lia|].
  destruct (Z.leb_spec l2 v1); [lia|].
  unfold int_add. rewrite to_int_id by int_range. lia.
Qed.

End ImageTransformProps.


(** ** Span rendering *)

Section RenderSpansProps.
Import CInt ImageTransform.
Variables (BUF dw : Z).
Hypothesis HBUF : 0 < BUF <= INT_MAX.
Hypothesis Hdw : 0 <= dw <= INT16_MAX.

Lemma spans_left_0 spans : spans_left dw 0 spans = spans ≫= span_pixels dw.
Proof.
  destruct spans as [|s rest]; [done|]. cbn. unfold span_pixels at 1.
  by rewrite Z.sub_0_r.
Qed.

Lemma coverage_scaled c :
  0 <= c <= 255 -> Z.shiftr (int_mul c 256) 8 = c.
Proof.
  intros Hc. unfold int_mul. rewrite to_int_id by int_range.
  rewrite Z.shiftr_div_pow2 by lia. change (2 ^ 8) with 256.
  by rewrite Z.div_mul by lia.
Qed.

Lemma adjacent_nonneg y x L spans :
  Forall span_ok spans -> adjacent y x L spans -> 0 <= L.
Proof.
  intros Hok Ha. induction Ha as [|x L s rest Hy Hx Hl Ha IH]; [lia|].
  apply Forall_cons in Hok as [(_ & Hlen & _) Hok]. specialize (IH Hok). lia.
Qed.

Lemma process_within_mono lo lo' hi c :
  lo <= lo' -> process_within lo' hi c -> process_within lo hi c.
Proof. destruct c; cbn; [done|lia]. Qed.

Lemma span_pieces_done fuel spans coverage x offset dst :
  span_pieces fuel spans coverage x 0 offset dst = Some ([], (spans, coverage, x)).
Proof. by destruct fuel. Qed.

Lemma span_pieces_step fuel s rest coverage x l offset dst :
  0 < l ->
  span_pieces (S fuel) (s :: rest) coverage x l offset dst
  = (let coverage :=
       if x =? span_x s
       then Z.shiftr (int_mul (span_coverage s) 256) 8 else coverage in
     let pr := int_add (span_x s) (span_len s) in
     let pl := DP_min_int l (int_sub pr x) in
     let call := Process pl coverage offset (dst + offset) in
     let l := int_sub l pl in
     let x := int_add x pl in
     let offset := int_add offset pl in
     '(calls, st) ← span_pieces fuel (if x =? pr then rest else s :: rest)
                      coverage x l offset dst;
     Some (call :: calls, st)).
Proof.
  intros Hl. cbn [span_pieces].
  destruct (Z.leb_spec l 0); [lia|]. reflexivity.
Qed.

Lemma seqZ_split k0 n m :
  0 <= n -> 0 <= m -> seqZ k0 (n + m) = seqZ k0 n ++ seqZ (k0 + n) m.
Proof. intros. by apply seqZ_app. Qed.

Lemma adjacent_inv y x L spans :
  adjacent y x L spans -> L <> 0 ->
  exists s rest,
    spans = s :: rest /\ span_y s = y /\ span_x s = x /\ span_len s <= L
    /\ adjacent y (x + span_len s) (L - span_len s) rest.
Proof.
  intros [|x' L' s rest Hy Hx Hl Ha] HL; [done|].
  by exists s, rest.
Qed.

Lemma span_pieces_spec y x0 (fuel : nat) :
  forall spans coverage x l offset L k0,
  Forall span_ok spans ->
  in_run y L spans x coverage k0 ->
  0 <= l <= L -> 0 <= offset -> offset + l <= INT_MAX -> x = x0 + offset ->
  (Z.to_nat l + length spans < fuel)%nat ->
  exists calls spans' coverage' k0',
    span_pieces fuel spans coverage x l offset (y * dw + x0)
    = Some (calls, (spans', coverage', x + l))
    /\ in_run y (L - l) spans' (x + l) coverage' k0'
    /\ call_pixels (x0, y) calls ++ spans_left dw k0' spans' = spans_left dw k0 spans
    /\ Forall span_ok spans'
    /\ (length spans' <= length spans)%nat
    /\ (0 < l -> k0' = 0 -> (length spans' < length spans)%nat)
    /\ Forall (process_within offset (offset + l)) calls
    /\ sum_len spans' <= sum_len spans.
Proof.
  induction fuel as [|fuel IH]; intros spans coverage x l offset L k0
    Hok Hrun Hl Hoff Hmax Hx Hfuel; [lia|].
  destruct (decide (l = 0)) as [->|Hl0].
  { exists [], spans, coverage, k0. rewrite span_pieces_done, !Z.add_0_r, Z.sub_0_r.
    repeat split; try done; lia. }
  assert (Hmax' : offset + l <= 2147483647) by (unfold INT_MAX in Hmax; lia).
  assert (Hstep :
    exists s rest k,
      spans = s :: rest /\ 0 <= k < Z.max 1 (span_len s) /\ k0 = k
      /\ x = span_x s + k /\ span_y s = y
      /\ (k = 0 \/ coverage = span_coverage s)
      /\ span_len s - k <= L
      /\ adjacent y (span_x s + span_len s) (L - (span_len s - k)) rest).
  { destruct Hrun as [[-> Ha]|(s & rest & -> & Hk & -> & Hy & Hc & HL & Ha)].
    - destruct (adjacent_inv _ _ _ _ Ha) as (s & rest & -> & Hy & Hsx & Hlen & Ha');
        [lia|].
      apply Forall_cons in Hok as [(_ & Hslen & _) _].
      exists s, rest, 0. rewrite Z.add_0_r, Z.sub_0_r, Hsx.
      repeat split; first [done | lia | by left].
    - exists s, rest, k0. repeat split; first [done | lia | by right]. }
  destruct Hstep as (s & rest & k & -> & Hk & -> & -> & Hy & Hcov & HL & Ha).
  apply Forall_cons in Hok as [Hs Hok]. pose proof Hs as (Hsx & Hslen & Hsy & Hsc).
  rewrite span_pieces_step by lia. cbv zeta.
  set (cov1 := if span_x s + k =? span_x s
               then Z.shiftr (int_mul (span_coverage s) 256) 8 else coverage).
  assert (Hcov1 : cov1 = span_coverage s).
  { unfold cov1. destruct (Z.eqb_spec (span_x s + k) (span_x s)).
    - by apply coverage_scaled.
    - destruct Hcov; [lia|done]. }
  rewrite Hcov1. clear cov1 Hcov1.
  unfold int_add, int_sub.
  rewrite !(to_int_id (span_x s + span_len s)) by int_range.
  rewrite !(to_int_id (span_x s + span_len s - (span_x s + k))) by int_range.
  rewrite !DP_min_int_spec.
  replace (span_x s + span_len s - (span_x s + k)) with (span_len s - k) by lia.
  destruct (Z.le_gt_cases (span_len s - k) l) as [Hle|Hgt].
  - (* the span ends inside the chunk *)
    rewrite !Z.min_r by lia. rewrite !to_int_id by int_range.
    replace (span_x s + k + (span_len s - k)) with (span_x s + span_len s) by lia.
    rewrite Z.eqb_refl.
    destruct (IH rest (span_coverage s) (span_x s + span_len s)
                (l - (span_len s - k)) (offset + (span_len s - k))
                (L - (span_len s - k)) 0)
      as (calls & spans' & cov' & k0' & Hrun' & Hin' & Hpx & Hok' & Hlen' & Hstrict & Hfit & Hsum);
      [done|by left|lia|lia|lia|lia|cbn [length] in Hfuel; lia|].
    rewrite Hrun'. cbn.
    exists (Process (span_len s - k) (span_coverage s) offset (y * dw + x0 + offset) :: calls),
      spans', cov', k0'.
    replace (span_x s + span_len s + (l - (span_len s - k)))
      with (span_x s + k + l) in * by lia.
    replace (L - (span_len s - k) - (l - (span_len s - k))) with (L - l) in Hin' by lia.
    repeat split; try done.
    + cbn [call_pixels fst snd]. rewrite <- app_assoc, Hpx, spans_left_0.
      cbn [spans_left]. f_equal.
      replace (seqZ k (span_len s - k)) with (Z.add k <$> seqZ 0 (span_len s - k))
        by (rewrite fmap_add_seqZ; f_equal; lia).
      rewrite <- list_fmap_compose. apply list_fmap_ext. intros _ j _. cbn.
      rewrite Hy. f_equal. f_equal; [lia|]. f_equal. lia.
    + cbn [length]. lia.
    + intros _ _. cbn [length]. lia.
    + constructor; [cbn; lia|].
      eapply Forall_impl; [exact Hfit|]. intros c Hc.
      eapply process_within_mono; [|replace (offset + l) with (offset + (span_len s - k) + (l - (span_len s - k))) by lia; exact Hc]. lia.
    + cbn [sum_len]. lia.
  - (* the chunk ends inside the span *)
    rewrite !Z.min_l by lia. rewrite !to_int_id by int_range.
    rewrite Z.sub_diag.
    destruct (Z.eqb_spec (span_x s + k + l) (span_x s + span_len s)); [lia|].
    rewrite span_pieces_done. cbn.
    exists [Process l (span_coverage s) offset (y * dw + x0 + offset)],
      (s :: rest), (span_coverage s), (k + l).
    repeat split; try done.
    + right. exists s, rest. repeat split; try done; try lia.
      replace (L - l - (span_len s - (k + l))) with (L - (span_len s - k)) by lia.
      done.
    + cbn [call_pixels fst snd spans_left]. rewrite app_nil_r, app_assoc. f_equal.
      replace (span_len s - k) with (l + (span_len s - (k + l))) by lia.
      rewrite seqZ_split, fmap_app by lia. f_equal.
      replace (seqZ k l) with (Z.add k <$> seqZ 0 l)
        by (rewrite fmap_add_seqZ; f_equal; lia).
      rewrite <- list_fmap_compose. apply list_fmap_ext. intros _ j _. cbn.
      rewrite Hy. f_equal. f_equal; [lia|]. f_equal. lia.
    + by constructor.
    + intros _ ?. lia.
    + constructor; [cbn; lia|constructor].
Qed.

Lemma in_run_end y spans x coverage k0 :
  in_run y 0 spans x coverage k0 -> k0 = 0.
Proof. intros [[-> _]|(s & rest & _ & ? & _ & _ & _ & ? & _)]; [done|lia]. Qed.

Lemma call_pixels_app b :
  (forall f f', call_pixels f b = call_pixels f' b) ->
  forall a f, call_pixels f (a ++ b) = call_pixels f a ++ call_pixels f b.
Proof.
  intros Hb a. induction a as [|[x y n|len c src dst] a IH]; intros f; cbn.
  - done.
  - rewrite IH. f_equal. apply Hb.
  - by rewrite IH, app_assoc.
Qed.

Lemma calls_fit_app b :
  (forall avail, calls_fit BUF avail b) ->
  forall a avail, calls_fit BUF avail a -> calls_fit BUF avail (a ++ b).
Proof.
  intros Hb a. induction a as [|[x y n|len c src dst] a IH]; intros avail; cbn.
  - done.
  - intros [? ?]. split; [done|]. by apply IH.
  - intros (? & ? & ? & ?). repeat split; try done. by apply IH.
Qed.

Lemma process_within_fit hi calls :
  Forall (process_within 0 hi) calls -> calls_fit BUF hi calls.
Proof.
  induction 1 as [|[x y n|len c src dst] calls Hc _ IH]; cbn in *; [done..|].
  repeat split; try done; lia.
Qed.

Lemma span_chunks_spec y (fuel : nat) :
  forall spans coverage x L k0,
  - 32768 <= y <= 32767 ->
  Forall span_ok spans ->
  in_run y L spans x coverage k0 ->
  0 <= L <= INT_MAX ->
  (Z.to_nat L + length spans + 1 < fuel)%nat ->
  exists calls spans' coverage',
    span_chunks BUF dw fuel spans coverage x y L
    = Some (calls, (spans', coverage', x + L))
    /\ (forall f,
          call_pixels f calls ++ (spans' ≫= span_pixels dw)
          = spans_left dw k0 spans)
    /\ Forall span_ok spans'
    /\ (length spans' <= length spans)%nat
    /\ (0 < L -> (length spans' < length spans)%nat)
    /\ (forall avail, calls_fit BUF avail calls)
    /\ sum_len spans' <= sum_len spans.
Proof.
  induction fuel as [|fuel IH]; intros spans coverage x L k0 Hy Hok Hrun HL Hfuel;
    [lia|].
  destruct (decide (L = 0)) as [->|HL0].
  { exists [], spans, coverage. cbn [span_chunks Z.eqb]. rewrite Z.add_0_r.
    apply in_run_end in Hrun as ->. rewrite spans_left_0.
    repeat split; try done; lia. }
  cbn [span_chunks]. destruct (Z.eqb_spec L 0) as [|_]; [done|]. cbv zeta.
  rewrite DP_min_int_spec. unfold int_sub, int_mul.
  assert (Hyw : - 2147483648 <= y * dw <= 2147483647).
  { assert (- 32768 * dw <= y * dw <= 32767 * dw)
      by (split; apply Z.mul_le_mono_nonneg_r; int_range; lia).
    int_range; lia. }
  assert (HL' : L <= 2147483647) by (int_range; lia).
  rewrite (to_int_id (y * dw)) by int_range.
  rewrite (to_int_id (L - Z.min L BUF)) by int_range.
  set (l := Z.min L BUF).
  assert (Hl : 0 < l <= L /\ l <= BUF) by (unfold l; lia).
  destruct (span_pieces_spec y x fuel spans coverage x l 0 L k0)
    as (calls & spans1 & cov1 & k1 & Hrun1 & Hin1 & Hpx1 & Hok1 & Hlen1
        & Hstrict1 & Hfit1 & Hsum1);
    [done|done|lia|lia|int_range; lia|lia|lia|].
  rewrite Hrun1. cbn.
  destruct (IH spans1 cov1 (x + l) (L - l) k1)
    as (calls' & spans' & cov' & Hrun' & Hpx' & Hok' & Hlen' & Hstrict' & Hfit'
        & Hsum');
    [done|done|done|lia|lia|].
  rewrite Hrun'. cbn.
  exists (Fetch x y l :: calls ++ calls'), spans', cov'.
  replace (x + l + (L - l)) with (x + L) by lia.
  repeat split; try done; try lia.
  - intros f. cbn [call_pixels]. rewrite call_pixels_app.
    + by rewrite <- app_assoc, Hpx', Hpx1.
    + intros f1 f2. eapply app_inv_tail. by rewrite !Hpx'.
  - intros _. destruct (decide (L - l = 0)) as [Hend|Hmore].
    + rewrite Hend in Hin1. apply in_run_end in Hin1. lia.
    + lia.
  - apply calls_fit_app; [done|]. by apply process_within_fit.
Qed.

Lemma adjacent_right_spec y rest :
  forall right,
  Forall span_ok rest -> - 32768 <= right <= 98302 ->
  right <= adjacent_right y right rest <= 98302
  /\ adjacent y right (adjacent_right y right rest - right) rest.
Proof.
  induction rest as [|s rest IH]; intros right Hok Hr; cbn [adjacent_right].
  - rewrite Z.sub_diag. split; [lia|constructor].
  - apply Forall_cons in Hok as [(Hsx & Hslen & _) Hok].
    destruct (Z.eqb_spec (span_y s) y) as [Hy|]; cbn [andb];
      [destruct (Z.eqb_spec (span_x s) right) as [Hx|]|];
      try (rewrite Z.sub_diag; split; [lia|constructor]).
    unfold int_add. rewrite to_int_id by int_range.
    destruct (IH (right + span_len s)) as [Hb Ha]; [done|lia|].
    split; [lia|]. constructor; [done|done|lia|].
    by replace (adjacent_right y (right + span_len s) rest - right - span_len s)
      with (adjacent_right y (right + span_len s) rest - (right + span_len s))
      by lia.
Qed.

Lemma sum_len_nonneg spans : Forall span_ok spans -> 0 <= sum_len spans.
Proof.
  induction 1 as [|s rest (_ & ? & _) _ IH]; cbn [sum_len]; lia.
Qed.

Lemma adjacent_le_sum y x L spans :
  Forall span_ok spans -> adjacent y x L spans -> L <= sum_len spans.
Proof.
  intros Hok Ha. induction Ha as [|x L s rest Hy Hx Hl Ha IH].
  - by apply sum_len_nonneg.
  - apply Forall_cons in Hok as [_ Hok]. specialize (IH Hok).
    cbn [sum_len]. lia.
Qed.

Lemma render_spans_from_spec (fuel : nat) :
  forall spans coverage,
  Forall span_ok spans ->
  (Z.to_nat (sum_len spans) + 2 * length spans + 2 <= fuel)%nat ->
  exists calls,
    render_spans_from BUF dw fuel spans coverage = Some calls
    /\ (forall f, call_pixels f calls = spans ≫= span_pixels dw)
    /\ (forall avail, calls_fit BUF avail calls).
Proof.
  induction fuel as [|fuel IH]; intros spans coverage Hok Hfuel; [lia|].
  destruct spans as [|s rest]; [by exists []|].
  pose proof Hok as Hok0.
  apply Forall_cons in Hok as [Hs Hok]. pose proof Hs as (Hsx & Hslen & Hsy & Hsc).
  pose proof (sum_len_nonneg rest Hok) as Hsum.
  cbn [render_spans_from]. cbn [sum_len length] in Hfuel.
  destruct (Z.eqb_spec (span_len s) 0) as [H0|H0].
  - destruct (IH rest coverage) as (calls & Hrun & Hpx & Hfit); [done|lia|].
    exists calls. split; [done|]. split; [|done].
    intros f. rewrite Hpx. cbn. unfold span_pixels at 2. by rewrite H0.
  - cbv zeta. unfold int_add, int_sub.
    rewrite (to_int_id (span_x s + span_len s)) by int_range.
    destruct (adjacent_right_spec (span_y s) rest (span_x s + span_len s))
      as [Hb Ha]; [done|lia|].
    set (right := adjacent_right (span_y s) (span_x s + span_len s) rest) in *.
    rewrite (to_int_id (right - span_x s)) by int_range.
    assert (Hadj : adjacent (span_y s) (span_x s) (right - span_x s) (s :: rest)).
    { constructor; [done|done|lia|].
      by replace (right - span_x s - span_len s)
        with (right - (span_x s + span_len s)) by lia. }
    pose proof (adjacent_le_sum _ _ _ _ Hok0 Hadj) as HLsum.
    cbn [sum_len] in HLsum.
    destruct (span_chunks_spec (span_y s) fuel (s :: rest) coverage (span_x s)
                (right - span_x s) 0)
      as (calls & spans' & cov' & Hrun & Hpx & Hok' & Hlen' & Hstrict & Hfit
          & Hsum');
      [done|done|by left|int_range; lia|cbn [length]; lia|].
    rewrite Hrun. cbn.
    cbn [length sum_len] in *.
    destruct (IH spans' cov') as (calls' & Hrun' & Hpx' & Hfit');
      [done|pose proof (sum_len_nonneg _ Hok'); lia|].
    rewrite Hrun'. cbn.
    exists (calls ++ calls'). split; [done|]. split.
    + intros f. rewrite call_pixels_app by (intros; by rewrite !Hpx').
      rewrite Hpx', Hpx. by rewrite spans_left_0.
    + intros avail. by apply calls_fit_app.
Qed.

(** X23. Given spans whose fields are in the ranges of their types,
    [render_spans] comes to an end, and the pixels its [process_span] calls
    composite are those of the spans, in the order of the spans: each one
    once, at [y * dst_width + x] of the destination, from the sample fetched
    for its own position, with the coverage of its span.  Every fetch asks
    for between one pixel and a full buffer, and every [process_span] stays
    inside the pixels fetched last. *)
Theorem render_spans_composites_each_pixel_once spans (fuel : nat) :
  Forall span_ok spans ->
  (Z.to_nat (sum_len spans) + 2 * length spans + 2 <= fuel)%nat ->
  exists calls,
    render_spans BUF dw fuel spans = Some calls
    /\ call_pixels (0, 0) calls = spans ≫= span_pixels dw
    /\ calls_fit BUF 0 calls.
Proof.
  intros Hok Hfuel.
  destruct (render_spans_from_spec fuel spans 0 Hok Hfuel)
    as (calls & Hrun & Hpx & Hfit).
  by exists calls.
Qed.

End RenderSpansProps.


(** ** Reasoning about heap computations *)

Lemma bind_eq {A B} (m : M A) (f : A -> M B) h a h' :
  m h = Some (a, h') -> (m ≫= f) h = f a h'.
Proof. intros E. unfold mbind, M_bind. rewrite E. reflexivity. Qed.

Lemma valid_snapshot_inv h cs :
  valid_snapshot h cs = true ->
  exists s l ll, states h !! cs = Some s /\ 0 < refcount s /\ transient s = false
    /\ layers s = Some l /\ lists h !! l = Some ll /\ 0 < ll_refcount ll
    /\ ll_transient ll = false
    /\ (forall t, background_tile s = Some t ->
          exists tile, tiles h !! t = Some tile /\ 0 < tile_refcount tile).
Proof.
  unfold valid_snapshot. intros H.
  destruct (states h !! cs) as [s|] eqn:Es; [|discriminate].
  destruct (layers s) as [l|] eqn:El; [|rewrite andb_false_r in H; discriminate].
  destruct (lists h !! l) as [ll|] eqn:Ell; [|rewrite andb_false_r in H; discriminate].
  apply andb_prop in H as [H Ht]. apply andb_prop in H as [H Hl].
  apply andb_prop in H as [Hr Hn]. apply andb_prop in Hl as [Hlr Hln].
  exists s, l, ll. repeat split; try done.
  - lia.
  - by destruct (transient s).
  - lia.
  - by destruct (ll_transient ll).
  - intros t Hb. rewrite Hb in Ht. destruct (tiles h !! t) as [tile|]; [|discriminate].
    exists tile. split; [done|lia].
Qed.


Lemma load_state_eq h p s : states h !! p = Some s -> load_state p h = Some (s, h).
Proof. intros E. unfold load_state. rewrite E. reflexivity. Qed.
Lemma load_list_eq h p s : lists h !! p = Some s -> load_list p h = Some (s, h).
Proof. intros E. unfold load_list. rewrite E. reflexivity. Qed.
Lemma load_tile_eq h p s : tiles h !! p = Some s -> load_tile p h = Some (s, h).
Proof. intros E. unfold load_tile. rewrite E. reflexivity. Qed.
Lemma DP_ASSERT_true b h : b = true -> DP_ASSERT b h = Some (tt, h).
Proof. intros ->. reflexivity. Qed.
Lemma deref_Some {A} (a : A) o h : o = Some a -> deref o h = Some (a, h).
Proof. intros ->. reflexivity. Qed.
Lemma next_state_fresh h : states h !! fresh (dom (states h)) = None.
Proof. apply not_elem_of_dom, is_fresh. Qed.
Lemma next_list_fresh h : lists h !! fresh (dom (lists h)) = None.
Proof. apply not_elem_of_dom, is_fresh. Qed.
Lemma next_tile_fresh h : tiles h !! fresh (dom (tiles h)) = None.
Proof. apply not_elem_of_dom, is_fresh. Qed.

Ltac solve_lookup :=
  cbn [states lists tiles];
  repeat first
    [ rewrite lookup_insert_eq
    | rewrite lookup_insert_ne by congruence
    | rewrite lookup_delete_ne by congruence ];
  first [ eassumption | reflexivity ].

Ltac solve_bool :=
  cbn [refcount transient width height background_tile layers
       ll_refcount ll_transient ll_layers negb];
  first [ reflexivity | eassumption
        | apply Z.ltb_lt; lia | apply Z.leb_le; lia
        | match goal with H : ?b = false |- negb ?b = true => rewrite H; reflexivity end
        | match goal with H : ?b = true |- ?b = true => exact H end ].

Ltac prim :=
  first
    [ apply load_state_eq; solve_lookup
    | apply load_list_eq; solve_lookup
    | apply load_tile_eq; solve_lookup
    | apply DP_ASSERT_true; solve_bool
    | apply deref_Some; cbn; first [eassumption | reflexivity]
    | reflexivity ].

Ltac mstep :=
  lazymatch goal with
  | |- (?m ≫= ?f) ?h = _ =>
      erewrite (bind_eq m f h) by prim; cbn beta; cbn [states lists tiles]
  end.
Ltac mstep_by tac :=
  lazymatch goal with
  | |- (?m ≫= ?f) ?h = _ =>
      erewrite (bind_eq m f h) by tac; cbn beta; cbn [states lists tiles]
  end.

Lemma incref_nullable_spec h t :
  (forall p, t = Some p -> is_Some (tiles h !! p)) ->
  DP_tile_incref_nullable t h =
    Some (t, mkHeap (states h) (lists h) (incref_tile t (tiles h))).
Proof.
  intros Hv. destruct t as [p|]; cbn.
  - destruct (Hv p eq_refl) as [tile Ht].
    unfold incref_tile. rewrite Ht.
    mstep. mstep. reflexivity.
  - destruct h; reflexivity.
Qed.


Lemma layer_list_incref_spec h l ll :
  lists h !! l = Some ll ->
  DP_layer_list_incref l h =
    Some (l, mkHeap (states h)
               (<[l := mkLayerList (ll_refcount ll + 1) (ll_transient ll) (ll_layers ll)]> (lists h))
               (tiles h)).
Proof. intros Hl. unfold DP_layer_list_incref. mstep. mstep. reflexivity. Qed.

Lemma layer_list_decref_keep h l ll :
  lists h !! l = Some ll -> ll_refcount ll - 1 ≠ 0 ->
  DP_layer_list_decref l h =
    Some (tt, mkHeap (states h)
               (<[l := mkLayerList (ll_refcount ll - 1) (ll_transient ll) (ll_layers ll)]> (lists h))
               (tiles h)).
Proof.
  intros Hl Hr. unfold DP_layer_list_decref. mstep.
  destruct (Z.eqb_spec (ll_refcount ll - 1) 0); [done|]. reflexivity.
Qed.

Lemma layer_list_decref_free h l ll :
  lists h !! l = Some ll -> ll_refcount ll = 1 ->
  DP_layer_list_decref l h =
    Some (tt, mkHeap (states h) (delete l (lists h)) (tiles h)).
Proof.
  intros Hl Hr. unfold DP_layer_list_decref. mstep. rewrite Hr. reflexivity.
Qed.

Lemma layer_list_transient_spec h l ll :
  lists h !! l = Some ll ->
  DP_layer_list_transient l h = Some (ll_transient ll, h).
Proof. intros Hl. unfold DP_layer_list_transient. mstep. reflexivity. Qed.

Lemma tile_decref_incref h t T :
  tiles h = incref_tile t T ->
  (forall p, t = Some p -> exists tile, T !! p = Some tile /\ 0 < tile_refcount tile) ->
  DP_tile_decref_nullable t h = Some (tt, mkHeap (states h) (lists h) T).
Proof.
  intros Ht Hv. destruct t as [p|]; cbn.
  - destruct (Hv p eq_refl) as (tile & Hp & Hr).
    unfold incref_tile in Ht. rewrite Hp in Ht.
    unfold DP_tile_decref.
    mstep_by ltac:(apply load_tile_eq; rewrite Ht; apply lookup_insert_eq).
    cbn [tile_refcount tile_context_id tile_pixels].
    destruct (Z.eqb_spec (tile_refcount tile + 1 - 1) 0); [lia|].
    unfold store_tile. rewrite Ht. do 3 f_equal.
    rewrite insert_insert_eq. apply insert_id. rewrite Hp. f_equal.
    destruct tile; cbn; f_equal; lia.
  - cbn in Ht. subst T. destruct h; reflexivity.
Qed.

Lemma new_spec h cs s l ll :
  valid_snapshot h cs = true ->
  states h !! cs = Some s -> layers s = Some l -> lists h !! l = Some ll ->
  DP_transient_canvas_state_new cs h =
    Some (fresh (dom (states h)),
          mkHeap (<[fresh (dom (states h)) :=
                      mkCanvasState 1 true (width s) (height s) (background_tile s) (Some l)]> (states h))
                 (<[l := mkLayerList (ll_refcount ll + 1) (ll_transient ll) (ll_layers ll)]> (lists h))
                 (incref_tile (background_tile s) (tiles h))).
Proof.
  intros V Hs Hl Hll.
  destruct (valid_snapshot_inv _ _ V) as (s' & l' & ll' & Hs' & Hr & Ht & Hl' & Hll' & Hlr & Hlt & Hbg).
  simplify_eq.
  pose proof (next_state_fresh h) as Hf. set (tcs := fresh (dom (states h))) in *.
  unfold DP_transient_canvas_state_new.
  mstep. mstep. mstep.
  unfold allocate_canvas_state. mstep. fold tcs.
  mstep_by ltac:(apply incref_nullable_spec; cbn; intros p Hp; destruct (Hbg p Hp) as [? [? ?]]; eauto).
  mstep.
  mstep_by ltac:(apply layer_list_incref_spec; cbn; eassumption).
  mstep. mstep. cbn. rewrite insert_insert_eq. reflexivity.
Qed.

Lemma get_transient_layer_list_spec h tcs t l ll n :
  states h !! tcs = Some t -> 0 < refcount t -> transient t = true ->
  layers t = Some l -> lists h !! l = Some ll -> ll_transient ll = false ->
  ll_refcount ll - 1 ≠ 0 -> 0 <= n ->
  get_transient_layer_list tcs n h =
    Some (fresh (dom (lists h)),
          mkHeap (<[tcs := set_layers (Some (fresh (dom (lists h)))) t]> (states h))
                 (<[l := mkLayerList (ll_refcount ll - 1) (ll_transient ll) (ll_layers ll)]>
                    (<[fresh (dom (lists h)) := mkLayerList 1 true (ll_layers ll)]> (lists h)))
                 (tiles h)).
Proof.
  intros Ht Hr Htr Hl Hll Hlt Hrc Hn.
  destruct ll as [rc tr ls]; cbn in Hlt, Hrc |- *; subst tr.
  pose proof (next_list_fresh h) as Hf. set (q := fresh (dom (lists h))) in *.
  assert (q ≠ l) by congruence.
  unfold get_transient_layer_list.
  mstep. mstep. mstep. mstep. mstep.
  mstep_by ltac:(apply layer_list_transient_spec; eassumption).
  cbn [negb ll_transient].
  unfold DP_transient_layer_list_new. 
  erewrite (bind_eq (load_list l ≫= _)); cycle 1.
  { mstep. reflexivity. }
  cbn beta. fold q. cbn [states lists tiles]. mstep.
  mstep_by ltac:(eapply layer_list_decref_keep; [solve_lookup|done]).
  reflexivity.
Qed.

Lemma apply_spec h q x (f : list DP_Layer -> option (list DP_Layer)) :
  lists h !! q = Some x ->
  transient_layer_list_apply f q h =
    match f (ll_layers x) with
    | Some ls => Some (true, mkHeap (states h)
                               (<[q := mkLayerList (ll_refcount x) (ll_transient x) ls]> (lists h))
                               (tiles h))
    | None => Some (false, h)
    end.
Proof.
  intros Hq. unfold transient_layer_list_apply. mstep.
  destruct (f (ll_layers x)); [|reflexivity]. mstep. reflexivity.
Qed.

Lemma apply_ok h q x (f : list DP_Layer -> option (list DP_Layer)) ls :
  lists h !! q = Some x -> f (ll_layers x) = Some ls ->
  transient_layer_list_apply f q h =
    Some (true, mkHeap (states h)
                  (<[q := mkLayerList (ll_refcount x) (ll_transient x) ls]> (lists h))
                  (tiles h)).
Proof. intros Hq Hf. rewrite (apply_spec _ _ _ _ Hq), Hf. reflexivity. Qed.

Lemma apply_fail h q x (f : list DP_Layer -> option (list DP_Layer)) :
  lists h !! q = Some x -> f (ll_layers x) = None ->
  transient_layer_list_apply f q h = Some (false, h).
Proof. intros Hq Hf. rewrite (apply_spec _ _ _ _ Hq), Hf. reflexivity. Qed.

Lemma persist_spec_transient h tcs t q x :
  states h !! tcs = Some t -> 0 < refcount t -> transient t = true ->
  layers t = Some q -> lists h !! q = Some x -> ll_transient x = true ->
  DP_transient_canvas_state_persist tcs h =
    Some (tcs, mkHeap (<[tcs := set_transient false t]> (states h))
                 (<[q := mkLayerList (ll_refcount x) false (ll_layers x)]> (lists h))
                 (tiles h)).
Proof.
  intros Ht Hr Htr Hl Hq Hx. unfold DP_transient_canvas_state_persist.
  mstep. mstep. mstep. mstep.
  mstep_by ltac:(apply layer_list_transient_spec; eassumption).
  rewrite Hx. unfold DP_transient_layer_list_persist.
  erewrite (bind_eq (load_list q ≫= _)); cycle 1.
  { mstep. reflexivity. }
  cbn beta. mstep. reflexivity.
Qed.

Lemma persist_spec_shared h tcs t q x :
  states h !! tcs = Some t -> 0 < refcount t -> transient t = true ->
  layers t = Some q -> lists h !! q = Some x -> ll_transient x = false ->
  DP_transient_canvas_state_persist tcs h =
    Some (tcs, mkHeap (<[tcs := set_transient false t]> (states h))
                 (lists h) (tiles h)).
Proof.
  intros Ht Hr Htr Hl Hq Hx. unfold DP_transient_canvas_state_persist.
  mstep. mstep. mstep. mstep.
  mstep_by ltac:(apply layer_list_transient_spec; eassumption).
  rewrite Hx. mstep. mstep. reflexivity.
Qed.

(** Dropping the only reference to a transient state whose list is its own. *)
Lemma discard_spec_own h tcs t q x T :
  states h !! tcs = Some t -> refcount t = 1 ->
  layers t = Some q -> lists h !! q = Some x -> ll_refcount x = 1 ->
  tiles h = incref_tile (background_tile t) T ->
  (forall p, background_tile t = Some p ->
     exists tile, T !! p = Some tile /\ 0 < tile_refcount tile) ->
  DP_transient_canvas_state_decref tcs h =
    Some (tt, mkHeap (delete tcs (states h)) (delete q (lists h)) T).
Proof.
  intros Ht Hr Hl Hq Hx HT Hv.
  unfold DP_transient_canvas_state_decref, DP_canvas_state_decref.
  mstep. mstep_by ltac:(apply DP_ASSERT_true; apply Z.ltb_lt; lia).
  rewrite Hr. change (1 - 1 =? 0) with true. cbn iota.
  mstep_by ltac:(eapply tile_decref_incref; eassumption).
  mstep.
  mstep_by ltac:(eapply layer_list_decref_free; [solve_lookup|done]).
  reflexivity.
Qed.

Ltac map_cases :=
  apply map_eq; intros ?k;
  repeat (rewrite ?lookup_insert, ?lookup_delete;
          repeat case_decide; simplify_eq; try done).

Section Pattern.
Context `{!BlendModes, !Codec, !Geometry, !LayerListOps}.

Lemma heap_eta h : mkHeap (states h) (lists h) (tiles h) = h.
Proof. by destruct h. Qed.

Lemma with_transient_layers_spec h cs s l ll (f : list DP_Layer -> option (list DP_Layer)) n :
  valid_snapshot h cs = true ->
  states h !! cs = Some s -> layers s = Some l -> lists h !! l = Some ll ->
  0 <= n ->
  (tcs ← DP_transient_canvas_state_new cs;
   tll ← get_transient_layer_list tcs n;
   ok ← transient_layer_list_apply f tll;
   persist_or_discard tcs ok) h =
  match f (ll_layers ll) with
  | None => Some (None, h)
  | Some ls => Some (Some (next_state h),
                 published h (width s) (height s) (background_tile s) ls)
  end.
Proof.
  intros V Hs Hl Hll Hn.
  destruct (valid_snapshot_inv _ _ V) as (s' & l' & ll' & Hs' & Hr & Ht & Hl' & Hll' & Hlr & Hlt & Hbg).
  simplify_eq.
  pose proof (next_state_fresh h) as Hf. 
  pose proof (next_list_fresh h) as Hfl.
  assert (Hdom : dom (<[l:=mkLayerList (ll_refcount ll + 1) (ll_transient ll) (ll_layers ll)]> (lists h)) = dom (lists h)).
  { apply dom_insert_lookup_L. eauto. }
  mstep_by ltac:(eapply new_spec; eassumption).
  mstep_by ltac:(eapply get_transient_layer_list_spec;
    [solve_lookup | cbn; lia | reflexivity | reflexivity | solve_lookup | cbn; assumption | cbn; lia | assumption ]).
  rewrite Hdom.
  set (tcs := fresh (dom (states h))) in *.
  set (q := fresh (dom (lists h))) in *.
  assert (q ≠ l) by congruence.
  destruct (f (ll_layers ll)) as [ls|] eqn:Ef.
  - mstep_by ltac:(eapply apply_ok; [solve_lookup | exact Ef]).
    cbn [ll_layers ll_refcount ll_transient persist_or_discard].
    mstep_by ltac:(eapply persist_spec_transient;
      [solve_lookup | cbn; lia | reflexivity | reflexivity | solve_lookup | reflexivity]).
    unfold mret, M_ret, published, next_state, next_list. fold tcs q. cbn.
    do 3 f_equal.
    + by rewrite !insert_insert_eq.
    + map_cases. rewrite Hll. f_equal. destruct ll; cbn; f_equal; lia.
  - mstep_by ltac:(eapply apply_fail; [solve_lookup | exact Ef]).
    cbn [persist_or_discard].
    mstep_by ltac:(eapply (discard_spec_own _ _ _ q _ (tiles h));
      [solve_lookup | reflexivity | reflexivity | solve_lookup | reflexivity | reflexivity | exact Hbg]).
    unfold mret, M_ret. rewrite <- (heap_eta h) at 4. do 3 f_equal.
    + rewrite insert_insert_eq. by apply delete_insert_id.
    + map_cases. rewrite Hll. f_equal. destruct ll; cbn; f_equal; lia.
Qed.
End Pattern.

(** ** The handlers, one by one *)

Section Handlers.
Context `{!BlendModes, !Codec, !Geometry, !LayerListOps}.

Lemma bind_assoc {A B C} (m : M A) (f : A -> M B) (g : B -> M C) h :
  ((m ≫= f) ≫= g) h = (m ≫= fun a => f a ≫= g) h.
Proof. unfold mbind, M_bind. destruct (m h) as [[a h']|]; reflexivity. Qed.

Lemma bind_undef {A B} (m : M A) (f : A -> M B) h :
  m h = None -> (m ≫= f) h = None.
Proof. intros E. unfold mbind, M_bind. rewrite E. reflexivity. Qed.

Lemma bind_unfold {A B} (m : M A) (f : A -> M B) h :
  (m ≫= f) h = match m h with Some (a, h') => f a h' | None => None end.
Proof. reflexivity. Qed.

Lemma heap_ext h1 h2 :
  states h1 = states h2 -> lists h1 = lists h2 -> tiles h1 = tiles h2 -> h1 = h2.
Proof. destruct h1, h2; cbn; congruence. Qed.

(** Dropping the only reference to a transient state that still shares the
    list of the snapshot it was cloned from. *)
Lemma discard_spec_shared h tcs t l x T :
  states h !! tcs = Some t -> refcount t = 1 ->
  layers t = Some l -> lists h !! l = Some x -> ll_refcount x - 1 ≠ 0 ->
  tiles h = incref_tile (background_tile t) T ->
  (forall p, background_tile t = Some p ->
     exists tile, T !! p = Some tile /\ 0 < tile_refcount tile) ->
  DP_transient_canvas_state_decref tcs h =
    Some (tt, mkHeap (delete tcs (states h))
                (<[l := mkLayerList (ll_refcount x - 1) (ll_transient x) (ll_layers x)]> (lists h)) T).
Proof.
  intros Ht Hr Hl Hq Hx HT Hv.
  unfold DP_transient_canvas_state_decref, DP_canvas_state_decref.
  mstep. mstep_by ltac:(apply DP_ASSERT_true; apply Z.ltb_lt; lia).
  rewrite Hr. change (1 - 1 =? 0) with true. cbn iota.
  mstep_by ltac:(eapply tile_decref_incref; eassumption).
  mstep.
  mstep_by ltac:(eapply layer_list_decref_keep; [solve_lookup|done]).
  reflexivity.
Qed.

Lemma handle_canvas_resize_spec h cs s l ll context_id top right bottom left :
  valid_snapshot h cs = true ->
  states h !! cs = Some s -> layers s = Some l -> lists h !! l = Some ll ->
  handle_canvas_resize cs context_id top right bottom left h =
    match resize_dimensions (width s) (height s) top right bottom left with
    | None => Some (None, h)
    | Some (w, ht) =>
        Some (Some (next_state h),
              if (0 <? length (ll_layers ll))%nat
              then published h w ht (background_tile s)
                     (resize context_id top right bottom left (ll_layers ll))
              else published_shared h w ht (background_tile s) l)
    end.
Proof.
  intros V Hs Hl Hll.
  destruct (valid_snapshot_inv _ _ V) as (s' & l' & ll' & Hs' & Hr & Ht & Hl' & Hll' & Hlr & Hlt & Hbg).
  simplify_eq.
  pose proof (next_state_fresh h) as Hf. 
  pose proof (next_list_fresh h) as Hfl.
  assert (Hdom : dom (<[l:=mkLayerList (ll_refcount ll + 1) (ll_transient ll) (ll_layers ll)]> (lists h)) = dom (lists h)).
  { apply dom_insert_lookup_L. eauto. }
  unfold handle_canvas_resize, next_state.
  mstep_by ltac:(eapply new_spec; eassumption).
  set (tcs := fresh (dom (states h))) in *.
  unfold DP_transient_canvas_state_resize.
  destruct (resize_dimensions (width s) (height s) top right bottom left) as [[w ht]|] eqn:Ed.
  - set (q := fresh (dom (lists h))) in *.
    assert (q ≠ l) by congruence.
    destruct (0 <? length (ll_layers ll))%nat eqn:En.
    + erewrite (bind_eq (load_state tcs ≫= _)); cycle 1.
      { mstep. mstep. mstep. cbn [width height]. rewrite Ed.
        mstep. mstep.
        mstep_by ltac:(unfold DP_layer_list_layer_count; mstep; reflexivity).
        cbn [ll_layers]. rewrite En.
        rewrite bind_assoc.
        mstep_by ltac:(eapply get_transient_layer_list_spec;
              [solve_lookup | cbn; lia | reflexivity | reflexivity | solve_lookup | cbn; assumption | cbn; lia | lia ]).
        rewrite Hdom. fold q. unfold DP_transient_layer_list_resize.
        rewrite bind_assoc. mstep. mstep. reflexivity. }
      cbn beta. cbn [persist_or_discard]. fold q.
      mstep_by ltac:(eapply persist_spec_transient;
        [solve_lookup | cbn; lia | reflexivity | reflexivity | solve_lookup | reflexivity]).
      unfold mret, M_ret, published, next_state, next_list. fold tcs q. cbn.
      do 3 f_equal.
      * by rewrite !insert_insert_eq.
      * map_cases. rewrite Hll. f_equal. destruct ll; cbn; f_equal; lia.
    + erewrite (bind_eq (load_state tcs ≫= _)); cycle 1.
      { mstep. mstep. mstep. cbn [width height]. rewrite Ed.
        mstep. mstep.
        mstep_by ltac:(unfold DP_layer_list_layer_count; mstep; reflexivity).
        cbn [ll_layers]. rewrite En. mstep. reflexivity. }
      cbn beta. cbn [persist_or_discard].
      mstep_by ltac:(eapply persist_spec_shared;
        [solve_lookup | cbn; lia | reflexivity | reflexivity | solve_lookup | cbn; assumption]).
      unfold mret, M_ret, published_shared, next_state, incref_list. fold tcs. cbn.
      rewrite Hll. do 3 f_equal.
      by rewrite !insert_insert_eq.
  - erewrite (bind_eq (load_state tcs ≫= _)); cycle 1.
    { mstep. mstep. mstep. cbn [width height]. rewrite Ed. reflexivity. }
    cbn beta. cbn [persist_or_discard].
    mstep_by ltac:(eapply (discard_spec_shared _ _ _ l _ (tiles h));
      [solve_lookup | reflexivity | reflexivity | solve_lookup | cbn; lia | reflexivity | exact Hbg]).
    unfold mret, M_ret. do 2 f_equal. apply heap_ext; cbn [states lists tiles].
    + by apply delete_insert_id.
    + cbn. rewrite insert_insert_eq. apply insert_id. rewrite Hll. f_equal.
      destruct ll; cbn; f_equal; lia.
    + reflexivity.
Qed.


Lemma incref_tile_dom bg (T : gmap positive DP_Tile) :
  dom (incref_tile bg T) = dom T.
Proof.
  unfold incref_tile. destruct bg as [p|]; [|done].
  destruct (T !! p) eqn:E; [|done]. apply dom_insert_lookup_L. eauto.
Qed.

Lemma incref_tile_lookup_ne bg (T : gmap positive DP_Tile) p :
  bg ≠ Some p -> incref_tile bg T !! p = T !! p.
Proof.
  unfold incref_tile. intros Hne. destruct bg as [b|]; [|done].
  destruct (T !! b) eqn:E; [|done]. apply lookup_insert_ne. congruence.
Qed.

Lemma handle_layer_create_spec h cs s l ll context_id layer_id source_id fill
    insert copy title :
  valid_snapshot h cs = true ->
  states h !! cs = Some s -> layers s = Some l -> lists h !! l = Some ll ->
  handle_layer_create cs context_id layer_id source_id fill insert copy title h =
    match layer_create layer_id source_id
            (if fill =? 0 then None
             else Some (mkTile 1 context_id (SolidPixels fill)))
            insert copy (width s) (height s) title (ll_layers ll) with
    | None => Some (None, h)
    | Some ls =>
        Some (Some (next_state h),
              published h (width s) (height s) (background_tile s) ls)
    end.
Proof.
  intros V Hs Hl Hll.
  destruct (valid_snapshot_inv _ _ V) as (s' & l' & ll' & Hs' & Hr & Ht & Hl' & Hll' & Hlr & Hlt & Hbg).
  simplify_eq.
  pose proof (next_state_fresh h) as Hf.
  pose proof (next_list_fresh h) as Hfl.
  assert (Hdom : dom (<[l:=mkLayerList (ll_refcount ll + 1) (ll_transient ll) (ll_layers ll)]> (lists h)) = dom (lists h)).
  { apply dom_insert_lookup_L. eauto. }
  unfold handle_layer_create, published, next_state, next_list.
  mstep_by ltac:(eapply new_spec; eassumption).
  set (tcs := fresh (dom (states h))) in *.
  set (q := fresh (dom (lists h))) in *.
  assert (q ≠ l) by congruence.
  set (T1 := incref_tile (background_tile s) (tiles h)).
  destruct (Z.eqb_spec fill 0) as [Hz|Hz].
  - mstep.
    mstep_by ltac:(eapply get_transient_layer_list_spec;
      [solve_lookup | cbn; lia | reflexivity | reflexivity | solve_lookup | cbn; assumption | cbn; lia | lia ]).
    rewrite Hdom. fold q. mstep. mstep. cbn [width height set_layers].
    destruct (layer_create _ _ _ _ _ _ _ _ _) as [ls|] eqn:Ef.
    + mstep_by ltac:(eapply apply_ok; [solve_lookup | exact Ef]).
      cbn [ll_layers ll_refcount ll_transient].
      mstep. cbn [persist_or_discard].
      mstep_by ltac:(eapply persist_spec_transient;
        [solve_lookup | cbn; lia | reflexivity | reflexivity | solve_lookup | reflexivity]).
      unfold mret, M_ret. do 2 f_equal. apply heap_ext; cbn.
      * by rewrite !insert_insert_eq.
      * map_cases. rewrite Hll. f_equal. destruct ll; cbn; f_equal; lia.
      * reflexivity.
    + mstep_by ltac:(eapply apply_fail; [solve_lookup | exact Ef]).
      mstep. cbn [persist_or_discard].
      mstep_by ltac:(eapply (discard_spec_own _ _ _ q _ (tiles h));
        [solve_lookup | reflexivity | reflexivity | solve_lookup | reflexivity
        | reflexivity | exact Hbg]).
      unfold mret, M_ret. do 2 f_equal. apply heap_ext; cbn.
      * rewrite insert_insert_eq. by apply delete_insert_id.
      * map_cases. rewrite Hll. f_equal. destruct ll; cbn; f_equal; lia.
      * reflexivity.
  - rewrite bind_assoc. unfold DP_tile_new_from_bgra. mstep. mstep.
    set (pt := fresh (dom T1)).
    assert (Hpt : T1 !! pt = None) by (apply not_elem_of_dom, is_fresh).
    mstep_by ltac:(eapply get_transient_layer_list_spec;
      [solve_lookup | cbn; lia | reflexivity | reflexivity | solve_lookup | cbn; assumption | cbn; lia | lia ]).
    rewrite Hdom. fold q. mstep. rewrite bind_assoc. mstep. mstep.
    cbn [width height set_layers].
    destruct (layer_create _ _ _ _ _ _ _ _ _) as [ls|] eqn:Ef.
    + (* the fill tile is released, the state persisted *)
      mstep_by ltac:(eapply apply_ok; [solve_lookup | exact Ef]).
      cbn [ll_layers ll_refcount ll_transient].
      unfold DP_tile_decref_nullable, DP_tile_decref. rewrite bind_assoc.
      mstep. cbn [tile_refcount]. change (1 - 1 =? 0) with true. cbn iota. mstep.
      cbn [persist_or_discard].
      mstep_by ltac:(eapply persist_spec_transient;
        [solve_lookup | cbn; lia | reflexivity | reflexivity | solve_lookup | reflexivity]).
      unfold mret, M_ret. do 2 f_equal. apply heap_ext; cbn.
      * by rewrite !insert_insert_eq.
      * map_cases. rewrite Hll. f_equal. destruct ll; cbn; f_equal; lia.
      * by apply delete_insert_id.
    + mstep_by ltac:(eapply apply_fail; [solve_lookup | exact Ef]).
      unfold DP_tile_decref_nullable, DP_tile_decref. rewrite bind_assoc.
      mstep. cbn [tile_refcount]. change (1 - 1 =? 0) with true. cbn iota. mstep.
      cbn [persist_or_discard].
      mstep_by ltac:(eapply (discard_spec_own _ _ _ q _ (tiles h));
        [solve_lookup | reflexivity | reflexivity | solve_lookup | reflexivity
        | cbn; by apply delete_insert_id | exact Hbg]).
      unfold mret, M_ret. do 2 f_equal. apply heap_ext; cbn.
      * rewrite insert_insert_eq. by apply delete_insert_id.
      * map_cases. rewrite Hll. f_equal. destruct ll; cbn; f_equal; lia.
      * reflexivity.
Qed.


Lemma handle_layer_order_spec h cs s l ll layer_ids :
  valid_snapshot h cs = true ->
  states h !! cs = Some s -> layers s = Some l -> lists h !! l = Some ll ->
  handle_layer_order cs layer_ids h =
    match reorder_layers (ll_layers ll) layer_ids with
    | Some ls =>
        Some (Some (next_state h),
              published h (width s) (height s) (background_tile s) ls)
    | None => None
    end.
Proof.
  intros V Hs Hl Hll.
  destruct (valid_snapshot_inv _ _ V) as (s' & l' & ll' & Hs' & Hr & Ht & Hl' & Hll' & Hlr & Hlt & Hbg).
  simplify_eq.
  pose proof (next_state_fresh h) as Hf.
  pose proof (next_list_fresh h) as Hfl.
  unfold handle_layer_order, published, next_state, next_list in *.
  mstep_by ltac:(eapply new_spec; eassumption).
  set (tcs := fresh (dom (states h))) in *.
  set (q := fresh (dom (lists h))) in *.
  assert (q ≠ l) by congruence.
  assert (tcs ≠ cs) by congruence.
  mstep. mstep.
  mstep_by ltac:(eapply layer_list_decref_keep; [solve_lookup | cbn; lia]).
  cbn [ll_refcount ll_transient ll_layers].
  assert (HL : <[l:=mkLayerList (ll_refcount ll + 1 - 1) (ll_transient ll) (ll_layers ll)]>
                 (<[l:=mkLayerList (ll_refcount ll + 1) (ll_transient ll) (ll_layers ll)]> (lists h))
               = lists h).
  { rewrite insert_insert_eq. apply insert_id. rewrite Hll. f_equal.
    destruct ll; cbn; f_equal; lia. }
  rewrite HL.
  mstep. mstep. unfold DP_layer_list_layer_reorder. rewrite bind_assoc. mstep.
  destruct (reorder_layers (ll_layers ll) layer_ids) as [ls|].
  - rewrite bind_assoc. mstep. fold q. mstep. mstep. mstep.
    mstep_by ltac:(eapply persist_spec_transient;
        [solve_lookup | cbn; lia | reflexivity | reflexivity | solve_lookup | reflexivity]).
    unfold mret, M_ret. do 2 f_equal. apply heap_ext; cbn.
    + by rewrite !insert_insert_eq.
    + by rewrite insert_insert_eq.
    + reflexivity.
  - mstep. mstep. mstep.
    unfold DP_transient_canvas_state_persist.
    rewrite bind_assoc. mstep. rewrite bind_assoc. mstep. rewrite bind_assoc. mstep.
    rewrite bind_assoc. apply bind_undef. reflexivity.
Qed.

Lemma canvas_state_incref_spec h cs :
  valid_snapshot h cs = true ->
  DP_canvas_state_incref cs h = Some (cs, with_incref h cs).
Proof.
  intros V.
  destruct (valid_snapshot_inv _ _ V) as (s & l & ll & Hs & Hr & Ht & Hl & Hll & Hlr & Hlt & Hbg).
  unfold DP_canvas_state_incref, with_incref. rewrite Hs.
  mstep. mstep. mstep. reflexivity.
Qed.

(** The tile of a payload, when the codec accepts it. *)
Lemma tile_of_payload_spec h context_id payload :
  tile_of_payload context_id payload h =
    match payload_tile context_id payload with
    | Some t =>
        Some (Some (next_tile h),
              mkHeap (states h) (lists h) (<[next_tile h := t]> (tiles h)))
    | None => Some (None, h)
    end.
Proof.
  unfold tile_of_payload, payload_tile, DP_tile_new_from_bgra,
    DP_tile_new_from_compressed, next_tile.
  destruct payload as [color|image].
  - mstep. reflexivity.
  - destruct (DP_compress_inflate image) as [bytes|]; [|reflexivity].
    destruct (_ =? _); [|reflexivity]. mstep. reflexivity.
Qed.

Lemma valid_snapshot_add_tile h cs p t :
  tiles h !! p = None ->
  valid_snapshot h cs = true ->
  valid_snapshot (mkHeap (states h) (lists h) (<[p := t]> (tiles h))) cs = true.
Proof.
  intros Hp. unfold valid_snapshot. cbn [states lists tiles].
  destruct (states h !! cs) as [s|]; [|done].
  destruct (background_tile s) as [b|]; [|done].
  destruct (tiles h !! b) eqn:Eb.
  - rewrite lookup_insert_ne by congruence. by rewrite Eb.
  - rewrite !andb_false_r. done.
Qed.

Lemma delete_incref_tile_insert bg (T : gmap positive DP_Tile) p t :
  T !! p = None -> bg ≠ Some p ->
  delete p (incref_tile bg (<[p := t]> T)) = incref_tile bg T.
Proof.
  intros Hp Hne. unfold incref_tile. destruct bg as [b|].
  - assert (b ≠ p) by congruence.
    rewrite lookup_insert_ne by congruence.
    destruct (T !! b) eqn:Eb.
    + map_cases.
    + by apply delete_insert_id.
  - by apply delete_insert_id.
Qed.

Lemma handle_canvas_background_spec h cs s l ll context_id payload :
  valid_snapshot h cs = true ->
  states h !! cs = Some s -> layers s = Some l -> lists h !! l = Some ll ->
  handle_canvas_background cs context_id payload h =
    match payload_tile context_id payload with
    | Some t =>
        Some (Some (next_state h),
              mkHeap (<[next_state h :=
                          mkCanvasState 1 false (width s) (height s)
                            (Some (next_tile h)) (Some l)]> (states h))
                     (incref_list l (lists h))
                     (<[next_tile h := t]> (tiles h)))
    | None => Some (None, h)
    end.
Proof.
  intros V Hs Hl Hll.
  destruct (valid_snapshot_inv _ _ V) as (s' & l' & ll' & Hs' & Hr & Ht & Hl' & Hll' & Hlr & Hlt & Hbg).
  simplify_eq.
  pose proof (next_state_fresh h) as Hf.
  pose proof (next_tile_fresh h) as Hft.
  unfold handle_canvas_background.
  rewrite bind_unfold, tile_of_payload_spec.
  destruct (payload_tile context_id payload) as [t|]; [|reflexivity].
  unfold next_state, next_tile, incref_list in *. rewrite Hll.
  set (tcs := fresh (dom (states h))) in *.
  set (pt := fresh (dom (tiles h))) in *.
  assert (tcs ≠ cs) by congruence.
  assert (Hbgne : background_tile s ≠ Some pt).
  { intros E. destruct (Hbg _ E) as (? & ? & ?). congruence. }
  mstep_by ltac:(eapply new_spec;
    [ apply valid_snapshot_add_tile; eassumption | solve_lookup | eassumption | solve_lookup ]).
  mstep. cbn [background_tile].
  mstep_by ltac:(eapply (tile_decref_incref _ _ (<[pt := t]> (tiles h)));
    [ reflexivity
    | intros p Hp; destruct (Hbg p Hp) as (tile & ? & ?); exists tile; split; [|done];
      rewrite lookup_insert_ne by congruence; done ]).
  mstep.
  mstep_by ltac:(eapply persist_spec_shared;
    [solve_lookup | cbn; lia | reflexivity | reflexivity | solve_lookup | cbn; assumption]).
  unfold mret, M_ret. do 2 f_equal. apply heap_ext; cbn.
  - by rewrite !insert_insert_eq.
  - reflexivity.
  - reflexivity.
Qed.

Lemma handle_put_tile_spec h cs s l ll context_id layer_id sublayer_id x y
    repeat payload :
  valid_snapshot h cs = true ->
  states h !! cs = Some s -> layers s = Some l -> lists h !! l = Some ll ->
  handle_put_tile cs context_id layer_id sublayer_id x y repeat payload h =
    match payload_tile context_id payload with
    | Some t =>
        match put_tile t layer_id sublayer_id x y repeat (ll_layers ll) with
        | Some ls =>
            Some (Some (next_state h),
                  published h (width s) (height s) (background_tile s) ls)
        | None => Some (None, h)
        end
    | None => Some (None, h)
    end.
Proof.
  intros V Hs Hl Hll.
  destruct (valid_snapshot_inv _ _ V) as (s' & l' & ll' & Hs' & Hr & Ht & Hl' & Hll' & Hlr & Hlt & Hbg).
  simplify_eq.
  pose proof (next_state_fresh h) as Hf.
  pose proof (next_list_fresh h) as Hfl.
  pose proof (next_tile_fresh h) as Hft.
  assert (Hdom : dom (<[l:=mkLayerList (ll_refcount ll + 1) (ll_transient ll) (ll_layers ll)]> (lists h)) = dom (lists h)).
  { apply dom_insert_lookup_L. eauto. }
  unfold handle_put_tile.
  rewrite bind_unfold, tile_of_payload_spec.
  destruct (payload_tile context_id payload) as [t|] eqn:Et; [|reflexivity].
  unfold published, next_state, next_list, next_tile in *.
  set (tcs := fresh (dom (states h))) in *.
  set (q := fresh (dom (lists h))) in *.
  set (pt := fresh (dom (tiles h))) in *.
  assert (tcs ≠ cs) by congruence.
  assert (q ≠ l) by congruence.
  assert (Hbgne : background_tile s ≠ Some pt).
  { intros E. destruct (Hbg _ E) as (? & ? & ?). congruence. }
  mstep_by ltac:(eapply new_spec;
    [ apply valid_snapshot_add_tile; eassumption | solve_lookup | eassumption | solve_lookup ]).
  mstep_by ltac:(eapply get_transient_layer_list_spec;
    [solve_lookup | cbn; lia | reflexivity | reflexivity | solve_lookup | cbn; assumption | cbn; lia | lia ]).
  rewrite Hdom. fold q.
  mstep_by ltac:(apply load_tile_eq; cbn [tiles];
    rewrite incref_tile_lookup_ne by assumption; apply lookup_insert_eq).
  assert (Hdec : forall S L,
    DP_tile_decref pt (mkHeap S L (incref_tile (background_tile s) (<[pt:=t]> (tiles h))))
    = Some (tt, mkHeap S L (incref_tile (background_tile s) (tiles h)))).
  { intros S L. unfold DP_tile_decref.
    mstep_by ltac:(apply load_tile_eq; cbn [tiles];
      rewrite incref_tile_lookup_ne by assumption; apply lookup_insert_eq).
    unfold payload_tile in Et.
    assert (tile_refcount t = 1) as ->.
    { destruct payload; [by simplify_eq|].
      destruct (DP_compress_inflate image); [|done].
      destruct (_ =? _); by simplify_eq. }
    change (1 - 1 =? 0) with true. cbn iota. unfold free_tile. cbn [states lists tiles].
    by rewrite delete_incref_tile_insert. }
  destruct (put_tile t layer_id sublayer_id x y repeat (ll_layers ll)) as [ls|] eqn:Ef.
  - mstep_by ltac:(eapply apply_ok; [solve_lookup | exact Ef]).
    cbn [ll_layers ll_refcount ll_transient].
    mstep_by ltac:(apply Hdec).
    cbn [persist_or_discard].
    mstep_by ltac:(eapply persist_spec_transient;
      [solve_lookup | cbn; lia | reflexivity | reflexivity | solve_lookup | reflexivity]).
    unfold mret, M_ret. do 2 f_equal. apply heap_ext; cbn.
    + by rewrite !insert_insert_eq.
    + map_cases. rewrite Hll. f_equal. destruct ll; cbn; f_equal; lia.
    + reflexivity.
  - mstep_by ltac:(eapply apply_fail; [solve_lookup | exact Ef]).
    mstep_by ltac:(apply Hdec).
    cbn [persist_or_discard].
    mstep_by ltac:(eapply (discard_spec_own _ _ _ q _ (tiles h));
      [solve_lookup | reflexivity | reflexivity | solve_lookup | reflexivity
      | reflexivity | exact Hbg]).
    unfold mret, M_ret. do 2 f_equal. apply heap_ext; cbn.
    + rewrite insert_insert_eq. by apply delete_insert_id.
    + map_cases. rewrite Hll. f_equal. destruct ll; cbn; f_equal; lia.
    + reflexivity.
Qed.

End Handlers.

(** ** The claims about single handlers *)

Lemma resize_dimensions_rejected w h top right bottom left :
  resize_rejected w h top right bottom left ->
  resize_dimensions w h top right bottom left = None.
Proof.
  unfold resize_rejected, resize_dimensions. rewrite !int_add_assoc3.
  intros Hr.
  destruct (Z.leb_spec (int_add h bottom) (int_neg top)); [done|].
  destruct (Z.leb_spec (int_add w right) (int_neg left)); [done|].
  cbn [orb].
  destruct (Z.ltb_spec (to_int (w + left + right)) 1); [done|].
  destruct (Z.ltb_spec (to_int (h + top + bottom)) 1); [done|].
  destruct (Z.ltb_spec INT16_MAX (to_int (w + left + right))); [done|].
  destruct (Z.ltb_spec INT16_MAX (to_int (h + top + bottom))); [done|].
  lia.
Qed.

Lemma resize_dimensions_accepted w h top right bottom left :
  ~ resize_rejected w h top right bottom left ->
  resize_dimensions w h top right bottom left =
    Some (to_int (w + left + right), to_int (h + top + bottom)).
Proof.
  unfold resize_rejected, resize_dimensions. rewrite !int_add_assoc3.
  intros Hr.
  destruct (Z.leb_spec (int_add h bottom) (int_neg top)); [lia|].
  destruct (Z.leb_spec (int_add w right) (int_neg left)); [lia|].
  cbn [orb].
  destruct (Z.ltb_spec (to_int (w + left + right)) 1); [lia|].
  destruct (Z.ltb_spec (to_int (h + top + bottom)) 1); [lia|].
  destruct (Z.ltb_spec INT16_MAX (to_int (w + left + right))); [lia|].
  destruct (Z.ltb_spec INT16_MAX (to_int (h + top + bottom))); [lia|].
  reflexivity.
Qed.

(** Where no sum leaves the range of [int], the sums are the mathematical
    ones and the inverted borders are those of a size below one. *)
Lemma resize_rejected_exact w h top right bottom left :
  0 <= w <= INT16_MAX -> 0 <= h <= INT16_MAX ->
  - 536870912 <= top <= 536870912 -> - 536870912 <= right <= 536870912 ->
  - 536870912 <= bottom <= 536870912 -> - 536870912 <= left <= 536870912 ->
  to_int (w + left + right) = w + left + right
  /\ to_int (h + top + bottom) = h + top + bottom
  /\ (resize_rejected w h top right bottom left
      <-> ~ (1 <= w + left + right <= INT16_MAX
             /\ 1 <= h + top + bottom <= INT16_MAX)).
Proof.
  intros Hw Hh Ht Hr Hb Hl. unfold resize_rejected, int_add, int_neg.
  rewrite !to_int_id by int_range.
  unfold INT16_MAX in *. repeat split; try reflexivity; intros; lia.
Qed.

Section Claims.
Context `{!BlendModes, !Codec, !Geometry, !LayerListOps}.

(** The answer of [handle_canvas_resize] on the sums as [int] computes
    them. *)
Lemma handle_canvas_resize_int h cs s context_id top right bottom left :
  valid_snapshot h cs = true ->
  states h !! cs = Some s ->
  let new_w := to_int (width s + left + right) in
  let new_h := to_int (height s + top + bottom) in
  (resize_rejected (width s) (height s) top right bottom left ->
   handle_canvas_resize cs context_id top right bottom left h = Some (None, h))
  /\ (~ resize_rejected (width s) (height s) top right bottom left ->
      exists h' s',
        handle_canvas_resize cs context_id top right bottom left h
          = Some (Some (next_state h), h')
        /\ states h !! next_state h = None
        /\ states h' !! next_state h = Some s'
        /\ width s' = new_w /\ height s' = new_h
        /\ background_tile s' = background_tile s
        /\ transient s' = false).
Proof.
  intros V Hs new_w new_h.
  destruct (valid_snapshot_inv _ _ V) as (s' & l & ll & Hs' & _ & _ & Hl & Hll & _).
  simplify_eq.
  rewrite (handle_canvas_resize_spec h cs s l ll) by assumption.
  split; intros Hr.
  - by rewrite resize_dimensions_rejected.
  - rewrite resize_dimensions_accepted by assumption.
    destruct (0 <? length (ll_layers ll))%nat;
      (eexists _, _; split; [reflexivity|];
       split; [apply next_state_fresh|];
       cbn [states published published_shared];
       rewrite lookup_insert_eq; repeat split; reflexivity).
Qed.

(** C2, amended.  CanvasResize(top, right, bottom, left) with borders of at
    most 2^29 in absolute value, on a canvas of [width s] by [height s]
    within [0, 32767]: with new_w = width + left + right and
    new_h = height + top + bottom, the handler fails, leaving the heap as it
    was, exactly when new_w or new_h is outside [1, 32767] or the borders are
    inverted (north >= south or west >= east); otherwise it publishes a new
    snapshot of size new_w by new_h that keeps the background tile. *)
Theorem canvas_resize_outcome h cs s context_id top right bottom left :
  valid_snapshot h cs = true ->
  states h !! cs = Some s ->
  0 <= width s <= INT16_MAX -> 0 <= height s <= INT16_MAX ->
  - 536870912 <= top <= 536870912 -> - 536870912 <= right <= 536870912 ->
  - 536870912 <= bottom <= 536870912 -> - 536870912 <= left <= 536870912 ->
  let new_w := width s + left + right in
  let new_h := height s + top + bottom in
  let run := handle_canvas_resize cs context_id top right bottom left h in
  (run = Some (None, h)
   <-> new_w < 1 \/ INT16_MAX < new_w \/ new_h < 1 \/ INT16_MAX < new_h
       \/ height s + bottom <= - top \/ width s + right <= - left)
  /\ (1 <= new_w <= INT16_MAX -> 1 <= new_h <= INT16_MAX ->
      exists h' s',
        run = Some (Some (next_state h), h')
        /\ states h !! next_state h = None
        /\ states h' !! next_state h = Some s'
        /\ width s' = new_w /\ height s' = new_h
        /\ background_tile s' = background_tile s
        /\ transient s' = false).
Proof.
  intros V Hs Hw Hh Ht Hr Hb Hl new_w new_h run.
  destruct (handle_canvas_resize_int h cs s context_id top right bottom left V Hs)
    as [Hrej Hacc].
  destruct (resize_rejected_exact (width s) (height s) top right bottom left)
    as (Ew & Eh & Hiff); [done..|].
  cbv zeta in Hacc. rewrite Ew, Eh in Hacc. fold new_w new_h run in Hrej, Hacc, Hiff.
  assert (Hinv : height s + bottom <= - top \/ width s + right <= - left ->
                 ~ (1 <= new_w <= INT16_MAX /\ 1 <= new_h <= INT16_MAX))
    by (subst new_w new_h; lia).
  split; [split|].
  - intros Hfail.
    destruct (decide (1 <= new_w <= INT16_MAX /\ 1 <= new_h <= INT16_MAX))
      as [Hin|Hout]; [|lia].
    destruct Hacc as (h' & s' & Hrun & _); [by rewrite Hiff; intros Hn; apply Hn|].
    rewrite Hrun in Hfail. discriminate Hfail.
  - intros Hout. apply Hrej, Hiff. lia.
  - intros Hnw Hnh. apply Hacc. rewrite Hiff. intros Hn. by apply Hn.
Qed.

(** *** FillRect *)

Lemma handle_fill_rect_spec h cs s l ll context_id layer_id blend_mode x y w ht
    color :
  valid_snapshot h cs = true ->
  states h !! cs = Some s -> layers s = Some l -> lists h !! l = Some ll ->
  handle_fill_rect cs context_id layer_id blend_mode x y w ht color h =
    if negb (DP_blend_mode_exists blend_mode)
       || negb (DP_blend_mode_valid_for_brush blend_mode)
    then Some (None, h)
    else
      let '(rl, rt, rr, rb) := fill_rect_bounds x y w ht (width s) (height s) in
      if (rr <=? rl) || (rb <=? rt) then Some (None, h)
      else
        match fill_rect context_id layer_id blend_mode rl rt rr rb color
                (ll_layers ll) with
        | Some ls =>
            Some (Some (next_state h),
                  published h (width s) (height s) (background_tile s) ls)
        | None => Some (None, h)
        end.
Proof.
  intros V Hs Hl Hll. unfold handle_fill_rect.
  destruct (DP_blend_mode_exists blend_mode); [|reflexivity].
  destruct (DP_blend_mode_valid_for_brush blend_mode); [|reflexivity].
  cbn [negb orb]. mstep.
  destruct (fill_rect_bounds x y w ht (width s) (height s)) as [[[rl rt] rr] rb].
  destruct ((rr <=? rl) || (rb <=? rt)); [reflexivity|].
  by apply (with_transient_layers_spec h cs s l ll).
Qed.

(** C3, amended.  FillRect of a rectangle of non-negative width and height
    fails when the blend mode is unknown or not applicable to brushes.
    Otherwise the rectangle is cut to the canvas, left = max(x, 0),
    top = max(y, 0), right = min(x + w, canvas width),
    bottom = min(y + h, canvas height), with the exact sums as long as they
    do not exceed [INT_MAX], and the handler fails when this rectangle is
    empty; such a rectangle that lies outside the canvas altogether always
    fails. *)
Theorem fill_rect_rejections h cs s context_id layer_id blend_mode x y w ht color :
  states h !! cs = Some s ->
  is_int x -> is_int y -> 0 <= w -> 0 <= ht ->
  let run := handle_fill_rect cs context_id layer_id blend_mode x y w ht color h in
  (DP_blend_mode_exists blend_mode = false
   \/ DP_blend_mode_valid_for_brush blend_mode = false ->
   run = Some (None, h))
  /\ (x + w <= INT_MAX -> y + ht <= INT_MAX ->
      fill_rect_bounds x y w ht (width s) (height s)
      = (Z.max x 0, Z.max y 0, Z.min (x + w) (width s), Z.min (y + ht) (height s))
      /\ (Z.min (x + w) (width s) <= Z.max x 0
          \/ Z.min (y + ht) (height s) <= Z.max y 0 ->
          run = Some (None, h)))
  /\ (x + w <= 0 \/ y + ht <= 0 \/ width s <= x \/ height s <= y ->
      run = Some (None, h)).
Proof.
  intros Hs Hx Hy Hw Hh run.
  assert (Hb : fill_rect_bounds x y w ht (width s) (height s)
                 = (Z.max x 0, Z.max y 0, Z.min (int_add x w) (width s),
                    Z.min (int_add y ht) (height s))).
  { unfold fill_rect_bounds. by rewrite !DP_max_int_spec, !DP_min_int_spec. }
  assert (Hempty : Z.min (int_add x w) (width s) <= Z.max x 0
                   \/ Z.min (int_add y ht) (height s) <= Z.max y 0 ->
                   run = Some (None, h)).
  { intros He. subst run. unfold handle_fill_rect.
    destruct (DP_blend_mode_exists blend_mode); [|reflexivity].
    destruct (DP_blend_mode_valid_for_brush blend_mode); [|reflexivity].
    cbn [negb]. mstep. rewrite Hb.
    destruct (Z.leb_spec (Z.min (int_add x w) (width s)) (Z.max x 0));
      [reflexivity|].
    destruct (Z.leb_spec (Z.min (int_add y ht) (height s)) (Z.max y 0));
      [reflexivity|]. lia. }
  split; [|split].
  - intros [E|E]; subst run; unfold handle_fill_rect; rewrite E; [reflexivity|].
    by destruct (DP_blend_mode_exists blend_mode).
  - intros Hxw Hyh.
    assert (Ex : int_add x w = x + w)
      by (unfold int_add; apply to_int_id; int_range).
    assert (Ey : int_add y ht = y + ht)
      by (unfold int_add; apply to_int_id; int_range).
    rewrite Ex, Ey in Hb, Hempty. by split.
  - intros Hout. apply Hempty.
    destruct Hout as [Ho|[Ho|[Ho|Ho]]].
    + left. unfold int_add. rewrite to_int_id by int_range. lia.
    + right. unfold int_add. rewrite to_int_id by int_range. lia.
    + left. lia.
    + right. lia.
Qed.

(** *** RegionMove *)

Lemma region_move_max_size_exact w ht :
  is_int w -> is_int ht -> region_move_max_size w ht = (w + 1) * (ht + 1).
Proof.
  intros Hw Hh. unfold region_move_max_size, llong_mul, llong_add.
  rewrite (to_llong_id (w + 1)) by int_range.
  rewrite (to_llong_id (ht + 1)) by int_range.
  apply to_llong_id.
  assert (- 2147483648 <= w + 1 <= 2147483648) by int_range.
  assert (- 2147483648 <= ht + 1 <= 2147483648) by int_range.
  cbv [is_llong LLONG_MIN LLONG_MAX].
  change (2 ^ 63) with 9223372036854775808. nia.
Qed.

(** C4.  RegionMove fails when the width or height of the source rectangle
    is not positive, and fails when the area of the bounding rectangle of
    the destination quad exceeds (canvas_width + 1) * (canvas_height + 1);
    the [long long] product is the exact one, it does not overflow.  Either
    failure returns NULL and produces no snapshot. *)
Theorem region_move_rejections h cs s context_id layer_id src_x src_y
    src_width src_height dst_quad mask :
  states h !! cs = Some s -> is_int (width s) -> is_int (height s) ->
  let run := handle_region_move cs context_id layer_id src_x src_y src_width
               src_height dst_quad mask h in
  region_move_max_size (width s) (height s) = (width s + 1) * (height s + 1)
  /\ (src_width <= 0 \/ src_height <= 0 -> run = Some (None, h))
  /\ ((width s + 1) * (height s + 1) < DP_quad_bounds_size dst_quad ->
      run = Some (None, h)).
Proof.
  intros Hs Hw Hh run.
  pose proof (region_move_max_size_exact _ _ Hw Hh) as Hmax.
  split; [exact Hmax|]. subst run. unfold handle_region_move. split.
  - intros Hsrc.
    destruct (Z.leb_spec src_width 0); [reflexivity|].
    destruct (Z.leb_spec src_height 0); [reflexivity|]. lia.
  - intros Hbig.
    destruct ((src_width <=? 0) || (src_height <=? 0)); [reflexivity|].
    destruct mask as [bytes|].
    + destruct (Image.DP_image_new_from_compressed_monochrome _ _ _ _)
        as [[m|]|]; [|reflexivity..].
      mstep. rewrite Hmax.
      destruct (Z.ltb_spec ((width s + 1) * (height s + 1))
                  (DP_quad_bounds_size dst_quad)); [reflexivity|lia].
    + mstep. rewrite Hmax.
      destruct (Z.ltb_spec ((width s + 1) * (height s + 1))
                  (DP_quad_bounds_size dst_quad)); [reflexivity|lia].
Qed.


(** *** DrawDabs *)

Lemma opacity_of_color color :
  DP_uint32_to_int (Z.shiftr (Z.land color 4278190080) 24)
  = Z.land (Z.shiftr color 24) 255.
Proof.
  rewrite Z.shiftr_land. change (Z.shiftr 4278190080 24) with 255.
  assert (E : Z.land (Z.shiftr color 24) 255 = Z.shiftr color 24 mod 256).
  { change 255 with (Z.ones 8). rewrite Z.land_ones by lia. reflexivity. }
  unfold DP_uint32_to_int. apply to_int_id. rewrite E.
  pose proof (Z.mod_pos_bound (Z.shiftr color 24) 256 ltac:(lia)).
  int_range.
Qed.

Lemma draw_dabs_modes_spec context_id color blend_mode indirect :
  is_int context_id ->
  draw_dabs_modes context_id color blend_mode indirect =
    if indirect
    then (context_id, Z.land (Z.shiftr color 24) 255, blend_mode,
          DP_BLEND_MODE_NORMAL)
    else (0, -1, -1, blend_mode).
Proof.
  intros Hc. unfold draw_dabs_modes. destruct indirect; [|reflexivity].
  rewrite opacity_of_color. unfold DP_uint_to_int. by rewrite to_int_id.
Qed.

(** C6.  A draw-dabs message with at least one dab, once its blend mode has
    passed the checks, draws with these parameters: with the indirect flag,
    into the sublayer whose id is the context id, with opacity
    (color >> 24) & 0xff and the requested blend mode, the dabs themselves
    composited with NORMAL; without it, with sublayer id 0 and the dabs
    composited with the requested blend mode. *)
Theorem draw_dabs_indirect_or_direct h cs s l ll kind context_id layer_id
    origin_x origin_y color blend_mode (indirect : bool) (dabs : list Z) :
  valid_snapshot h cs = true ->
  states h !! cs = Some s -> layers s = Some l -> lists h !! l = Some ll ->
  is_int context_id -> dabs <> @nil Z ->
  let sublayer_id := if indirect then context_id else 0 in
  let sublayer_opacity :=
    if indirect then Z.land (Z.shiftr color 24) 255 else -1 in
  let sublayer_blend_mode := if indirect then blend_mode else -1 in
  let dabs_blend_mode :=
    if indirect then DP_BLEND_MODE_NORMAL else blend_mode in
  handle_draw_dabs cs kind context_id layer_id origin_x origin_y color
    blend_mode indirect dabs h =
    if DP_blend_mode_exists blend_mode
       && DP_blend_mode_valid_for_brush blend_mode
    then
      match draw_dabs layer_id sublayer_id sublayer_blend_mode
              sublayer_opacity
              (mkDabsParams kind context_id origin_x origin_y color
                 dabs_blend_mode (Z.of_nat (length dabs)) dabs)
              (ll_layers ll) with
      | Some ls =>
          Some (Some (next_state h),
                published h (width s) (height s) (background_tile s) ls)
      | None => Some (None, h)
      end
    else Some (None, h).
Proof.
  intros V Hs Hl Hll Hc Hd. cbv zeta. unfold handle_draw_dabs.
  destruct (DP_blend_mode_exists blend_mode); [|reflexivity].
  destruct (DP_blend_mode_valid_for_brush blend_mode); [|reflexivity].
  cbn [negb andb].
  destruct (Z.ltb_spec (Z.of_nat (length dabs)) 1) as [Hn|Hn].
  { destruct dabs; [done|]. cbn [length] in Hn. lia. }
  rewrite draw_dabs_modes_spec by assumption.
  destruct indirect; by apply (with_transient_layers_spec h cs s l ll).
Qed.

Lemma handle_draw_dabs_no_dabs h cs kind context_id layer_id origin_x origin_y
    color blend_mode indirect :
  valid_snapshot h cs = true ->
  handle_draw_dabs cs kind context_id layer_id origin_x origin_y color
    blend_mode indirect [] h =
    if DP_blend_mode_exists blend_mode
       && DP_blend_mode_valid_for_brush blend_mode
    then Some (Some cs, with_incref h cs)
    else Some (None, h).
Proof.
  intros V. unfold handle_draw_dabs.
  destruct (DP_blend_mode_exists blend_mode); [|reflexivity].
  destruct (DP_blend_mode_valid_for_brush blend_mode); [|reflexivity].
  cbn [negb andb]. change (Z.of_nat (length (@nil Z)) <? 1) with true.
  cbn iota.
  mstep_by ltac:(by apply canvas_state_incref_spec). reflexivity.
Qed.

Lemma handle_dispatch h cs s msg :
  valid_snapshot h cs = true -> states h !! cs = Some s ->
  DP_canvas_state_handle cs msg h =
    (let context_id := DP_message_context_id msg in
     match DP_message_body msg with
     | MsgCanvasResize top_ right_ bottom_ left_ =>
         handle_canvas_resize cs context_id top_ right_ bottom_ left_
     | MsgLayerCreate layer_id source_id fill insert copy title =>
         handle_layer_create cs context_id layer_id source_id fill insert copy
           title
     | MsgLayerAttr layer_id sublayer_id opacity blend_mode censored fixed =>
         handle_layer_attr cs layer_id sublayer_id opacity blend_mode censored
           fixed
     | MsgLayerOrder layer_ids => handle_layer_order cs layer_ids
     | MsgLayerRetitle layer_id title => handle_layer_retitle cs layer_id title
     | MsgLayerDelete layer_id merge =>
         handle_layer_delete cs context_id layer_id merge
     | MsgLayerVisibility layer_id visible =>
         handle_layer_visibility cs layer_id visible
     | MsgPutImage layer_id blend_mode x y w h image =>
         handle_put_image cs context_id layer_id blend_mode x y w h image
     | MsgFillRect layer_id blend_mode x y w h color =>
         handle_fill_rect cs context_id layer_id blend_mode x y w h color
     | MsgRegionMove layer_id src_x src_y src_width src_height dst_quad mask =>
         handle_region_move cs context_id layer_id src_x src_y src_width
           src_height dst_quad mask
     | MsgPutTile layer_id sublayer_id x y repeat payload =>
         handle_put_tile cs context_id layer_id sublayer_id x y repeat payload
     | MsgCanvasBackground payload =>
         handle_canvas_background cs context_id payload
     | MsgPenUp => handle_pen_up cs context_id
     | MsgDrawDabs kind layer_id origin_x origin_y color blend_mode indirect
         dabs =>
         handle_draw_dabs cs kind context_id layer_id origin_x origin_y color
           blend_mode indirect dabs
     | MsgOther _ => mret None
     end) h.
Proof.
  intros V Hs.
  destruct (valid_snapshot_inv _ _ V) as (s' & l & ll & Hs' & Hr & Ht & _).
  simplify_eq. unfold DP_canvas_state_handle.
  mstep. mstep. mstep. reflexivity.
Qed.

(** C5, amended.  A draw-dabs message without dabs whose blend mode exists and
    is applicable to brushes is a no-op: the interpreter returns the input
    snapshot itself, its reference count one higher, and nothing else in the
    heap changes. *)
Theorem draw_dabs_without_dabs_is_noop h cs s kind context_id layer_id
    origin_x origin_y color blend_mode indirect :
  valid_snapshot h cs = true -> states h !! cs = Some s ->
  DP_blend_mode_exists blend_mode = true ->
  DP_blend_mode_valid_for_brush blend_mode = true ->
  DP_canvas_state_handle cs
    (mkMessage context_id
       (MsgDrawDabs kind layer_id origin_x origin_y color blend_mode indirect []))
    h = Some (Some cs, with_incref h cs)
  /\ states (with_incref h cs) = <[cs := set_refcount (refcount s + 1) s]> (states h)
  /\ lists (with_incref h cs) = lists h
  /\ tiles (with_incref h cs) = tiles h.
Proof.
  intros V Hs He Hb. split.
  - rewrite (handle_dispatch h cs s) by assumption. cbn.
    rewrite handle_draw_dabs_no_dabs by assumption. by rewrite He, Hb.
  - unfold with_incref. rewrite Hs. done.
Qed.


(** *** LayerOrder *)

Lemma find_layer_known id (ls : list DP_Layer) :
  id ∈ layer_id <$> ls ->
  exists l, find_layer id ls = Some l /\ layer_id l = id /\ l ∈ ls.
Proof.
  unfold find_layer. induction ls as [|x ls IH]; cbn.
  - intros Hin. by apply elem_of_nil in Hin.
  - intros Hin. destruct (Z.eqb_spec (layer_id x) id) as [E|E].
    + exists x. repeat split; [done|]. apply list_elem_of_here.
    + apply elem_of_cons in Hin as [Hin|Hin]; [congruence|].
      destruct (IH Hin) as (l & Hf & Hid & Hl).
      exists l. repeat split; [done..|]. by apply list_elem_of_further.
Qed.

Lemma find_layer_unknown id (ls : list DP_Layer) :
  id ∉ layer_id <$> ls -> find_layer id ls = None.
Proof.
  unfold find_layer. induction ls as [|x ls IH]; cbn; [done|].
  intros Hin. destruct (Z.eqb_spec (layer_id x) id) as [E|E].
  - exfalso. apply Hin. rewrite <- E. apply list_elem_of_here.
  - apply IH. intros Hin'. apply Hin. by apply list_elem_of_further.
Qed.

Lemma reorder_layers_known (ls : list DP_Layer) ids :
  Forall (fun id => id ∈ layer_id <$> ls) ids ->
  exists ls', reorder_layers ls ids = Some ls'.
Proof.
  intros Hknown. unfold reorder_layers.
  rewrite bool_decide_eq_true_2 by done.
  destruct (bool_decide _); eauto.
Qed.

Lemma reorder_layers_unknown (ls : list DP_Layer) ids :
  ~ Forall (fun id => id ∈ layer_id <$> ls) ids ->
  reorder_layers ls ids = None.
Proof.
  intros Hn. unfold reorder_layers. by rewrite bool_decide_eq_false_2.
Qed.

Lemma omap_find_layer (ls : list DP_Layer) ids :
  Forall (fun id => id ∈ layer_id <$> ls) ids ->
  layer_id <$> omap (fun id => find_layer id ls) ids = ids
  /\ Forall (fun l => l ∈ ls) (omap (fun id => find_layer id ls) ids).
Proof.
  induction 1 as [|id ids Hid _ [IHids IHall]]; [by split|].
  destruct (find_layer_known _ _ Hid) as (l & Hf & Hl & Hin).
  cbn. rewrite Hf. cbn. rewrite Hl, IHids. split; [done|by constructor].
Qed.

(** A permutation of the existing ids puts the layers in its order. *)
Lemma reorder_layers_permutation (ls : list DP_Layer) ids :
  NoDup ids -> ids ≡ₚ layer_id <$> ls ->
  exists ls',
    reorder_layers ls ids = Some ls' /\ layer_id <$> ls' = ids /\ ls' ≡ₚ ls.
Proof.
  intros Hnd Hperm.
  assert (Hknown : Forall (fun id => id ∈ layer_id <$> ls) ids).
  { apply Forall_forall. intros id Hid. by rewrite <- Hperm. }
  destruct (omap_find_layer ls ids Hknown) as [Hids Hall].
  unfold reorder_layers.
  rewrite bool_decide_eq_true_2 by done.
  rewrite bool_decide_eq_true_2 by done.
  eexists. split; [reflexivity|]. split; [exact Hids|].
  set (ls' := omap _ ids) in *.
  apply submseteq_length_Permutation.
  - apply NoDup_submseteq.
    + apply (NoDup_fmap_1 layer_id). by rewrite Hids.
    + intros x Hx. by eapply Forall_forall in Hall.
  - rewrite <- (length_fmap layer_id ls), <- Hperm, <- Hids.
    by rewrite length_fmap.
Qed.

(** C9 (code defect).  A LayerOrder message that names an id no layer has:
    [DP_layer_list_layer_reorder] reports the failure with NULL, and
    [handle_layer_order], which has no check of that result, hands the NULL
    list to [DP_transient_canvas_state_persist], where it is dereferenced.
    The handler has no result at all; it does not return the failure the
    other handlers return. *)
Theorem layer_order_unknown_id_is_not_reported h cs s l ll layer_ids :
  valid_snapshot h cs = true ->
  states h !! cs = Some s -> layers s = Some l -> lists h !! l = Some ll ->
  Exists (fun id => id ∉ layer_id <$> ll_layers ll) layer_ids ->
  DP_layer_list_layer_reorder l layer_ids h = Some (None, h)
  /\ handle_layer_order cs layer_ids h = None
  /\ forall h', handle_layer_order cs layer_ids h <> Some (None, h').
Proof.
  intros V Hs Hl Hll Hunknown.
  assert (Hr : reorder_layers (ll_layers ll) layer_ids = None).
  { apply reorder_layers_unknown. by apply Exists_not_Forall. }
  assert (Hrun : handle_layer_order cs layer_ids h = None).
  { rewrite (handle_layer_order_spec h cs s l ll) by assumption. by rewrite Hr. }
  split; [|split; [exact Hrun|by rewrite Hrun]].
  unfold DP_layer_list_layer_reorder. mstep. by rewrite Hr.
Qed.

(** *** The remaining handlers over a transient layer list *)

Lemma handle_layer_attr_spec h cs s l ll layer_id sublayer_id opacity
    blend_mode censored fixed :
  valid_snapshot h cs = true ->
  states h !! cs = Some s -> layers s = Some l -> lists h !! l = Some ll ->
  handle_layer_attr cs layer_id sublayer_id opacity blend_mode censored fixed h =
    match layer_attr layer_id sublayer_id opacity blend_mode censored fixed
            (ll_layers ll) with
    | Some ls =>
        Some (Some (next_state h),
              published h (width s) (height s) (background_tile s) ls)
    | None => Some (None, h)
    end.
Proof.
  intros. unfold handle_layer_attr.
  by rewrite (with_transient_layers_spec h cs s l ll).
Qed.

Lemma handle_layer_retitle_spec h cs s l ll layer_id title :
  valid_snapshot h cs = true ->
  states h !! cs = Some s -> layers s = Some l -> lists h !! l = Some ll ->
  handle_layer_retitle cs layer_id title h =
    match layer_retitle layer_id title (ll_layers ll) with
    | Some ls =>
        Some (Some (next_state h),
              published h (width s) (height s) (background_tile s) ls)
    | None => Some (None, h)
    end.
Proof.
  intros. unfold handle_layer_retitle.
  by rewrite (with_transient_layers_spec h cs s l ll).
Qed.

Lemma handle_layer_delete_spec h cs s l ll context_id layer_id merge :
  valid_snapshot h cs = true ->
  states h !! cs = Some s -> layers s = Some l -> lists h !! l = Some ll ->
  handle_layer_delete cs context_id layer_id merge h =
    match layer_delete context_id layer_id merge (ll_layers ll) with
    | Some ls =>
        Some (Some (next_state h),
              published h (width s) (height s) (background_tile s) ls)
    | None => Some (None, h)
    end.
Proof.
  intros. unfold handle_layer_delete.
  by rewrite (with_transient_layers_spec h cs s l ll).
Qed.

Lemma handle_layer_visibility_spec h cs s l ll layer_id visible :
  valid_snapshot h cs = true ->
  states h !! cs = Some s -> layers s = Some l -> lists h !! l = Some ll ->
  handle_layer_visibility cs layer_id visible h =
    match layer_visibility layer_id visible (ll_layers ll) with
    | Some ls =>
        Some (Some (next_state h),
              published h (width s) (height s) (background_tile s) ls)
    | None => Some (None, h)
    end.
Proof.
  intros. unfold handle_layer_visibility.
  by rewrite (with_transient_layers_spec h cs s l ll).
Qed.

Lemma handle_put_image_spec h cs s l ll context_id layer_id blend_mode x y w ht
    image :
  valid_snapshot h cs = true ->
  states h !! cs = Some s -> layers s = Some l -> lists h !! l = Some ll ->
  handle_put_image cs context_id layer_id blend_mode x y w ht image h =
    if DP_blend_mode_exists blend_mode then
      match put_image context_id layer_id blend_mode x y w ht image
              (ll_layers ll) with
      | Some ls =>
          Some (Some (next_state h),
                published h (width s) (height s) (background_tile s) ls)
      | None => Some (None, h)
      end
    else Some (None, h).
Proof.
  intros. unfold handle_put_image.
  destruct (DP_blend_mode_exists blend_mode); [|reflexivity]. cbn [negb].
  by rewrite (with_transient_layers_spec h cs s l ll).
Qed.

Lemma handle_region_move_spec h cs s l ll context_id layer_id src_x src_y
    src_width src_height dst_quad mask :
  valid_snapshot h cs = true ->
  states h !! cs = Some s -> layers s = Some l -> lists h !! l = Some ll ->
  handle_region_move cs context_id layer_id src_x src_y src_width src_height
    dst_quad mask h =
    if (src_width <=? 0) || (src_height <=? 0) then Some (None, h)
    else
      match
        match mask with
        | Some bytes =>
            match Image.DP_image_new_from_compressed_monochrome
                    DP_compress_inflate src_width src_height bytes with
            | Some (Some m) => Some (Some m)
            | _ => None
            end
        | None => Some None
        end
      with
      | None => Some (None, h)
      | Some m =>
          if region_move_max_size (width s) (height s)
             <? DP_quad_bounds_size dst_quad
          then Some (None, h)
          else
            match region_move context_id layer_id
                    (DP_rect_make src_x src_y src_width src_height) dst_quad m
                    (ll_layers ll) with
            | Some ls =>
                Some (Some (next_state h),
                      published h (width s) (height s) (background_tile s) ls)
            | None => Some (None, h)
            end
      end.
Proof.
  intros V Hs Hl Hll. unfold handle_region_move.
  destruct ((src_width <=? 0) || (src_height <=? 0)); [reflexivity|].
  destruct (match mask with Some _ => _ | None => _ end) as [m|]; [|reflexivity].
  mstep. cbv zeta.
  destruct (_ <? _); [reflexivity|].
  by rewrite (with_transient_layers_spec h cs s l ll) by (done || lia).
Qed.

End Claims.

(** ** PenUp *)

Ltac cstep :=
  rewrite ?bind_assoc;
  match goal with
  | |- context [(?m ≫= ?f) ?h] =>
      erewrite (bind_eq m f h) by prim; cbn beta; cbn [states lists tiles]
  end.
Ltac cstep_by tac :=
  rewrite ?bind_assoc;
  match goal with
  | |- context [(?m ≫= ?f) ?h] =>
      erewrite (bind_eq m f h) by tac; cbn beta; cbn [states lists tiles]
  end.

Section PenUp.
Context `{!LayerListOps}.

Lemma load_layer_eq h (r : positive * nat) LL L :
  lists h !! r.1 = Some LL -> ll_layers LL !! r.2 = Some L ->
  load_layer r h = Some (L, h).
Proof.
  intros HLL HL. unfold load_layer. mstep. by rewrite HL.
Qed.

Lemma sublayer_id_at_eq h (r : positive * nat) LL L j sub :
  lists h !! r.1 = Some LL -> ll_layers LL !! r.2 = Some L ->
  layer_sublayers L !! j = Some sub ->
  sublayer_id_at r j h = Some (layer_id sub, h).
Proof.
  intros HLL HL Hsub. unfold sublayer_id_at.
  mstep_by ltac:(eapply load_layer_eq; eassumption).
  rewrite Hsub. reflexivity.
Qed.

(** The inner loop leaves everything as it is when no sublayer from [j] on
    carries the id. *)
Lemma pen_up_sublayers_idle n : forall cs context_id sublayer_id i j st h LL L,
  lists h !! (pu_sll st).1 = Some LL ->
  ll_layers LL !! (pu_sll st).2 = Some L ->
  (n + j <= length (layer_sublayers L))%nat ->
  existsb (fun sub => layer_id sub =? sublayer_id) (layer_sublayers L) = false ->
  pen_up_sublayers n cs context_id sublayer_id i j st h = Some (st, h).
Proof.
  induction n as [|n IH]; intros cs context_id sublayer_id i j st h LL L HLL HL Hn Hno.
  - reflexivity.
  - cbn [pen_up_sublayers].
    destruct (lookup_lt_is_Some_2 (layer_sublayers L) j ltac:(lia)) as [sub Hsub].
    mstep_by ltac:(eapply sublayer_id_at_eq; eassumption).
    assert (Hne : (layer_id sub =? sublayer_id) = false).
    { destruct (layer_id sub =? sublayer_id) eqn:E; [|done].
      rewrite <- Hno. symmetry. apply existsb_exists. exists sub.
      split; [|done]. apply list_elem_of_In. by eapply list_elem_of_lookup_2. }
    rewrite Hne. eapply IH; eauto. lia.
Qed.

Lemma has_stroke_lookup sublayer_id (ls : list DP_Layer) k L :
  has_stroke sublayer_id ls = false -> ls !! k = Some L ->
  existsb (fun sub => layer_id sub =? sublayer_id) (layer_sublayers L) = false.
Proof.
  unfold has_stroke. intros Hno Hk.
  destruct (existsb _ (layer_sublayers L)) eqn:E; [|done].
  rewrite <- Hno. symmetry. apply existsb_exists. exists L.
  split; [|done]. apply list_elem_of_In. by eapply list_elem_of_lookup_2.
Qed.

Lemma pen_up_layers_idle n : forall cs context_id sublayer_id i ll h LL,
  lists h !! ll = Some LL ->
  (n + i <= length (ll_layers LL))%nat ->
  has_stroke sublayer_id (ll_layers LL) = false ->
  pen_up_layers n cs context_id sublayer_id i None ll h = Some (None, h).
Proof.
  induction n as [|n IH]; intros cs context_id sublayer_id i ll h LL HLL Hn Hno.
  - reflexivity.
  - cbn [pen_up_layers].
    destruct (lookup_lt_is_Some_2 (ll_layers LL) i ltac:(lia)) as [L HL].
    unfold sublayer_count_of. rewrite bind_assoc.
    mstep_by ltac:(eapply (load_layer_eq _ (ll, i)); eassumption).
    mstep.
    mstep_by ltac:(eapply (pen_up_sublayers_idle _ _ _ _ _ _ _ _ LL L);
      [ eassumption | eassumption | cbn; lia | by eapply has_stroke_lookup ]).
    cbn [pu_tcs pu_ll]. eapply IH; eauto. lia.
Qed.

Lemma handle_pen_up_idle h cs s l ll context_id :
  valid_snapshot h cs = true ->
  states h !! cs = Some s -> layers s = Some l -> lists h !! l = Some ll ->
  has_stroke (DP_uint_to_int context_id) (ll_layers ll) = false ->
  handle_pen_up cs context_id h = Some (Some cs, with_incref h cs).
Proof.
  intros V Hs Hl Hll Hno. unfold handle_pen_up.
  mstep. mstep. unfold DP_layer_list_layer_count. rewrite bind_assoc. mstep. mstep.
  mstep_by ltac:(eapply pen_up_layers_idle; [eassumption | cbn; lia | assumption]).
  mstep_by ltac:(by apply canvas_state_incref_spec). reflexivity.
Qed.


Lemma merge_sublayer_Some context_id L j :
  (j < length (layer_sublayers L))%nat ->
  exists L', merge_sublayer context_id L j = Some L'
             /\ length (layer_sublayers L') = pred (length (layer_sublayers L)).
Proof.
  intros Hj. unfold merge_sublayer.
  destruct (lookup_lt_is_Some_2 (layer_sublayers L) j Hj) as [sub Hsub].
  rewrite Hsub. cbn. eexists. split; [reflexivity|]. cbn.
  rewrite length_delete by eauto. lia.
Qed.

Lemma merge_sublayer_at_eq h (tl : positive * nat) context_id j LL L L' :
  lists h !! tl.1 = Some LL -> ll_layers LL !! tl.2 = Some L ->
  merge_sublayer context_id L j = Some L' ->
  DP_transient_layer_merge_sublayer_at tl context_id j h =
    Some (tt, mkHeap (states h)
                (<[tl.1 := mkLayerList (ll_refcount LL) (ll_transient LL)
                             (<[tl.2 := L']> (ll_layers LL))]> (lists h))
                (tiles h)).
Proof.
  intros HLL HL Hm. unfold DP_transient_layer_merge_sublayer_at.
  mstep. rewrite HL. mstep. rewrite Hm. mstep. reflexivity.
Qed.

Section Loop.
Variables (h0 : heap) (cs : addr) (s : DP_CanvasState) (l : addr)
  (ll : DP_LayerList) (context_id sublayer_id : Z).
Hypothesis V : valid_snapshot h0 cs = true.
Hypothesis Hs : states h0 !! cs = Some s.
Hypothesis Hl : layers s = Some l.
Hypothesis Hll : lists h0 !! l = Some ll.


Lemma pen_up_new_heap :
  (tcs ← DP_transient_canvas_state_new cs;
   tll ← get_transient_layer_list tcs 0;
   mret (tcs, tll, l)) h0 =
  Some ((next_state h0, next_list h0, l),
        pen_up_heap h0 s l (ll_refcount ll) (ll_layers ll) (ll_layers ll)).
Proof.
  destruct (valid_snapshot_inv _ _ V) as (s' & l' & ll' & Hs' & Hr & Ht & Hl' & Hll' & Hlr & Hlt & Hbg).
  simplify_eq.
  pose proof (next_list_fresh h0) as Hfl.
  assert (Hdom : dom (<[l:=mkLayerList (ll_refcount ll + 1) (ll_transient ll) (ll_layers ll)]> (lists h0)) = dom (lists h0)).
  { apply dom_insert_lookup_L. eauto. }
  mstep_by ltac:(eapply new_spec; eassumption).
  mstep_by ltac:(eapply get_transient_layer_list_spec;
    [solve_lookup | cbn; lia | reflexivity | reflexivity | solve_lookup | cbn; assumption | cbn; lia | lia ]).
  rewrite Hdom. unfold next_state, next_list in *.
  set (q := fresh (dom (lists h0))) in *.
  assert (q ≠ l) by congruence.
  unfold mret, M_ret, pen_up_heap, next_state, next_list. fold q.
  do 2 f_equal. apply heap_ext; cbn.
  - by rewrite insert_insert_eq.
  - map_cases. f_equal. destruct ll; cbn in *; subst; f_equal; lia.
  - reflexivity.
Qed.

Lemma q_neq_l : next_list h0 ≠ l.
Proof.
  unfold next_list. pose proof (next_list_fresh h0). congruence.
Qed.

(** The layer a reference denotes in a heap of either phase. *)
Lemma phase_list tcs h :
  pen_up_phase h0 s l ll tcs h ->
  exists LL, lists h !! l = Some LL
             /\ length (ll_layers LL) = length (ll_layers ll).
Proof.
  destruct 1.
  - eauto.
  - eexists. split; [apply lookup_insert_eq|]. done.
Qed.

Lemma pen_up_sublayers_total n : forall i j tcs tl p h LL L,
  pen_up_phase h0 s l ll tcs h ->
  (tl = None /\ p = l
   \/ tl = Some (p, i) /\ tcs <> None /\ (p = l \/ p = next_list h0)) ->
  lists h !! p = Some LL ->
  ll_layers LL !! i = Some L ->
  length (layer_sublayers L) = (n + j)%nat ->
  exists st' h',
    pen_up_sublayers n cs context_id sublayer_id i j (mkPenUp tcs l tl (p, i)) h
      = Some (st', h')
    /\ pen_up_phase h0 s l ll (pu_tcs st') h' /\ pu_ll st' = l.
Proof.
  pose proof q_neq_l as Hql.
  induction n as [|n IH]; intros i j tcs tl p h LL L Hph Htl HLL HL Hlen.
  - eexists _, h. done.
  - cbn [pen_up_sublayers pu_tcs pu_ll pu_tl pu_sll].
    destruct (lookup_lt_is_Some_2 (layer_sublayers L) j ltac:(lia)) as [sub Hsub].
    erewrite bind_eq by (eapply (sublayer_id_at_eq _ (p, i)); eassumption).
    destruct (layer_id sub =? sublayer_id).
    2:{ eapply IH; eauto. lia. }
    destruct (merge_sublayer_Some context_id L j ltac:(lia)) as (L' & Hm & Hlen').
    assert (Hi : (i < length (ll_layers LL))%nat) by (by eapply lookup_lt_Some).
    destruct Htl as [[-> ->]|(-> & Htcs & Hwhere)].
    + (* the layer is not transient yet *)
      destruct Hph as [|A B HA HB]; unfold pen_up_heap in *.
      * (* nothing is transient yet *)
        rewrite bind_assoc.
        erewrite bind_eq by apply pen_up_new_heap.
        cbn beta iota.
        assert (LL = ll) as -> by congruence.
        unfold DP_transient_layer_list_transient_at.
        unfold pen_up_heap.
        cstep. cbn [ll_layers]. rewrite HL.
        cstep. cstep.
        cstep_by ltac:(eapply (merge_sublayer_at_eq _ (next_list h0, i));
            [cbn; rewrite lookup_insert_ne by done; apply lookup_insert_eq
            | cbn; eassumption | eassumption]).
        cstep.
        eapply (IH i j _ _ _ _ _ L').
        -- replace (mkHeap _ _ _) with
             (pen_up_heap h0 s l (ll_refcount ll) (ll_layers ll)
                (<[i := L']> (ll_layers ll))).
           { constructor; [done|]. by rewrite length_insert. }
           unfold pen_up_heap. apply heap_ext; cbn; [done| |done].
           map_cases.
        -- right. repeat split; [done|by right].
        -- cbn. apply lookup_insert_eq.
        -- cbn. by apply list_lookup_insert_eq.
        -- lia.
      * (* the canvas state is transient, the list variable is not *)
        cstep.
        assert (LL = mkLayerList (ll_refcount ll) false A) as ->.
        { cbn in HLL. rewrite lookup_insert_eq in HLL. congruence. }
        unfold DP_transient_layer_list_transient_at.
        cstep. cbn [ll_layers] in *. rewrite HL.
        cstep. cstep.
        cstep_by ltac:(eapply (merge_sublayer_at_eq _ (l, i));
            [cbn; apply lookup_insert_eq | cbn; eassumption | eassumption]).
        cstep.
        eapply (IH i j _ _ _ _ _ L').
        -- replace (mkHeap _ _ _) with
             (pen_up_heap h0 s l (ll_refcount ll) (<[i := L']> A) B).
           { constructor; [by rewrite length_insert|done]. }
           unfold pen_up_heap. apply heap_ext; cbn; [done| |done].
           by rewrite insert_insert_eq.
        -- right. repeat split; [done|by left].
        -- cbn. apply lookup_insert_eq.
        -- cbn. by apply list_lookup_insert_eq.
        -- lia.
    + (* everything is transient already *)
      destruct Hph as [|A B HA HB]; [done|]. unfold pen_up_heap in *.
      rewrite !bind_assoc.
      cstep_by ltac:(eapply (merge_sublayer_at_eq _ (p, i)); cbn; eassumption).
      cstep.
      destruct Hwhere as [->| ->].
      * assert (LL = mkLayerList (ll_refcount ll) false A) as ->.
        { cbn in HLL. rewrite lookup_insert_eq in HLL. congruence. }
        eapply (IH i j _ _ _ _ _ L').
        -- replace (mkHeap _ _ _) with
             (pen_up_heap h0 s l (ll_refcount ll) (<[i := L']> A) B).
           { constructor; [by rewrite length_insert|done]. }
           unfold pen_up_heap. apply heap_ext; cbn; [done| |done].
           by rewrite insert_insert_eq.
        -- right. repeat split; [done|by left].
        -- cbn. apply lookup_insert_eq.
        -- cbn. by apply list_lookup_insert_eq.
        -- lia.
      * assert (LL = mkLayerList 1 true B) as ->.
        { cbn in HLL. rewrite lookup_insert_ne, lookup_insert_eq in HLL by done.
          congruence. }
        eapply (IH i j _ _ _ _ _ L').
        -- replace (mkHeap _ _ _) with
             (pen_up_heap h0 s l (ll_refcount ll) A (<[i := L']> B)).
           { constructor; [done|by rewrite length_insert]. }
           unfold pen_up_heap. apply heap_ext; cbn; [done| |done].
           map_cases.
        -- right. repeat split; [done|by right].
        -- cbn. apply lookup_insert_eq.
        -- cbn. by apply list_lookup_insert_eq.
        -- lia.
Qed.

Lemma pen_up_layers_total n : forall i tcs h,
  pen_up_phase h0 s l ll tcs h ->
  (n + i = length (ll_layers ll))%nat ->
  exists tcs' h',
    pen_up_layers n cs context_id sublayer_id i tcs l h = Some (tcs', h')
    /\ pen_up_phase h0 s l ll tcs' h'.
Proof.
  induction n as [|n IH]; intros i tcs h Hph Hn.
  - exists tcs, h. done.
  - cbn [pen_up_layers].
    destruct (phase_list _ _ Hph) as (LL & HLL & Hlen).
    destruct (lookup_lt_is_Some_2 (ll_layers LL) i ltac:(lia)) as [L HL].
    unfold sublayer_count_of.
    cstep_by ltac:(eapply (load_layer_eq _ (l, i)); eassumption).
    cstep.
    destruct (pen_up_sublayers_total (length (layer_sublayers L)) i 0 tcs None
                l h LL L Hph) as (st' & h' & Hrun & Hph' & Hpl);
      [by left | done | done | lia |].
    cstep_by ltac:(exact Hrun).
    rewrite Hpl. eapply IH; [done|lia].
Qed.

End Loop.

Lemma handle_pen_up_total h cs s l ll context_id :
  valid_snapshot h cs = true ->
  states h !! cs = Some s -> layers s = Some l -> lists h !! l = Some ll ->
  exists r h',
    handle_pen_up cs context_id h = Some (Some r, h')
    /\ handled h cs (Some r) h'.
Proof.
  intros V Hs Hl Hll. unfold handle_pen_up.
  destruct (pen_up_layers_total h cs s l ll context_id
              (DP_uint_to_int context_id) V Hs Hl Hll
              (length (ll_layers ll)) 0 None h
              (pen_up_idle _ _ _ _) ltac:(lia)) as (tcs & h' & Hrun & Hph).
  cstep. cstep. unfold DP_layer_list_layer_count. cstep. cstep.
  cstep_by ltac:(exact Hrun).
  destruct Hph as [|A B HA HB].
  - cstep_by ltac:(by apply canvas_state_incref_spec).
    eexists _, _. split; [reflexivity|]. by left.
  - pose proof (q_neq_l h l ll Hll).
    unfold pen_up_heap.
    cstep_by ltac:(eapply persist_spec_transient;
      [solve_lookup | cbn; lia | reflexivity | reflexivity | solve_lookup | reflexivity]).
    eexists _, _. split; [reflexivity|]. right. split.
    + apply next_state_fresh.
    + eexists _, _, _. cbn [states lists].
      rewrite !lookup_insert_eq. repeat split; reflexivity.
Qed.

End PenUp.

(** ** The interpreter as a whole *)

Section Outcomes.
Context `{!BlendModes, !Codec, !Geometry, !LayerListOps}.

Lemma fresh_published h w ht bg ls :
  fresh_snapshot h (published h w ht bg ls) (next_state h).
Proof.
  split; [apply next_state_fresh|].
  eexists _, _, _. unfold published. cbn [states lists].
  rewrite !lookup_insert_eq. repeat split; reflexivity.
Qed.

Lemma fresh_published_shared h w ht bg l ll :
  lists h !! l = Some ll -> ll_transient ll = false ->
  fresh_snapshot h (published_shared h w ht bg l) (next_state h).
Proof.
  intros Hll Hlt. split; [apply next_state_fresh|].
  eexists _, _, _. unfold published_shared, incref_list. cbn [states lists].
  rewrite Hll, !lookup_insert_eq. repeat split; try reflexivity. exact Hlt.
Qed.

Ltac finish_published :=
  match goal with
  | |- context [match ?o with Some _ => _ | None => _ end] => destruct o
  end;
  eexists _, _; (split; [reflexivity|]);
  [right; apply fresh_published | reflexivity].

(** C1, amended.  On a persisted snapshot [cs], every message other than a
    LayerOrder that names an unknown layer is answered in one of three ways:
    with a failure, and then the heap is exactly as before the call (the
    input snapshot is untouched and the transient state is released); with
    the input snapshot itself, one reference more; or with a fresh,
    persisted snapshot. *)
Theorem handle_outcomes h cs s l ll msg :
  valid_snapshot h cs = true ->
  states h !! cs = Some s -> layers s = Some l -> lists h !! l = Some ll ->
  (forall layer_ids,
     DP_message_body msg = MsgLayerOrder layer_ids ->
     Forall (fun id => id ∈ layer_id <$> ll_layers ll) layer_ids) ->
  exists r h',
    DP_canvas_state_handle cs msg h = Some (r, h') /\ handled h cs r h'.
Proof.
  intros V Hs Hl Hll Hknown.
  rewrite (handle_dispatch h cs s) by assumption. cbv zeta.
  destruct msg as [context_id body]. cbn [DP_message_context_id DP_message_body] in *.
  destruct body as
    [ top_ right_ bottom_ left_
    | layer_id source_id fill insert copy title
    | layer_id sublayer_id opacity blend_mode censored fixed
    | layer_ids
    | layer_id title
    | layer_id merge
    | layer_id visible
    | layer_id blend_mode x y w ht image
    | layer_id blend_mode x y w ht color
    | layer_id src_x src_y src_width src_height dst_quad mask
    | layer_id sublayer_id x y repeat payload
    | payload
    |
    | kind layer_id origin_x origin_y color blend_mode indirect dabs
    | type ].
  - (* CanvasResize *)
    rewrite (handle_canvas_resize_spec h cs s l ll) by assumption.
    destruct (resize_dimensions _ _ _ _ _ _) as [[w ht]|].
    + eexists _, _. split; [reflexivity|]. right.
      destruct (0 <? length (ll_layers ll))%nat.
      * apply fresh_published.
      * eapply fresh_published_shared; [eassumption|].
        by destruct (valid_snapshot_inv _ _ V) as (? & ? & ? & ? & ? & ? & ? & ? & ? & ? & ?);
          simplify_eq.
    + by eexists _, _.
  - (* LayerCreate *)
    rewrite (handle_layer_create_spec h cs s l ll) by assumption.
    finish_published.
  - rewrite (handle_layer_attr_spec h cs s l ll) by assumption.
    finish_published.
  - (* LayerOrder *)
    rewrite (handle_layer_order_spec h cs s l ll) by assumption.
    destruct (reorder_layers_known _ _ (Hknown _ eq_refl)) as (ls & ->).
    eexists _, _. split; [reflexivity|]. right. apply fresh_published.
  - rewrite (handle_layer_retitle_spec h cs s l ll) by assumption.
    finish_published.
  - rewrite (handle_layer_delete_spec h cs s l ll) by assumption.
    finish_published.
  - rewrite (handle_layer_visibility_spec h cs s l ll) by assumption.
    finish_published.
  - (* PutImage *)
    rewrite (handle_put_image_spec h cs s l ll) by assumption.
    destruct (DP_blend_mode_exists blend_mode); [|by eexists _, _].
    finish_published.
  - (* FillRect *)
    rewrite (handle_fill_rect_spec h cs s l ll) by assumption.
    destruct (_ || _); [by eexists _, _|].
    destruct (fill_rect_bounds _ _ _ _ _ _) as [[[rl rt] rr] rb].
    destruct (_ || _); [by eexists _, _|].
    finish_published.
  - (* RegionMove *)
    rewrite (handle_region_move_spec h cs s l ll) by assumption.
    destruct (_ || _); [by eexists _, _|].
    destruct (match mask with Some _ => _ | None => _ end) as [m|];
      [|by eexists _, _].
    destruct (_ <? _); [by eexists _, _|].
    finish_published.
  - (* PutTile *)
    rewrite (handle_put_tile_spec h cs s l ll) by assumption.
    destruct (payload_tile _ _) as [t|]; [|by eexists _, _].
    finish_published.
  - (* CanvasBackground *)
    rewrite (handle_canvas_background_spec h cs s l ll) by assumption.
    destruct (payload_tile _ _) as [t|]; [|by eexists _, _].
    eexists _, _. split; [reflexivity|]. right.
    split; [apply next_state_fresh|].
    destruct (valid_snapshot_inv _ _ V) as (? & ? & ? & ? & ? & ? & ? & ? & ? & Hlt & ?).
    simplify_eq.
    eexists _, _, _. unfold incref_list. cbn [states lists].
    rewrite Hll, !lookup_insert_eq. repeat split; try reflexivity. exact Hlt.
  - (* PenUp *)
    destruct (handle_pen_up_total h cs s l ll context_id V Hs Hl Hll)
      as (r & h' & -> & Hh).
    by eexists _, _.
  - (* DrawDabs *)
    destruct dabs as [|dab dabs].
    + rewrite handle_draw_dabs_no_dabs by assumption.
      destruct (_ && _); eexists _, _; (split; [reflexivity|]); [by left|done].
    + destruct (valid_snapshot_inv _ _ V) as (? & ? & ? & ? & ? & ? & ? & ? & ? & ? & ?).
      simplify_eq. unfold handle_draw_dabs.
      destruct (DP_blend_mode_exists blend_mode); [|by eexists _, _].
      destruct (DP_blend_mode_valid_for_brush blend_mode); [|by eexists _, _].
      cbn [negb].
      destruct (Z.ltb_spec (Z.of_nat (length (dab :: dabs))) 1) as [Hn|Hn];
        [cbn [length] in Hn; lia|].
      destruct (draw_dabs_modes _ _ _ _) as [[[a b] c] d].
      rewrite (with_transient_layers_spec h cs s l ll) by (done || lia).
      finish_published.
  - (* any other message *)
    by eexists _, _.
Qed.

End Outcomes.

(** ** Snapshots before and after a message *)

Section Answers.
Context `{!BlendModes, !Codec, !Geometry, !LayerListOps}.

Lemma resize_dimensions_range w h top right bottom left w' h' :
  resize_dimensions w h top right bottom left = Some (w', h') ->
  1 <= w' <= INT16_MAX /\ 1 <= h' <= INT16_MAX.
Proof.
  unfold resize_dimensions. destruct (_ || _); [done|].
  destruct (Z.ltb_spec (int_add (int_add w right) left) 1); [done|].
  destruct (Z.ltb_spec (int_add (int_add h bottom) top) 1); [done|].
  destruct (Z.ltb_spec INT16_MAX (int_add (int_add w right) left)); [done|].
  destruct (Z.ltb_spec INT16_MAX (int_add (int_add h bottom) top)); [done|].
  cbn. intros [= <- <-]. lia.
Qed.

Lemma payload_tile_refcount context_id payload t :
  payload_tile context_id payload = Some t -> tile_refcount t = 1.
Proof.
  destruct payload as [color|image]; cbn.
  - by intros [= <-].
  - destruct (DP_compress_inflate image); [|done].
    destruct (_ =? _); [|done]. by intros [= <-].
Qed.

Lemma handle_answers h cs s l ll msg r h' :
  valid_snapshot h cs = true ->
  states h !! cs = Some s -> layers s = Some l -> lists h !! l = Some ll ->
  DP_message_body msg <> MsgPenUp ->
  DP_canvas_state_handle cs msg h = Some (r, h') ->
  answer h cs s l r h'.
Proof.
  intros V Hs Hl Hll Hpen.
  rewrite (handle_dispatch h cs s) by assumption. cbv zeta.
  destruct msg as [context_id body]. cbn [DP_message_context_id DP_message_body] in *.
  destruct body as
    [ top_ right_ bottom_ left_
    | layer_id source_id fill insert copy title
    | layer_id sublayer_id opacity blend_mode censored fixed
    | layer_ids
    | layer_id title
    | layer_id merge
    | layer_id visible
    | layer_id blend_mode x y w ht image
    | layer_id blend_mode x y w ht color
    | layer_id src_x src_y src_width src_height dst_quad mask
    | layer_id sublayer_id x y repeat payload
    | payload
    |
    | kind layer_id origin_x origin_y color blend_mode indirect dabs
    | type ].
  - rewrite (handle_canvas_resize_spec h cs s l ll) by assumption.
    destruct (resize_dimensions _ _ _ _ _ _) as [[w ht]|] eqn:E.
    + apply resize_dimensions_range in E as [Hw Hh].
      destruct (0 <? length (ll_layers ll))%nat; intros [= <- <-].
      * by apply answer_resized.
      * by apply answer_resized_empty.
    + intros [= <- <-]. constructor.
  - rewrite (handle_layer_create_spec h cs s l ll) by assumption.
    destruct (layer_create _ _ _ _ _ _ _ _ _); intros [= <- <-]; constructor.
  - rewrite (handle_layer_attr_spec h cs s l ll) by assumption.
    destruct (layer_attr _ _ _ _ _ _ _); intros [= <- <-]; constructor.
  - rewrite (handle_layer_order_spec h cs s l ll) by assumption.
    destruct (reorder_layers _ _); [|done]. intros [= <- <-]; constructor.
  - rewrite (handle_layer_retitle_spec h cs s l ll) by assumption.
    destruct (layer_retitle _ _ _); intros [= <- <-]; constructor.
  - rewrite (handle_layer_delete_spec h cs s l ll) by assumption.
    destruct (layer_delete _ _ _ _); intros [= <- <-]; constructor.
  - rewrite (handle_layer_visibility_spec h cs s l ll) by assumption.
    destruct (layer_visibility _ _ _); intros [= <- <-]; constructor.
  - rewrite (handle_put_image_spec h cs s l ll) by assumption.
    destruct (DP_blend_mode_exists blend_mode); [|intros [= <- <-]; constructor].
    destruct (put_image _ _ _ _ _ _ _ _ _); intros [= <- <-]; constructor.
  - rewrite (handle_fill_rect_spec h cs s l ll) by assumption.
    destruct (_ || _); [intros [= <- <-]; constructor|].
    destruct (fill_rect_bounds _ _ _ _ _ _) as [[[rl rt] rr] rb].
    destruct (_ || _); [intros [= <- <-]; constructor|].
    destruct (fill_rect _ _ _ _ _ _ _ _ _); intros [= <- <-]; constructor.
  - rewrite (handle_region_move_spec h cs s l ll) by assumption.
    destruct (_ || _); [intros [= <- <-]; constructor|].
    destruct (match mask with Some _ => _ | None => _ end) as [m|];
      [|intros [= <- <-]; constructor].
    destruct (_ <? _); [intros [= <- <-]; constructor|].
    destruct (region_move _ _ _ _ _ _); intros [= <- <-]; constructor.
  - rewrite (handle_put_tile_spec h cs s l ll) by assumption.
    destruct (payload_tile _ _) as [t|]; [|intros [= <- <-]; constructor].
    destruct (put_tile _ _ _ _ _ _ _); intros [= <- <-]; constructor.
  - rewrite (handle_canvas_background_spec h cs s l ll) by assumption.
    destruct (payload_tile _ _) as [t|] eqn:E; intros [= <- <-].
    + apply answer_background. by eapply payload_tile_refcount.
    + constructor.
  - done.
  - destruct dabs as [|dab dabs].
    + rewrite handle_draw_dabs_no_dabs by assumption.
      destruct (_ && _); intros [= <- <-]; constructor.
    + destruct (valid_snapshot_inv _ _ V) as (? & ? & ? & ? & ? & ? & ? & ? & ? & ? & ?).
      simplify_eq. unfold handle_draw_dabs.
      destruct (DP_blend_mode_exists blend_mode); [|intros [= <- <-]; constructor].
      destruct (DP_blend_mode_valid_for_brush blend_mode);
        [|intros [= <- <-]; constructor].
      cbn [negb].
      destruct (Z.ltb_spec (Z.of_nat (length (dab :: dabs))) 1) as [Hn|Hn];
        [cbn [length] in Hn; lia|].
      destruct (draw_dabs_modes _ _ _ _) as [[[a b] c] d].
      rewrite (with_transient_layers_spec h cs s l ll) by (done || lia).
      destruct (draw_dabs _ _ _ _ _ _); intros [= <- <-]; constructor.
  - intros [= <- <-]. constructor.
Qed.


Lemma incref_tile_lookup bg (T : gmap positive DP_Tile) p tile :
  T !! p = Some tile ->
  exists tile', incref_tile bg T !! p = Some tile'
    /\ tile_pixels tile' = tile_pixels tile
    /\ tile_refcount tile <= tile_refcount tile'.
Proof.
  intros Hp. unfold incref_tile. destruct bg as [q|]; [|exists tile; repeat split; [done|lia]].
  destruct (T !! q) as [tq|] eqn:Eq; [|exists tile; repeat split; [done|lia]].
  destruct (decide (q = p)) as [->|Hne].
  - rewrite lookup_insert_eq. simplify_eq. eexists. split; [done|]. cbn.
    split; [done|lia].
  - rewrite lookup_insert_ne by done. exists tile. repeat split; [done|lia].
Qed.

Lemma incref_list_lookup l (L : gmap positive DP_LayerList) p ll :
  L !! p = Some ll ->
  exists ll', incref_list l L !! p = Some ll'
    /\ ll_layers ll' = ll_layers ll /\ ll_transient ll' = ll_transient ll
    /\ ll_refcount ll <= ll_refcount ll'.
Proof.
  intros Hp. unfold incref_list.
  destruct (L !! l) as [x|] eqn:El; [|exists ll; repeat split; [done|lia]].
  destruct (decide (l = p)) as [->|Hne].
  - rewrite lookup_insert_eq. simplify_eq. eexists. split; [done|]. cbn.
    repeat split; lia.
  - rewrite lookup_insert_ne by done. exists ll. repeat split; [done|lia].
Qed.

(** A snapshot stays valid, and shows what it showed, when states, lists and
    tiles are added around it and reference counts go up. *)
Lemma snapshot_preserved h h' cs s l ll :
  valid_snapshot h cs = true ->
  states h !! cs = Some s -> layers s = Some l -> lists h !! l = Some ll ->
  (exists s', states h' !! cs = Some s' /\ refcount s <= refcount s'
     /\ transient s' = transient s /\ width s' = width s
     /\ height s' = height s /\ background_tile s' = background_tile s
     /\ layers s' = layers s) ->
  (exists ll', lists h' !! l = Some ll' /\ ll_layers ll' = ll_layers ll
     /\ ll_transient ll' = ll_transient ll /\ ll_refcount ll <= ll_refcount ll') ->
  (forall t tile, background_tile s = Some t -> tiles h !! t = Some tile ->
     exists tile', tiles h' !! t = Some tile'
       /\ tile_pixels tile' = tile_pixels tile
       /\ tile_refcount tile <= tile_refcount tile') ->
  valid_snapshot h' cs = true /\ snapshot_view h' cs = snapshot_view h cs.
Proof.
  intros V Hs Hl Hll (s' & Hs' & Hrc & Htr & Hw & Hh & Hbg & Hls)
    (ll' & Hll' & Hlay & Hltr & Hlrc) Htiles.
  destruct (valid_snapshot_inv _ _ V)
    as (s0 & l0 & ll0 & Hs0 & Hr & Ht & Hl0 & Hll0 & Hlr & Hlt & Hbg0).
  rewrite Hs in Hs0. injection Hs0 as <-. rewrite Hl in Hl0. injection Hl0 as <-.
  rewrite Hll in Hll0. injection Hll0 as <-.
  unfold valid_snapshot, snapshot_view.
  rewrite Hs', Hs. cbn. rewrite Hls, Hl. cbn. rewrite Hll', Hll. cbn.
  rewrite Hw, Hh, Hlay, Hbg, Htr, Ht, Hltr, Hlt.
  destruct (background_tile s) as [t|] eqn:Ebg.
  - destruct (Hbg0 t eq_refl) as (tile & Htile & Htr0).
    destruct (Htiles t tile eq_refl Htile) as (tile' & Htile' & Hpx & Htrc).
    rewrite Htile', Htile. cbn. rewrite Hpx. split; [|done].
    rewrite !andb_true_iff, !Z.ltb_lt. repeat split; lia.
  - cbn. split; [|done].
    rewrite !andb_true_iff, !Z.ltb_lt. repeat split; lia.
Qed.

Lemma next_state_ne h cs s : states h !! cs = Some s -> next_state h ≠ cs.
Proof. intros Hs E. pose proof (next_state_fresh h). unfold next_state in E. congruence. Qed.
Lemma next_list_ne h l ll : lists h !! l = Some ll -> next_list h ≠ l.
Proof. intros Hs E. pose proof (next_list_fresh h). unfold next_list in E. congruence. Qed.
Lemma next_tile_ne h t tile : tiles h !! t = Some tile -> next_tile h ≠ t.
Proof. intros Hs E. pose proof (next_tile_fresh h). unfold next_tile in E. congruence. Qed.

Lemma answer_keeps_input h cs s l ll r h' :
  valid_snapshot h cs = true ->
  states h !! cs = Some s -> layers s = Some l -> lists h !! l = Some ll ->
  answer h cs s l r h' ->
  valid_snapshot h' cs = true /\ snapshot_view h' cs = snapshot_view h cs.
Proof.
  intros V Hs Hl Hll Ha.
  pose proof (next_state_ne _ _ _ Hs) as Hns.
  pose proof (next_list_ne _ _ _ Hll) as Hnl.
  destruct Ha as [| |ls|w ht ls Hw Hh|w ht Hw Hh|t Ht].
  - done.
  - eapply snapshot_preserved; try eassumption.
    + unfold with_incref. rewrite Hs. cbn [states].
      rewrite lookup_insert_eq. eexists. split; [done|]. cbn. repeat split; lia.
    + unfold with_incref. rewrite Hs. cbn [lists]. exists ll. repeat split; [done|lia].
    + unfold with_incref. rewrite Hs. cbn [tiles]. intros t tile _ Ht.
      exists tile. repeat split; [done|lia].
  - eapply snapshot_preserved; try eassumption; unfold published; cbn [states lists tiles].
    + rewrite lookup_insert_ne by done. exists s. repeat split; [done|lia].
    + rewrite lookup_insert_ne by done. exists ll. repeat split; [done|lia].
    + intros t tile _ Ht. by apply incref_tile_lookup.
  - eapply snapshot_preserved; try eassumption; unfold published; cbn [states lists tiles].
    + rewrite lookup_insert_ne by done. exists s. repeat split; [done|lia].
    + rewrite lookup_insert_ne by done. exists ll. repeat split; [done|lia].
    + intros t tile _ Ht. by apply incref_tile_lookup.
  - eapply snapshot_preserved; try eassumption; unfold published_shared;
      cbn [states lists tiles].
    + rewrite lookup_insert_ne by done. exists s. repeat split; [done|lia].
    + by apply incref_list_lookup.
    + intros t tile _ Ht'. by apply incref_tile_lookup.
  - eapply snapshot_preserved; try eassumption; unfold published_background;
      cbn [states lists tiles].
    + rewrite lookup_insert_ne by done. exists s. repeat split; [done|lia].
    + by apply incref_list_lookup.
    + intros t' tile _ Ht'. rewrite lookup_insert_ne by (by eapply next_tile_ne).
      exists tile. repeat split; [done|lia].
Qed.

(** X5.  [DP_canvas_state_handle] treats its input as immutable: whatever
    it answers to a message other than PenUp, the input snapshot is still a
    valid snapshot afterwards and shows the same size, the same background
    pixels and the same layers as before. *)
Theorem handle_keeps_its_input h cs s l ll msg r h' :
  valid_snapshot h cs = true ->
  states h !! cs = Some s -> layers s = Some l -> lists h !! l = Some ll ->
  DP_message_body msg <> MsgPenUp ->
  DP_canvas_state_handle cs msg h = Some (r, h') ->
  valid_snapshot h' cs = true /\ snapshot_view h' cs = snapshot_view h cs.
Proof.
  intros V Hs Hl Hll Hpen Hrun.
  eapply answer_keeps_input; try eassumption.
  eapply handle_answers; eassumption.
Qed.


Lemma tile_decref_last h p t :
  tiles h !! p = Some t -> tile_refcount t = 1 ->
  DP_tile_decref_nullable (Some p) h
  = Some (tt, mkHeap (states h) (lists h) (delete p (tiles h))).
Proof.
  intros Hp Hr. cbn. unfold DP_tile_decref. mstep. rewrite Hr. reflexivity.
Qed.

Lemma answer_release h cs s l ll p h' :
  valid_snapshot h cs = true ->
  states h !! cs = Some s -> layers s = Some l -> lists h !! l = Some ll ->
  answer h cs s l (Some p) h' ->
  DP_canvas_state_decref p h' = Some (tt, h).
Proof.
  intros V Hs Hl Hll Ha.
  destruct (valid_snapshot_inv _ _ V)
    as (s0 & l0 & ll0 & Hs0 & Hr & Ht & Hl0 & Hll0 & Hlr & Hlt & Hbg0).
  rewrite Hs in Hs0. injection Hs0 as <-. rewrite Hl in Hl0. injection Hl0 as <-.
  rewrite Hll in Hll0. injection Hll0 as <-.
  pose proof (next_state_fresh h) as Hfs. pose proof (next_list_fresh h) as Hfl.
  pose proof (next_tile_fresh h) as Hft.
  inversion Ha as [| |ls|w ht ls Hw Hh|w ht Hw Hh|t Htr]; subst.
  - (* the input itself *)
    unfold with_incref. rewrite Hs. unfold DP_canvas_state_decref.
    mstep. mstep_by ltac:(apply DP_ASSERT_true; cbn; apply Z.ltb_lt; lia).
    cbn [refcount set_refcount].
    destruct (Z.eqb_spec (refcount s + 1 - 1) 0); [lia|].
    unfold store_state. cbn. do 2 f_equal. apply heap_ext; cbn; try done.
    rewrite insert_insert_eq. apply insert_id. rewrite Hs. f_equal.
    destruct s; unfold set_refcount; cbn; f_equal; lia.
  - change (DP_canvas_state_decref ?p) with (DP_transient_canvas_state_decref p).
    unfold published.
    erewrite (discard_spec_own _ _ _ (next_list h) _ (tiles h));
      [|solve_lookup|reflexivity|reflexivity|solve_lookup|reflexivity|reflexivity
       |exact Hbg0].
    cbn. do 2 f_equal. apply heap_ext; cbn; try done; by apply delete_insert_id.
  - change (DP_canvas_state_decref ?p) with (DP_transient_canvas_state_decref p).
    unfold published.
    erewrite (discard_spec_own _ _ _ (next_list h) _ (tiles h));
      [|solve_lookup|reflexivity|reflexivity|solve_lookup|reflexivity|reflexivity
       |exact Hbg0].
    cbn. do 2 f_equal. apply heap_ext; cbn; try done; by apply delete_insert_id.
  - change (DP_canvas_state_decref ?p) with (DP_transient_canvas_state_decref p).
    unfold published_shared, incref_list. rewrite Hll.
    erewrite (discard_spec_shared _ _ _ l _ (tiles h));
      [|solve_lookup|reflexivity|reflexivity|solve_lookup|cbn; lia|reflexivity
       |exact Hbg0].
    cbn. do 2 f_equal. apply heap_ext; cbn; try done.
    + by apply delete_insert_id.
    + rewrite insert_insert_eq. apply insert_id. rewrite Hll. f_equal.
      destruct ll; cbn; f_equal; lia.
  - unfold published_background, incref_list. rewrite Hll.
    unfold DP_canvas_state_decref.
    mstep. mstep. cbn [refcount background_tile layers]. change (1 - 1 =? 0) with true.
    cbn iota.
    mstep_by ltac:(eapply tile_decref_last; [solve_lookup|exact Htr]).
    mstep.
    mstep_by ltac:(eapply layer_list_decref_keep; [solve_lookup|cbn; lia]).
    unfold free_state. cbn. do 2 f_equal. apply heap_ext; cbn.
    + by apply delete_insert_id.
    + rewrite insert_insert_eq. apply insert_id. rewrite Hll. f_equal.
      destruct ll; cbn; f_equal; lia.
    + by apply delete_insert_id.
Qed.

(** X6.  Nothing [DP_canvas_state_handle] allocates outlives the snapshot
    it returns: for every message other than PenUp, releasing the returned
    snapshot with [DP_canvas_state_decref] gives back exactly the heap from
    before the call, with every state, layer list and tile and every
    reference count as it was. *)
Theorem handle_then_decref_restores_heap h cs s l ll msg p h' :
  valid_snapshot h cs = true ->
  states h !! cs = Some s -> layers s = Some l -> lists h !! l = Some ll ->
  DP_message_body msg <> MsgPenUp ->
  DP_canvas_state_handle cs msg h = Some (Some p, h') ->
  DP_canvas_state_decref p h' = Some (tt, h).
Proof.
  intros V Hs Hl Hll Hpen Hrun.
  eapply answer_release; try eassumption.
  eapply handle_answers; eassumption.
Qed.


(** The snapshot a handler published is valid when its parts are in place. *)
Lemma valid_snapshot_intro h p s q x :
  states h !! p = Some s -> 0 < refcount s -> transient s = false ->
  layers s = Some q -> lists h !! q = Some x -> 0 < ll_refcount x ->
  ll_transient x = false ->
  (forall t, background_tile s = Some t ->
     exists tile, tiles h !! t = Some tile /\ 0 < tile_refcount tile) ->
  valid_snapshot h p = true.
Proof.
  intros Hs Hr Ht Hl Hq Hqr Hqt Hbg. unfold valid_snapshot.
  rewrite Hs, Hl, Hq, Ht, Hqt.
  destruct (background_tile s) as [t|].
  - destruct (Hbg t eq_refl) as (tile & -> & Htr).
    rewrite !andb_true_iff, !Z.ltb_lt. repeat split; lia.
  - rewrite !andb_true_iff, !Z.ltb_lt. repeat split; lia.
Qed.

Lemma incref_tile_live bg (T : gmap positive DP_Tile) :
  (forall t, bg = Some t -> exists tile, T !! t = Some tile /\ 0 < tile_refcount tile) ->
  forall t, bg = Some t ->
    exists tile, incref_tile bg T !! t = Some tile /\ 0 < tile_refcount tile.
Proof.
  intros Hbg t ->. destruct (Hbg t eq_refl) as (tile & Ht & Hr).
  destruct (incref_tile_lookup (Some t) T t tile Ht) as (tile' & Ht' & _ & Hle).
  exists tile'. split; [done|lia].
Qed.

Lemma answer_result h cs s l ll p h' :
  valid_snapshot h cs = true ->
  states h !! cs = Some s -> layers s = Some l -> lists h !! l = Some ll ->
  answer h cs s l (Some p) h' ->
  valid_snapshot h' p = true
  /\ exists s', states h' !! p = Some s'
       /\ ((width s' = width s /\ height s' = height s)
           \/ (1 <= width s' <= INT16_MAX /\ 1 <= height s' <= INT16_MAX)).
Proof.
  intros V Hs Hl Hll Ha.
  destruct (answer_keeps_input _ _ _ _ _ _ _ V Hs Hl Hll Ha) as [V' _].
  destruct (valid_snapshot_inv _ _ V)
    as (s0 & l0 & ll0 & Hs0 & Hr & Ht & Hl0 & Hll0 & Hlr & Hlt & Hbg0).
  rewrite Hs in Hs0. injection Hs0 as <-. rewrite Hl in Hl0. injection Hl0 as <-.
  rewrite Hll in Hll0. injection Hll0 as <-.
  inversion Ha as [| |ls|w ht ls Hw Hh|w ht Hw Hh|t Htr]; subst.
  - split; [done|]. destruct (valid_snapshot_inv _ _ V') as (s' & ? & ? & Hs' & _).
    exists s'. split; [done|]. left.
    unfold with_incref in Hs'. rewrite Hs in Hs'. cbn in Hs'.
    rewrite lookup_insert_eq in Hs'. by injection Hs' as <-.
  - split.
    + eapply valid_snapshot_intro; unfold published; cbn [states lists tiles];
        [solve_lookup|cbn; lia|reflexivity|reflexivity|solve_lookup|cbn; lia
        |reflexivity|by apply incref_tile_live].
    + eexists. split; [unfold published; solve_lookup|]. by left.
  - split.
    + eapply valid_snapshot_intro; unfold published; cbn [states lists tiles];
        [solve_lookup|cbn; lia|reflexivity|reflexivity|solve_lookup|cbn; lia
        |reflexivity|by apply incref_tile_live].
    + eexists. split; [unfold published; solve_lookup|]. by right.
  - destruct (incref_list_lookup l (lists h) l ll Hll) as (ll' & Hll' & _ & Htr' & Hrc').
    split.
    + eapply valid_snapshot_intro; unfold published_shared; cbn [states lists tiles];
        [solve_lookup|cbn; lia|reflexivity|reflexivity|exact Hll'|lia
        |congruence|by apply incref_tile_live].
    + eexists. split; [unfold published_shared; solve_lookup|]. by right.
  - destruct (incref_list_lookup l (lists h) l ll Hll) as (ll' & Hll' & _ & Htr' & Hrc').
    split.
    + eapply valid_snapshot_intro; unfold published_background;
        cbn [states lists tiles];
        [solve_lookup|cbn; lia|reflexivity|reflexivity|exact Hll'|lia
        |congruence|].
      cbn. intros t' [= <-]. exists t. rewrite lookup_insert_eq. split; [done|lia].
    + eexists. split; [unfold published_background; solve_lookup|]. by left.
Qed.

Lemma handle_pen_up_result h cs s l ll context_id :
  valid_snapshot h cs = true ->
  states h !! cs = Some s -> layers s = Some l -> lists h !! l = Some ll ->
  exists p h',
    handle_pen_up cs context_id h = Some (Some p, h')
    /\ valid_snapshot h' cs = true
    /\ valid_snapshot h' p = true
    /\ exists s', states h' !! p = Some s'
         /\ width s' = width s /\ height s' = height s.
Proof.
  intros V Hs Hl Hll. unfold handle_pen_up.
  destruct (valid_snapshot_inv _ _ V)
    as (s0 & l0 & ll0 & Hs0 & Hr & Ht & Hl0 & Hll0 & Hlr & Hlt & Hbg0).
  rewrite Hs in Hs0. injection Hs0 as <-. rewrite Hl in Hl0. injection Hl0 as <-.
  rewrite Hll in Hll0. injection Hll0 as <-.
  destruct (pen_up_layers_total h cs s l ll context_id
              (DP_uint_to_int context_id) V Hs Hl Hll
              (length (ll_layers ll)) 0 None h
              (pen_up_idle _ _ _ _) ltac:(lia)) as (tcs & h' & Hrun & Hph).
  cstep. cstep. unfold DP_layer_list_layer_count. cstep. cstep.
  cstep_by ltac:(exact Hrun).
  destruct Hph as [|A B HA HB].
  - cstep_by ltac:(by apply canvas_state_incref_spec).
    assert (Ha : answer h cs s l (Some cs) (with_incref h cs)) by constructor.
    destruct (answer_keeps_input _ _ _ _ _ _ _ V Hs Hl Hll Ha) as [V' _].
    destruct (answer_result _ _ _ _ _ _ _ V Hs Hl Hll Ha) as (_ & s' & Hs' & Hsz).
    eexists _, _. split; [reflexivity|]. repeat split; try done.
    exists s'. split; [done|].
    unfold with_incref in Hs'. rewrite Hs in Hs'. cbn in Hs'.
    rewrite lookup_insert_eq in Hs'. by injection Hs' as <-.
  - pose proof (q_neq_l h l ll Hll) as Hq.
    pose proof (next_state_ne _ _ _ Hs) as Hns.
    unfold pen_up_heap.
    cstep_by ltac:(eapply persist_spec_transient;
      [solve_lookup | cbn; lia | reflexivity | reflexivity | solve_lookup | reflexivity]).
    eexists _, _. split; [reflexivity|]. repeat split.
    + eapply valid_snapshot_intro; cbn [states lists tiles];
        [solve_lookup|exact Hr|exact Ht|exact Hl|solve_lookup|cbn; lia
        |reflexivity|by apply incref_tile_live].
    + eapply valid_snapshot_intro; cbn [states lists tiles];
        [solve_lookup|cbn; lia|reflexivity|reflexivity|solve_lookup|cbn; lia
        |reflexivity|by apply incref_tile_live].
    + eexists. split; [solve_lookup|]. done.
Qed.

Lemma pen_up_or_not (body : MessageBody) : body = MsgPenUp \/ body <> MsgPenUp.
Proof. destruct body; (by left) || (by right). Qed.

(** X7.  What [DP_canvas_state_handle] returns can be handled again:
    for every message, PenUp included, the returned snapshot is a valid
    persisted snapshot (alive, not transient, with a live persistent layer
    list and a live background tile), and so is the input afterwards. *)
Theorem handle_returns_a_valid_snapshot h cs s l ll msg p h' :
  valid_snapshot h cs = true ->
  states h !! cs = Some s -> layers s = Some l -> lists h !! l = Some ll ->
  DP_canvas_state_handle cs msg h = Some (Some p, h') ->
  valid_snapshot h' p = true /\ valid_snapshot h' cs = true.
Proof.
  intros V Hs Hl Hll Hrun.
  destruct (pen_up_or_not (DP_message_body msg)) as [Hpen|Hpen].
  - rewrite (handle_dispatch h cs s) in Hrun by assumption. cbv zeta in Hrun.
    rewrite Hpen in Hrun.
    destruct (handle_pen_up_result h cs s l ll (DP_message_context_id msg)
                V Hs Hl Hll) as (p' & h'' & Hrun' & V1 & V2 & _).
    rewrite Hrun' in Hrun. by injection Hrun as <- <-.
  - pose proof (handle_answers _ _ _ _ _ _ _ _ V Hs Hl Hll Hpen Hrun) as Ha.
    split.
    + by destruct (answer_result _ _ _ _ _ _ _ V Hs Hl Hll Ha).
    + by destruct (answer_keeps_input _ _ _ _ _ _ _ V Hs Hl Hll Ha).
Qed.

(** X8.  The size of the canvas stays admissible: if the input snapshot is
    empty (0 by 0, as [DP_canvas_state_new] makes it) or has a width and a
    height between 1 and [INT16_MAX], then so has every snapshot
    [DP_canvas_state_handle] returns. *)
Theorem handle_keeps_the_size_admissible h cs s l ll msg p h' :
  valid_snapshot h cs = true ->
  states h !! cs = Some s -> layers s = Some l -> lists h !! l = Some ll ->
  canvas_size_ok (width s) (height s) ->
  DP_canvas_state_handle cs msg h = Some (Some p, h') ->
  exists s', states h' !! p = Some s' /\ canvas_size_ok (width s') (height s').
Proof.
  intros V Hs Hl Hll Hok Hrun.
  destruct (pen_up_or_not (DP_message_body msg)) as [Hpen|Hpen].
  - rewrite (handle_dispatch h cs s) in Hrun by assumption. cbv zeta in Hrun.
    rewrite Hpen in Hrun.
    destruct (handle_pen_up_result h cs s l ll (DP_message_context_id msg)
                V Hs Hl Hll) as (p' & h'' & Hrun' & _ & _ & s' & Hs' & Hw & Hh).
    rewrite Hrun' in Hrun. injection Hrun as <- <-.
    exists s'. split; [done|]. by rewrite Hw, Hh.
  - pose proof (handle_answers _ _ _ _ _ _ _ _ V Hs Hl Hll Hpen Hrun) as Ha.
    destruct (answer_result _ _ _ _ _ _ _ V Hs Hl Hll Ha) as (_ & s' & Hs' & Hsz).
    exists s'. split; [done|].
    destruct Hsz as [[-> ->]|Hsz]; [done|by right].
Qed.


(** X1.  [DP_canvas_state_new] makes a valid snapshot of an empty canvas:
    0 by 0 pixels, no background tile, no layers, one reference.  Dropping
    that reference with [DP_canvas_state_decref] releases the state and its
    layer list and leaves the heap exactly as it was before the call. *)
Theorem canvas_state_new_then_decref h :
  exists cs h',
    DP_canvas_state_new h = Some (cs, h')
    /\ states h !! cs = None
    /\ valid_snapshot h' cs = true
    /\ snapshot_view h' cs = Some (0, 0, None, [])
    /\ DP_canvas_state_decref cs h' = Some (tt, h).
Proof.
  pose proof (next_state_fresh h) as Hfs. pose proof (next_list_fresh h) as Hfl.
  unfold DP_canvas_state_new, allocate_canvas_state, DP_layer_list_new.
  eexists _, _. split; [|split; [exact Hfs|]].
  - mstep. mstep. mstep. mstep. reflexivity.
  - unfold set_layers. cbn [refcount transient width height background_tile].
    rewrite insert_insert_eq. repeat split.
    + eapply valid_snapshot_intro; cbn [states lists tiles];
        [solve_lookup|cbn; lia|reflexivity|reflexivity|solve_lookup|cbn; lia
        |reflexivity|done].
    + unfold snapshot_view. cbn [states lists tiles].
      rewrite lookup_insert_eq. cbn. rewrite lookup_insert_eq. reflexivity.
    + unfold DP_canvas_state_decref.
      mstep. mstep. cbn [refcount background_tile layers DP_tile_decref_nullable].
      change (1 - 1 =? 0) with true. cbn iota.
      mstep. mstep.
      mstep_by ltac:(eapply layer_list_decref_free; [solve_lookup|reflexivity]).
      unfold free_state. cbn. do 2 f_equal.
      apply heap_ext; cbn; try done; by apply delete_insert_id.
Qed.

(** X2.  Taking a reference to a live canvas state and dropping it again,
    [DP_canvas_state_incref] then [DP_canvas_state_decref], leaves the heap
    as it was; nothing is released on the way. *)
Theorem canvas_state_incref_then_decref h cs s :
  states h !! cs = Some s -> 0 < refcount s ->
  (p ← DP_canvas_state_incref cs; DP_canvas_state_decref p) h = Some (tt, h).
Proof.
  intros Hs Hr. unfold DP_canvas_state_incref.
  cstep. cstep. cstep. cstep. unfold DP_canvas_state_decref.
  mstep. mstep_by ltac:(apply DP_ASSERT_true; cbn; apply Z.ltb_lt; lia).
  cbn [refcount set_refcount].
  destruct (Z.eqb_spec (refcount s + 1 - 1) 0); [lia|].
  unfold store_state. cbn. do 2 f_equal. apply heap_ext; cbn; try done.
  rewrite insert_insert_eq. apply insert_id. rewrite Hs. f_equal.
  destruct s; unfold set_refcount; cbn; f_equal; lia.
Qed.

(** X3.  A transient canvas state that is dropped without being persisted
    leaves no trace: [DP_transient_canvas_state_new] followed by
    [DP_transient_canvas_state_decref] gives back the heap it started from,
    with the input snapshot, its layer list and its background tile at
    their old reference counts. *)
Theorem transient_new_then_decref h cs :
  valid_snapshot h cs = true ->
  (tcs ← DP_transient_canvas_state_new cs;
   DP_transient_canvas_state_decref tcs) h = Some (tt, h).
Proof.
  intros V.
  destruct (valid_snapshot_inv _ _ V)
    as (s & l & ll & Hs & Hr & Ht & Hl & Hll & Hlr & Hlt & Hbg).
  pose proof (next_state_fresh h) as Hfs.
  mstep_by ltac:(eapply new_spec; eassumption).
  erewrite (discard_spec_shared _ _ _ l _ (tiles h));
    [|solve_lookup|reflexivity|reflexivity|solve_lookup|cbn; lia|reflexivity
     |exact Hbg].
  cbn. do 2 f_equal. apply heap_ext; cbn; try done.
  - by apply delete_insert_id.
  - rewrite insert_insert_eq. apply insert_id. rewrite Hll. f_equal.
    destruct ll; cbn; f_equal; lia.
Qed.

(** X4.  [get_transient_layer_list] copies the layer list of a transient
    state once: the first call on a fresh transient state clones the shared
    list into a new transient list and gives the shared list its reference
    back; a second call returns that same list and changes nothing. *)
Theorem get_transient_layer_list_copies_once h cs s l ll n :
  valid_snapshot h cs = true ->
  states h !! cs = Some s -> layers s = Some l -> lists h !! l = Some ll ->
  0 <= n ->
  exists tcs tll h1,
    (tcs ← DP_transient_canvas_state_new cs;
     tll ← get_transient_layer_list tcs n; mret (tcs, tll)) h
    = Some ((tcs, tll), h1)
    /\ lists h !! tll = None
    /\ lists h1 !! tll = Some (mkLayerList 1 true (ll_layers ll))
    /\ lists h1 !! l = Some ll
    /\ get_transient_layer_list tcs 0 h1 = Some (tll, h1).
Proof.
  intros V Hs Hl Hll Hn.
  destruct (valid_snapshot_inv _ _ V)
    as (s0 & l0 & ll0 & Hs0 & Hr & Ht & Hl0 & Hll0 & Hlr & Hlt & Hbg0).
  rewrite Hs in Hs0. injection Hs0 as <-. rewrite Hl in Hl0. injection Hl0 as <-.
  rewrite Hll in Hll0. injection Hll0 as <-.
  pose proof (next_list_fresh h) as Hfl.
  assert (Hdom : dom (<[l:=mkLayerList (ll_refcount ll + 1) (ll_transient ll)
                          (ll_layers ll)]> (lists h)) = dom (lists h)).
  { apply dom_insert_lookup_L. eauto. }
  eexists _, _, _. split; [|split; [exact Hfl|]].
  - mstep_by ltac:(eapply new_spec; eassumption).
    mstep_by ltac:(eapply get_transient_layer_list_spec;
      [solve_lookup | cbn; lia | reflexivity | reflexivity | solve_lookup
      | cbn; assumption | cbn; lia | assumption ]).
    rewrite Hdom. reflexivity.
  - set (q := fresh (dom (lists h))) in *.
    assert (q ≠ l) by congruence.
    cbn [states lists tiles]. repeat split.
    + solve_lookup.
    + rewrite lookup_insert_eq. f_equal. destruct ll; cbn; f_equal. lia.
    + unfold get_transient_layer_list.
      mstep. mstep. mstep. mstep. mstep.
      mstep_by ltac:(eapply layer_list_transient_spec; solve_lookup).
      reflexivity.
Qed.

End Answers.

(** ** Canvas diff ([canvas_diff.c]) *)

Section CanvasDiffProps.
Import CInt CanvasDiff.

Lemma fold_write_length b (idx : list Z) block :
  length (fold_left (fun tc i => write_flag tc i b) idx block) = length block.
Proof.
  revert block. induction idx as [|i idx IH]; intros block; cbn; [done|].
  rewrite IH. unfold write_flag. by rewrite length_insert.
Qed.

Lemma fold_write_lookup b (idx : list Z) block (n : nat) :
  fold_left (fun tc i => write_flag tc i b) idx block !! n
  = if bool_decide (n ∈ Z.to_nat <$> idx) then const b <$> block !! n
    else block !! n.
Proof.
  revert block. induction idx as [|i idx IH]; intros block; cbn [fold_left].
  - done.
  - rewrite IH. unfold write_flag. rewrite fmap_cons.
    destruct (decide (n = Z.to_nat i)) as [->|Hne].
    + rewrite (bool_decide_eq_true_2 (_ ∈ _ :: _)) by left.
      destruct (block !! Z.to_nat i) eqn:E.
      * rewrite list_lookup_insert_eq by (by eapply lookup_lt_Some).
        by case_bool_decide.
      * rewrite list_insert_ge by (by apply lookup_ge_None). rewrite E.
        by case_bool_decide.
    + rewrite list_lookup_insert_ne by done.
      assert (n ∈ Z.to_nat i :: (Z.to_nat <$> idx) <-> n ∈ Z.to_nat <$> idx)
        as Hiff
        by (rewrite elem_of_cons; split; [intros [?|?]; [congruence|done]|by right]).
      by rewrite (bool_decide_ext _ _ Hiff).
Qed.

Lemma elem_of_to_nat_seqZ (n : nat) c :
  n ∈ Z.to_nat <$> seqZ 0 c <-> Z.of_nat n < c.
Proof.
  rewrite list_elem_of_fmap. split.
  - intros (i & -> & Hi%elem_of_seqZ). lia.
  - intros Hn. exists (Z.of_nat n). split; [lia|]. apply elem_of_seqZ. lia.
Qed.

(** Writing [b] to the flags below [c]. *)
Lemma fill_lookup b c block i :
  0 <= i < c -> Z.of_nat (length block) >= c ->
  fold_left (fun tc i => write_flag tc i b) (seqZ 0 c) block !! Z.to_nat i
  = Some b.
Proof.
  intros Hi Hlen. rewrite fold_write_lookup.
  rewrite bool_decide_eq_true_2 by (apply elem_of_to_nat_seqZ; lia).
  destruct (lookup_lt_is_Some_2 block (Z.to_nat i)) as [x ->]; [lia|done].
Qed.

Lemma existsb_read_fill b c block :
  Z.of_nat (length block) >= c ->
  existsb (read_flag (fold_left (fun tc i => write_flag tc i b) (seqZ 0 c) block))
    (seqZ 0 c) = b && (0 <? c).
Proof.
  intros Hlen. set (blk := fold_left _ _ _).
  assert (Hall : forall i, i ∈ seqZ 0 c -> read_flag blk i = b).
  { intros i Hi%elem_of_seqZ. unfold read_flag, blk.
    rewrite fill_lookup by lia. done. }
  destruct (Z.ltb_spec 0 c) as [Hc|Hc].
  - rewrite andb_true_r. destruct b.
    + apply existsb_exists. exists 0. split.
      * apply list_elem_of_In, elem_of_seqZ. lia.
      * apply Hall, elem_of_seqZ. lia.
    + apply not_true_is_false. intros (i & Hi%list_elem_of_In & Hr)%existsb_exists.
      rewrite Hall in Hr by done. done.
  - rewrite seqZ_nil by lia. by rewrite andb_false_r.
Qed.

Lemma begin_wf rnd junk d ow oh cw ch lpc d' :
  diff_wf d ->
  DP_canvas_diff_begin rnd junk d ow oh cw ch lpc = Some d' -> diff_wf d'.
Proof.
  intros (Hc & Hr & Hl). unfold DP_canvas_diff_begin.
  destruct (_ && _); [|done].
  destruct (Z.ltb_spec (tile_changes_reserved d) (int_mul (rnd cw) (rnd ch)))
    as [Hlt|Hge]; intros [= <-]; unfold diff_wf; cbn;
    rewrite fold_write_length.
  - unfold DP_realloc. rewrite length_resize. lia.
  - lia.
Qed.

Lemma check_fold_length {D} (fn : D -> Z -> bool * D) idx block data :
  length (fold_left
            (fun '(tile_changes, data) i =>
               if read_flag tile_changes i then (tile_changes, data)
               else
                 let '(changed, data') := fn data i in
                 if (changed : bool) then (write_flag tile_changes i true, data')
                 else (tile_changes, data'))
            idx (block, data)).1 = length block.
Proof.
  revert block data. induction idx as [|i idx IH]; intros block data; [done|].
  cbn [fold_left]. destruct (read_flag block i); [apply IH|].
  destruct (fn data i) as [[] data']; rewrite IH; [|done].
  unfold write_flag. by rewrite length_insert.
Qed.

Lemma check_wf {D} d (fn : D -> Z -> bool * D) data :
  diff_wf d -> diff_wf (DP_canvas_diff_check d fn data).1.
Proof.
  intros (Hc & Hr & Hl). unfold DP_canvas_diff_check.
  pose proof (check_fold_length fn (seqZ 0 (count d)) (tile_changes d) data) as E.
  destruct (fold_left _ _ _) as [block data']. cbn in *.
  unfold diff_wf. cbn. rewrite E. lia.
Qed.

(** X9.  Every diff made by [DP_canvas_diff_new] and passed through
    [DP_canvas_diff_begin], [DP_canvas_diff_check],
    [DP_canvas_diff_check_all] and
    [DP_canvas_diff_layer_props_changed_reset], in any order and with any
    arguments, keeps a block of exactly [tile_changes_reserved] flags that
    is at least [count] long: each flag the loops of [canvas_diff.c] read or
    write lies inside the allocated block. *)
Theorem canvas_diff_block_covers_count rnd d :
  diff_reachable rnd d ->
  Z.of_nat (length (tile_changes d)) = tile_changes_reserved d
  /\ count d <= tile_changes_reserved d
  /\ forall i, 0 <= i < count d -> is_Some (tile_changes d !! Z.to_nat i).
Proof.
  intros Hr.
  assert (Hwf : diff_wf d).
  { induction Hr as [|d junk ow oh cw ch lpc d' _ IH Hb|D d fn data _ IH
                    |d _ IH|d _ IH].
    - unfold diff_wf. cbn. lia.
    - by eapply begin_wf.
    - by apply check_wf.
    - destruct IH as (Hc & Hr & Hl). unfold diff_wf. cbn.
      rewrite fold_write_length. lia.
    - exact IH. }
  destruct Hwf as (Hc & Hr' & Hl). repeat split; try done.
  intros i Hi. apply lookup_lt_is_Some_2. lia.
Qed.

(** X10.  [DP_canvas_diff_begin] on a diff whose block covers its count, with
    non-negative dimensions: the diff counts [xtiles * ytiles] tiles, every
    one of them is flagged exactly when the dimensions changed (whatever the
    block held before), and [DP_canvas_diff_tiles_changed] then answers
    "changed" iff the dimensions changed and there is at least one tile. *)
Theorem canvas_diff_begin_flags rnd junk d ow oh cw ch lpc :
  diff_wf d -> 0 <= ow -> 0 <= oh -> 0 <= cw -> 0 <= ch ->
  let init := negb (ow =? cw) || negb (oh =? ch) in
  exists d',
    DP_canvas_diff_begin rnd junk d ow oh cw ch lpc = Some d'
    /\ count d' = int_mul (rnd cw) (rnd ch)
    /\ (forall i, 0 <= i < count d' ->
          tile_changes d' !! Z.to_nat i = Some init)
    /\ DP_canvas_diff_tiles_changed d' = init && (0 <? count d')
    /\ layer_props_changed d' = lpc.
Proof.
  intros (Hc & Hr & Hl) Hw Hh Hcw Hch init.
  unfold DP_canvas_diff_begin.
  rewrite !(proj2 (Z.leb_le 0 _)) by done. cbn [andb].
  set (c := int_mul (rnd cw) (rnd ch)).
  assert (Hlen : Z.of_nat (length
            (if tile_changes_reserved d <? c
             then DP_realloc junk (tile_changes d) c else tile_changes d)) >= c).
  { destruct (Z.ltb_spec (tile_changes_reserved d) c).
    - unfold DP_realloc. rewrite length_resize. lia.
    - lia. }
  destruct (tile_changes_reserved d <? c) eqn:E;
    (eexists; split; [reflexivity|]); cbn [count tile_changes layer_props_changed];
    unfold DP_canvas_diff_tiles_changed; cbn [count tile_changes];
    (repeat split; [intros i Hi; by apply fill_lookup|by apply existsb_read_fill]).
Qed.


Lemma read_write_eq block i b :
  0 <= i -> Z.of_nat (length block) > i ->
  read_flag (write_flag block i b) i = b.
Proof.
  intros Hi Hl. unfold read_flag, write_flag.
  rewrite list_lookup_insert_eq by lia. done.
Qed.

Lemma read_write_ne block i j b :
  0 <= i -> 0 <= j -> i <> j ->
  read_flag (write_flag block i b) j = read_flag block j.
Proof.
  intros Hi Hj Hne. unfold read_flag, write_flag.
  rewrite list_lookup_insert_ne by lia. done.
Qed.

(** The loop of [DP_canvas_diff_check] over distinct indices of the block,
    for a callback whose answer depends on the index only. *)
Lemma check_fold_spec {D} (p : Z -> bool) (step : D -> Z -> D) idx :
  NoDup idx ->
  forall block data,
  Forall (fun i => 0 <= i < Z.of_nat (length block)) idx ->
  let r :=
    fold_left
      (fun '(tile_changes, data) i =>
         if read_flag tile_changes i then (tile_changes, data)
         else
           let '(changed, data') := (p i, step data i) in
           if (changed : bool) then (write_flag tile_changes i true, data')
           else (tile_changes, data'))
      idx (block, data) in
  (forall j, 0 <= j ->
     read_flag r.1 j
     = if bool_decide (j ∈ idx) then read_flag block j || p j
       else read_flag block j)
  /\ r.2 = fold_left step
             (List.filter (fun i => negb (read_flag block i)) idx) data.
Proof.
  induction 1 as [|i idx Hni Hnd IH]; intros block data Hin; cbn zeta.
  - cbn. split; [|done]. intros j Hj. by rewrite bool_decide_eq_false_2 by set_solver.
  - apply Forall_cons in Hin as [Hi Hin]. cbn [fold_left List.filter].
    set (st := if read_flag block i then (block, data)
               else if p i then (write_flag block i true, step data i)
                    else (block, step data i)).
    assert (Hst : length st.1 = length block
                  /\ (forall j, 0 <= j -> read_flag st.1 j
                        = if bool_decide (j = i) then read_flag block j || p j
                          else read_flag block j)
                  /\ st.2 = if negb (read_flag block i) then step data i else data).
    { unfold st. destruct (read_flag block i) eqn:Er; cbn.
      - repeat split. intros j Hj. case_bool_decide; subst; [by rewrite Er|done].
      - destruct (p i) eqn:Ep; cbn.
        + unfold write_flag at 1. rewrite length_insert. repeat split.
          intros j Hj. case_bool_decide; subst.
          * rewrite read_write_eq by lia. by rewrite Ep, orb_true_r.
          * by rewrite read_write_ne by lia.
        + repeat split. intros j Hj. case_bool_decide; subst; [by rewrite Er, Ep|done]. }
    destruct Hst as (Hlen & Hread & Hdata).
    change (fold_left _ idx _) with
      (fold_left
         (fun '(tile_changes, data) i =>
            if read_flag tile_changes i then (tile_changes, data)
            else
              let '(changed, data') := (p i, step data i) in
              if (changed : bool) then (write_flag tile_changes i true, data')
              else (tile_changes, data'))
         idx st).
    destruct st as [block1 data1]. cbn [fst snd] in *.
    destruct (IH block1 data1) as [IHr IHd].
    { rewrite Hlen. exact Hin. }
    cbn zeta in IHr, IHd. split.
    + intros j Hj. rewrite IHr, Hread by done.
      destruct (decide (j = i)) as [->|Hne].
      * rewrite (bool_decide_eq_false_2 (i ∈ idx)) by done.
        rewrite !bool_decide_eq_true_2; [done|left|done].
      * rewrite (bool_decide_eq_false_2 (j = i)) by done.
        assert (j ∈ i :: idx <-> j ∈ idx) as Hiff
          by (rewrite elem_of_cons; split; [intros [?|?]; [congruence|done]|by right]).
        by rewrite (bool_decide_ext _ _ Hiff).
    + rewrite IHd, Hdata.
      assert (Hf : List.filter (fun i => negb (read_flag block1 i)) idx
                   = List.filter (fun i => negb (read_flag block i)) idx).
      { apply filter_ext_in. intros j Hj%list_elem_of_In.
        rewrite Hread by (rewrite Forall_forall in Hin; apply Hin in Hj; lia).
        rewrite bool_decide_eq_false_2 by (intros ->; done). done. }
      rewrite Hf. by destruct (negb (read_flag block i)).
Qed.

(** X11.  [DP_canvas_diff_check] with a callback whose answer depends on the
    tile index only: afterwards a tile is flagged iff it was flagged before
    or the callback reports it, so no flag is ever cleared; and the callback
    ran exactly on the tiles that were not flagged, in increasing order. *)
Theorem canvas_diff_check_marks {D} d (p : Z -> bool) (step : D -> Z -> D) data :
  diff_wf d ->
  let r := DP_canvas_diff_check d (fun data i => (p i, step data i)) data in
  (forall i, 0 <= i < count d ->
     read_flag (tile_changes r.1) i = read_flag (tile_changes d) i || p i)
  /\ r.2 = fold_left step
             (List.filter (fun i => negb (read_flag (tile_changes d) i))
                (seqZ 0 (count d)))
             data
  /\ count r.1 = count d.
Proof.
  intros (Hc & Hr & Hl). cbn zeta. unfold DP_canvas_diff_check.
  destruct (check_fold_spec p step (seqZ 0 (count d)) (NoDup_seqZ _ _)
              (tile_changes d) data) as [Hread Hdata].
  { apply Forall_seqZ. lia. }
  cbn zeta in Hread, Hdata.
  destruct (fold_left _ _ _) as [block data']. cbn [fst snd] in *.
  cbn [tile_changes set_tile_changes count]. repeat split; [|done].
  intros i Hi. rewrite Hread by lia.
  rewrite bool_decide_eq_true_2 by (apply elem_of_seqZ; lia). done.
Qed.

Lemma check_fold_all_set {D} (fn : D -> Z -> bool * D) idx block data :
  Forall (fun i => read_flag block i = true) idx ->
  fold_left
    (fun '(tile_changes, data) i =>
       if read_flag tile_changes i then (tile_changes, data)
       else
         let '(changed, data') := fn data i in
         if (changed : bool) then (write_flag tile_changes i true, data')
         else (tile_changes, data'))
    idx (block, data) = (block, data).
Proof.
  induction 1 as [|i idx Hi _ IH]; [done|].
  cbn [fold_left]. by rewrite Hi.
Qed.

(** X12.  After [DP_canvas_diff_check_all] every tile counts as changed:
    [DP_canvas_diff_tiles_changed] holds as soon as there is a tile, and a
    later [DP_canvas_diff_check] neither calls its callback nor changes the
    diff. *)
Theorem canvas_diff_check_all_settles {D} d (fn : D -> Z -> bool * D) data :
  diff_wf d ->
  DP_canvas_diff_tiles_changed (DP_canvas_diff_check_all d) = (0 <? count d)
  /\ DP_canvas_diff_check (DP_canvas_diff_check_all d) fn data
     = (DP_canvas_diff_check_all d, data).
Proof.
  intros (Hc & Hr & Hl). split.
  - unfold DP_canvas_diff_tiles_changed, DP_canvas_diff_check_all.
    cbn [tile_changes set_tile_changes count].
    rewrite existsb_read_fill by lia. done.
  - unfold DP_canvas_diff_check.
    rewrite check_fold_all_set.
    + unfold DP_canvas_diff_check_all, set_tile_changes. cbn. done.
    + unfold DP_canvas_diff_check_all. cbn [tile_changes set_tile_changes count].
      apply Forall_seqZ. intros i Hi. unfold read_flag.
      rewrite fill_lookup by lia. done.
Qed.


Lemma fold_left_ext_in {A B} (f g : A -> B -> A) (l : list B) (a : A) :
  (forall a b, b ∈ l -> f a b = g a b) -> fold_left f l a = fold_left g l a.
Proof.
  revert a. induction l as [|b l IH]; intros a Hfg; [done|].
  cbn. rewrite Hfg by left. apply IH. intros ???. apply Hfg. by right.
Qed.

Lemma fold_left_fmap {A B C} (f : A -> C -> A) (g : B -> C) (l : list B) (a : A) :
  fold_left f (g <$> l) a = fold_left (fun a b => f a (g b)) l a.
Proof. revert a. induction l as [|b l IH]; intros a; [done|]. cbn. apply IH. Qed.

(** The rows of a grid of [xt] columns, one after the other, are the
    indices [0 .. xt * yt). *)
Lemma seqZ_rows xt (yt : nat) :
  0 <= xt ->
  seqZ 0 (xt * Z.of_nat yt)
  = concat ((fun y => (fun x => y * xt + x) <$> seqZ 0 xt) <$> seqZ 0 (Z.of_nat yt)).
Proof.
  intros Hxt. induction yt as [|yt IH].
  - rewrite Z.mul_0_r. done.
  - rewrite seqZ_S, fmap_app, concat_app, <- IH. cbn [fmap list_fmap concat].
    rewrite app_nil_r.
    replace (xt * Z.of_nat (S yt)) with (xt * Z.of_nat yt + xt) by lia.
    rewrite seqZ_app by lia. f_equal.
    replace (seqZ (0 + xt * Z.of_nat yt) xt)
      with (seqZ (0 + xt * Z.of_nat yt + 0) xt) by (f_equal; lia).
    rewrite <- (fmap_add_seqZ (0 + xt * Z.of_nat yt) 0 xt).
    apply list_fmap_ext. intros _ x _. lia.
Qed.

Lemma fold_left_concat {A B} (f : A -> B -> A) (ls : list (list B)) (a : A) :
  fold_left f (concat ls) a = fold_left (fun a l => fold_left f l a) ls a.
Proof.
  revert a. induction ls as [|l ls IH]; intros a; [done|].
  cbn. rewrite fold_left_app. apply IH.
Qed.

(** X13.  On a diff of [xtiles * ytiles] tiles, [DP_canvas_diff_each_pos]
    reports position [(x, y)] exactly where [DP_canvas_diff_each_index]
    reports index [y * xtiles + x], and in the same order: the two
    traversals agree, row by row. *)
Theorem canvas_diff_each_pos_is_each_index {D} d (fn : D -> Z -> D) data :
  0 <= xtiles d -> 0 <= ytiles d ->
  count d = xtiles d * ytiles d -> count d <= INT_MAX ->
  DP_canvas_diff_each_pos d (fun data x y => fn data (y * xtiles d + x)) data
  = DP_canvas_diff_each_index d fn data.
Proof.
  intros Hx Hy Hc Hmax.
  unfold DP_canvas_diff_each_pos, DP_canvas_diff_each_index. cbn zeta.
  rewrite Hc. rewrite <- (Z2Nat.id (ytiles d)) at 2 by done.
  rewrite seqZ_rows by done.
  rewrite fold_left_concat, fold_left_fmap.
  rewrite Z2Nat.id by done.
  apply fold_left_ext_in. intros a y Hy'%elem_of_seqZ.
  rewrite fold_left_fmap.
  apply fold_left_ext_in. intros a' x Hx'%elem_of_seqZ.
  assert (0 <= y * xtiles d + x < xtiles d * ytiles d) by nia.
  assert (0 <= y * xtiles d <= xtiles d * ytiles d) by nia.
  unfold int_add, int_mul.
  rewrite (to_int_id (y * _)) by int_range.
  rewrite to_int_id by int_range. done.
Qed.

Lemma each_index_uniform {D} d (fn : D -> Z -> D) data b :
  (forall i, 0 <= i < count d -> read_flag (tile_changes d) i = b) ->
  DP_canvas_diff_each_index d fn data
  = fold_left fn (if b then seqZ 0 (count d) else []) data.
Proof.
  intros Hall. unfold DP_canvas_diff_each_index.
  destruct b.
  - apply fold_left_ext_in. intros a i Hi%elem_of_seqZ.
    by rewrite Hall by lia.
  - cbn [fold_left]. generalize (seqZ 0 (count d)), (Forall_seqZ
      (fun i => read_flag (tile_changes d) i = false) 0 (count d)).
    intros idx Hidx. assert (Hf : Forall (fun i => read_flag (tile_changes d) i = false) idx).
    { apply Hidx. intros i Hi. apply Hall. lia. }
    clear Hidx. revert data. induction Hf as [|i idx Hi _ IH]; intros data; [done|].
    cbn [fold_left]. rewrite Hi. apply IH.
Qed.

(** X14.  [DP_canvas_state_render] after [DP_canvas_diff_begin]: when the
    diff was begun against other dimensions than those of the snapshot, the
    target is resized and every tile [0 .. count) is rendered once, in
    index order; when the dimensions are the same and nothing else was
    checked, the target is resized and no tile is rendered. *)
Theorem render_after_begin
    (resize_to : DP_Layer -> Z -> Z -> Z -> DP_Layer)
    (render : DP_Layer -> heap -> addr -> Z -> DP_Layer)
    rnd junk d ow oh lpc h cs s target :
  diff_wf d -> 0 <= ow -> 0 <= oh ->
  states h !! cs = Some s -> 0 <= width s -> 0 <= height s ->
  exists d',
    DP_canvas_diff_begin rnd junk d ow oh (width s) (height s) lpc = Some d'
    /\ DP_canvas_state_render resize_to render cs target d' h
       = Some (fold_left (render_tile render h cs)
                 (if negb (ow =? width s) || negb (oh =? height s)
                  then seqZ 0 (count d') else [])
                 (resize_to target 0 (width s) (height s)),
               h).
Proof.
  intros (Hc & Hr & Hl) How Hoh Hs Hw Hh.
  unfold DP_canvas_diff_begin.
  rewrite !(proj2 (Z.leb_le 0 _)) by done. cbn [andb].
  set (c := int_mul (rnd (width s)) (rnd (height s))).
  assert (Hlen : Z.of_nat (length
            (if tile_changes_reserved d <? c
             then DP_realloc junk (tile_changes d) c else tile_changes d)) >= c).
  { destruct (Z.ltb_spec (tile_changes_reserved d) c).
    - unfold DP_realloc. rewrite length_resize. lia.
    - lia. }
  destruct (tile_changes_reserved d <? c) eqn:E;
    (eexists; split; [reflexivity|]);
    unfold DP_canvas_state_render; mstep; unfold M; do 2 f_equal;
    apply each_index_uniform; cbn [count tile_changes];
    intros i Hi; unfold read_flag; by rewrite fill_lookup.
Qed.

End CanvasDiffProps.

(** ** The diff of two snapshots *)

Section SnapshotDiff.
Import CInt CanvasDiff.
Context `{!LayerListOps}.

Lemma DP_tile_size_round_up_ceil i :
  0 <= i <= INT16_MAX ->
  DP_tile_size_round_up i = (i + 63) / 64
  /\ 64 * (DP_tile_size_round_up i - 1) < i <= 64 * DP_tile_size_round_up i.
Proof.
  intros Hi. unfold DP_tile_size_round_up, DP_TILE_SIZE, int_add.
  change (64 - 1) with 63.
  rewrite to_int_id by int_range.
  rewrite Z.quot_div_nonneg by int_range.
  split; [reflexivity|].
  pose proof (Z.div_mod (i + 63) 64 ltac:(lia)).
  pose proof (Z.mod_pos_bound (i + 63) 64 ltac:(lia)). lia.
Qed.

(** [DP_canvas_diff_begin] for dimensions a canvas can have. *)
Lemma canvas_diff_begin_tiles junk lpc d ow oh cw ch :
  diff_wf d -> 0 <= ow -> 0 <= oh -> 0 <= cw <= INT16_MAX -> 0 <= ch <= INT16_MAX ->
  exists d',
    DP_canvas_diff_begin DP_tile_size_round_up junk d ow oh cw ch lpc = Some d'
    /\ xtiles d' = (cw + 63) / 64 /\ ytiles d' = (ch + 63) / 64
    /\ count d' = xtiles d' * ytiles d'
    /\ (forall i, 0 <= i < count d' ->
          tile_changes d' !! Z.to_nat i
          = Some (negb ((ow =? cw) && (oh =? ch))))
    /\ DP_canvas_diff_tiles_changed d'
       = negb ((ow =? cw) && (oh =? ch)) && (0 <? count d').
Proof.
  intros (Hc & Hr & Hl) How Hoh Hcw Hch.
  unfold DP_canvas_diff_begin.
  rewrite !(proj2 (Z.leb_le 0 _)) by lia. cbn [andb].
  destruct (DP_tile_size_round_up_ceil cw Hcw) as [-> _].
  destruct (DP_tile_size_round_up_ceil ch Hch) as [-> _].
  assert (Hx : 0 <= (cw + 63) / 64 <= 512)
    by (unfold INT16_MAX in *; Z.div_mod_to_equations; lia).
  assert (Hy : 0 <= (ch + 63) / 64 <= 512)
    by (unfold INT16_MAX in *; Z.div_mod_to_equations; lia).
  assert (Ec : int_mul ((cw + 63) / 64) ((ch + 63) / 64)
               = (cw + 63) / 64 * ((ch + 63) / 64)).
  { unfold int_mul. apply to_int_id.
    assert (0 <= (cw + 63) / 64 * ((ch + 63) / 64) <= 512 * 512) by nia.
    int_range. }
  rewrite Ec. set (c := (cw + 63) / 64 * ((ch + 63) / 64)).
  replace (negb (ow =? cw) || negb (oh =? ch))
    with (negb ((ow =? cw) && (oh =? ch)))
    by (by destruct (ow =? cw), (oh =? ch)).
  assert (Hlen : Z.of_nat (length
            (if tile_changes_reserved d <? c
             then DP_realloc junk (tile_changes d) c else tile_changes d)) >= c).
  { destruct (Z.ltb_spec (tile_changes_reserved d) c).
    - unfold DP_realloc. rewrite length_resize. lia.
    - lia. }
  destruct (tile_changes_reserved d <? c) eqn:E;
    (eexists; split; [reflexivity|]);
    cbn [count xtiles ytiles tile_changes];
    unfold DP_canvas_diff_tiles_changed; cbn [count tile_changes];
    (repeat split; [intros i Hi; by apply fill_lookup|by apply existsb_read_fill]).
Qed.

(** C8.  The diff of a snapshot against itself marks no tile: whatever the
    diff held before, it comes back sized to the canvas, with every one of
    its tiles unmarked.  In general [DP_canvas_diff_begin] sizes the bitmap
    to ceil(new_w / 64) by ceil(new_h / 64) tiles and marks every tile
    changed exactly when the old and the new dimensions differ; otherwise
    every tile starts unchanged. *)
Theorem canvas_diff_of_snapshot_with_itself h cs s diff junk lpc :
  states h !! cs = Some s -> 0 < refcount s ->
  0 <= width s <= INT16_MAX -> 0 <= height s <= INT16_MAX ->
  diff_wf diff ->
  (exists d,
     DP_canvas_state_diff junk lpc cs (Some cs) diff h = Some (d, h)
     /\ xtiles d = (width s + 63) / 64 /\ ytiles d = (height s + 63) / 64
     /\ count d = xtiles d * ytiles d
     /\ (forall i, 0 <= i < count d ->
           tile_changes d !! Z.to_nat i = Some false)
     /\ DP_canvas_diff_tiles_changed d = false)
  /\ (forall old_w old_h new_w new_h,
        0 <= old_w -> 0 <= old_h ->
        0 <= new_w <= INT16_MAX -> 0 <= new_h <= INT16_MAX ->
        let changed := negb ((old_w =? new_w) && (old_h =? new_h)) in
        exists d,
          DP_canvas_diff_begin DP_tile_size_round_up junk diff
            old_w old_h new_w new_h lpc = Some d
          /\ xtiles d = (new_w + 63) / 64 /\ ytiles d = (new_h + 63) / 64
          /\ count d = xtiles d * ytiles d
          /\ (forall i, 0 <= i < count d ->
                tile_changes d !! Z.to_nat i = Some changed)
          /\ DP_canvas_diff_tiles_changed d = changed && (0 <? count d)).
Proof.
  intros Hs Hr Hw Hh Hwf. split.
  - destruct (canvas_diff_begin_tiles junk lpc diff (width s) (height s)
                (width s) (height s))
      as (d & Hb & Hx & Hy & Hc & Hflags & Hany); [done|lia|lia|done|done|].
    rewrite !Z.eqb_refl in Hflags, Hany. cbn in Hflags, Hany.
    exists d. split; [|done].
    unfold DP_canvas_state_diff, canvas_diff_begin. mstep. mstep. mstep. mstep.
    rewrite Hb. cbn [deref]. mstep.
    rewrite bool_decide_eq_true_2 by reflexivity. reflexivity.
  - intros old_w old_h new_w new_h How Hoh Hnw Hnh changed.
    by apply canvas_diff_begin_tiles.
Qed.

End SnapshotDiff.

(** ** Concrete runs *)

(** C7 (code defect).  Two layers carry a stroke of context 7.  The first
    PenUp clones the canvas state at layer 1 but keeps reading and, at layer
    2, writing the list of its input: the published snapshot still has the
    stroke on layer 2, the input snapshot lost it, and a second PenUp is not
    the no-op the lazy path promises. *)
Theorem pen_up_twice_is_not_pen_up_once :
  exists h1 h2 published_list input_list,
    handle_pen_up 1 7 Sample.two_strokes = Some (Some 2%positive, h1)
    /\ lists h1 !! 2%positive = Some published_list
    /\ has_stroke 7 (ll_layers published_list) = true
    /\ lists h1 !! 1%positive = Some input_list
    /\ layer_sublayers <$> ll_layers input_list = [[Sample.stroke 7]; []]
    /\ handle_pen_up 2 7 h1 = Some (Some 3%positive, h2).
Proof.
  eexists _, _, _, _.
  split; [vm_compute; reflexivity|].
  split; [vm_compute; reflexivity|].
  split; [vm_compute; reflexivity|].
  split; [vm_compute; reflexivity|].
  split; vm_compute; reflexivity.
Qed.

(** C1, counterexample.  A draw-dabs message without dabs is answered with
    the input snapshot itself, which is neither a failure nor a fresh
    snapshot. *)
Lemma handle_answers_with_its_input :
  exists h',
    DP_canvas_state_handle 1
      (mkMessage 7 (MsgDrawDabs DabsPixel 1 0 0 4278190080 1 false []))
      Sample.canvas = Some (Some 1%positive, h')
    /\ ~ fresh_snapshot Sample.canvas h' 1.
Proof.
  eexists. split; [vm_compute; reflexivity|].
  intros [Hfresh _]. vm_compute in Hfresh. discriminate.
Qed.

(** C5, counterexample.  A draw-dabs message without dabs but with an unknown
    blend mode fails. *)
Lemma draw_dabs_without_dabs_may_fail :
  DP_canvas_state_handle 1
    (mkMessage 7 (MsgDrawDabs DabsPixel 1 0 0 4278190080 9 false []))
    Sample.canvas = Some (None, Sample.canvas).
Proof. vm_compute. reflexivity. Qed.

Lemma handle_outcomes_witness :
  exists r h',
    DP_canvas_state_handle 1 (mkMessage 7 (MsgFillRect 1 1 0 0 4 4 255))
      Sample.canvas = Some (r, h')
    /\ handled Sample.canvas 1 r h'.
Proof.
  apply (handle_outcomes Sample.canvas 1
           (mkCanvasState 1 false 64 64 None (Some 1%positive)) 1%positive
           (mkLayerList 1 false [Sample.blank_layer 1 64 64 []]));
    [reflexivity | reflexivity | reflexivity | reflexivity
    | intros layer_ids E; discriminate E].
Defined.

(** C2, counterexample.  Borders near [INT_MAX] wrap around: a canvas of 3
    by 3 with left = right = [INT_MAX] is resized to 1 by 3, although
    3 + left + right lies far outside [1, 32767]. *)
Lemma canvas_resize_accepts_wrapped_size :
  exists h' s',
    handle_canvas_resize 1 7 0 2147483647 0 2147483647
      (Sample.snapshot_heap 3 3 []) = Some (Some 2%positive, h')
    /\ states h' !! 2%positive = Some s'
    /\ width s' = 1 /\ height s' = 3
    /\ ~ (1 <= 3 + 2147483647 + 2147483647 <= 32767).
Proof.
  eexists _, _.
  split; [vm_compute; reflexivity|].
  split; [vm_compute; reflexivity|].
  split; [reflexivity|]. split; [reflexivity|]. lia.
Qed.

(** C3, counterexample.  A rectangle of width -1 at x = [INT_MIN] lies to
    the left of the canvas, but x + w wraps around to [INT_MAX]: the
    effective rectangle is (0, 0, 64, 4) and the handler fills it. *)
Lemma fill_rect_outside_canvas_is_accepted :
  exists h',
    handle_fill_rect 1 7 1 1 (-2147483648) 0 (-1) 4 255 Sample.canvas
    = Some (Some 2%positive, h')
    /\ fill_rect_bounds (-2147483648) 0 (-1) 4 64 64 = (0, 0, 64, 4)
    /\ -2147483648 + -1 <= 0.
Proof.
  eexists.
  split; [vm_compute; reflexivity|].
  split; [vm_compute; reflexivity|]. lia.
Qed.

Lemma canvas_resize_outcome_witness :
  (handle_canvas_resize 1 7 0 8 8 0 Sample.canvas = Some (None, Sample.canvas)
   <-> 64 + 0 + 8 < 1 \/ INT16_MAX < 64 + 0 + 8
       \/ 64 + 0 + 8 < 1 \/ INT16_MAX < 64 + 0 + 8
       \/ 64 + 8 <= - 0 \/ 64 + 8 <= - 0)
  /\ (1 <= 64 + 0 + 8 <= INT16_MAX -> 1 <= 64 + 0 + 8 <= INT16_MAX ->
      exists h' s',
        handle_canvas_resize 1 7 0 8 8 0 Sample.canvas
          = Some (Some (next_state Sample.canvas), h')
        /\ states Sample.canvas !! next_state Sample.canvas = None
        /\ states h' !! next_state Sample.canvas = Some s'
        /\ width s' = 64 + 0 + 8 /\ height s' = 64 + 0 + 8
        /\ background_tile s' = None /\ transient s' = false).
Proof.
  apply (canvas_resize_outcome Sample.canvas 1
           (mkCanvasState 1 false 64 64 None (Some 1%positive)) 7 0 8 8 0
           eq_refl eq_refl); cbn; unfold INT16_MAX; lia.
Defined.

Lemma fill_rect_rejections_witness :
  (DP_blend_mode_exists 1 = false \/ DP_blend_mode_valid_for_brush 1 = false ->
   handle_fill_rect 1 7 1 1 100 0 4 4 255 Sample.canvas
   = Some (None, Sample.canvas))
  /\ (100 + 4 <= INT_MAX -> 0 + 4 <= INT_MAX ->
      fill_rect_bounds 100 0 4 4 64 64
      = (Z.max 100 0, Z.max 0 0, Z.min (100 + 4) 64, Z.min (0 + 4) 64)
      /\ (Z.min (100 + 4) 64 <= Z.max 100 0 \/ Z.min (0 + 4) 64 <= Z.max 0 0 ->
          handle_fill_rect 1 7 1 1 100 0 4 4 255 Sample.canvas
          = Some (None, Sample.canvas)))
  /\ (100 + 4 <= 0 \/ 0 + 4 <= 0 \/ 64 <= 100 \/ 64 <= 0 ->
      handle_fill_rect 1 7 1 1 100 0 4 4 255 Sample.canvas
      = Some (None, Sample.canvas)).
Proof.
  apply (fill_rect_rejections Sample.canvas 1
           (mkCanvasState 1 false 64 64 None (Some 1%positive))
           7 1 1 100 0 4 4 255 eq_refl);
    first [lia | vm_compute; split; discriminate].
Defined.

Lemma region_move_rejections_witness :
  handle_region_move 1 7 1 0 0 4 4 (mkQuad 0 0 999 0 999 999 0 999) None
    Sample.canvas = Some (None, Sample.canvas).
Proof.
  destruct (region_move_rejections Sample.canvas 1
              (mkCanvasState 1 false 64 64 None (Some 1%positive))
              7 1 0 0 4 4 (mkQuad 0 0 999 0 999 999 0 999) None eq_refl)
    as (_ & _ & Hbig).
  - vm_compute. split; discriminate.
  - vm_compute. split; discriminate.
  - apply Hbig. vm_compute. reflexivity.
Defined.

Lemma draw_dabs_without_dabs_is_noop_witness :
  DP_canvas_state_handle 1
    (mkMessage 7 (MsgDrawDabs DabsPixel 1 0 0 4278190080 1 false []))
    Sample.canvas = Some (Some 1%positive, with_incref Sample.canvas 1).
Proof.
  apply (draw_dabs_without_dabs_is_noop Sample.canvas 1
           (mkCanvasState 1 false 64 64 None (Some 1%positive))
           DabsPixel 7 1 0 0 4278190080 1 false); reflexivity.
Defined.

Lemma draw_dabs_indirect_or_direct_witness :
  handle_draw_dabs 1 DabsPixel 7 1 0 0 2164195328 2 true [5; 6; 7] Sample.canvas
  = match draw_dabs 1 7 2 128
            (mkDabsParams DabsPixel 7 0 0 2164195328 1 3 [5; 6; 7])
            [Sample.blank_layer 1 64 64 []] with
    | Some ls =>
        Some (Some (next_state Sample.canvas),
              published Sample.canvas 64 64 None ls)
    | None => Some (None, Sample.canvas)
    end.
Proof.
  refine (draw_dabs_indirect_or_direct Sample.canvas 1
            (mkCanvasState 1 false 64 64 None (Some 1%positive)) 1%positive
            (mkLayerList 1 false [Sample.blank_layer 1 64 64 []])
            DabsPixel 7 1 0 0 2164195328 2 true [5; 6; 7] _ _ _ _ _ _).
  - reflexivity.
  - reflexivity.
  - reflexivity.
  - reflexivity.
  - vm_compute. split; discriminate.
  - discriminate.
Defined.

Lemma canvas_diff_of_snapshot_with_itself_witness :
  (exists d,
     DP_canvas_state_diff false true 1 (Some 1%positive) Sample.four_tiles
       (Sample.snapshot_heap 100 100 [Sample.blank_layer 1 100 100 []])
     = Some (d, Sample.snapshot_heap 100 100 [Sample.blank_layer 1 100 100 []])
     /\ CanvasDiff.xtiles d = (100 + 63) / 64
     /\ CanvasDiff.ytiles d = (100 + 63) / 64
     /\ CanvasDiff.count d = CanvasDiff.xtiles d * CanvasDiff.ytiles d
     /\ (forall i, 0 <= i < CanvasDiff.count d ->
           CanvasDiff.tile_changes d !! Z.to_nat i = Some false)
     /\ CanvasDiff.DP_canvas_diff_tiles_changed d = false)
  /\ (forall old_w old_h new_w new_h,
        0 <= old_w -> 0 <= old_h ->
        0 <= new_w <= INT16_MAX -> 0 <= new_h <= INT16_MAX ->
        let changed := negb ((old_w =? new_w) && (old_h =? new_h)) in
        exists d,
          CanvasDiff.DP_canvas_diff_begin DP_tile_size_round_up false
            Sample.four_tiles old_w old_h new_w new_h true = Some d
          /\ CanvasDiff.xtiles d = (new_w + 63) / 64
          /\ CanvasDiff.ytiles d = (new_h + 63) / 64
          /\ CanvasDiff.count d = CanvasDiff.xtiles d * CanvasDiff.ytiles d
          /\ (forall i, 0 <= i < CanvasDiff.count d ->
                CanvasDiff.tile_changes d !! Z.to_nat i = Some changed)
          /\ CanvasDiff.DP_canvas_diff_tiles_changed d
             = changed && (0 <? CanvasDiff.count d)).
Proof.
  apply (canvas_diff_of_snapshot_with_itself
           (Sample.snapshot_heap 100 100 [Sample.blank_layer 1 100 100 []]) 1
           (mkCanvasState 1 false 100 100 None (Some 1%positive))
           Sample.four_tiles false true eq_refl).
  - cbn. lia.
  - cbn. unfold INT16_MAX. lia.
  - cbn. unfold INT16_MAX. lia.
  - unfold CanvasDiff.diff_wf. cbn. lia.
Defined.

Lemma layer_order_unknown_id_is_not_reported_witness :
  DP_layer_list_layer_reorder 1 [1; 9] Sample.canvas
  = Some (None, Sample.canvas)
  /\ handle_layer_order 1 [1; 9] Sample.canvas = None
  /\ forall h', handle_layer_order 1 [1; 9] Sample.canvas <> Some (None, h').
Proof.
  apply (layer_order_unknown_id_is_not_reported Sample.canvas 1
           (mkCanvasState 1 false 64 64 None (Some 1%positive)) 1%positive
           (mkLayerList 1 false [Sample.blank_layer 1 64 64 []]) [1; 9]
           eq_refl eq_refl eq_refl eq_refl).
  apply Exists_cons_tl, Exists_cons_hd. cbn.
  intros Hin%list_elem_of_singleton. discriminate Hin.
Defined.

(** *** Runs of the further properties *)

Section Witnesses.
Import CInt.

Lemma canvas_state_incref_then_decref_witness :
  (p ← DP_canvas_state_incref 1; DP_canvas_state_decref p) Sample.canvas
  = Some (tt, Sample.canvas).
Proof.
  apply (canvas_state_incref_then_decref Sample.canvas 1
           (mkCanvasState 1 false 64 64 None (Some 1%positive)));
    [reflexivity | cbn; lia].
Defined.

Lemma transient_new_then_decref_witness :
  (tcs ← DP_transient_canvas_state_new 1;
   DP_transient_canvas_state_decref tcs) Sample.canvas
  = Some (tt, Sample.canvas).
Proof. apply (transient_new_then_decref Sample.canvas 1). reflexivity. Defined.

Lemma get_transient_layer_list_copies_once_witness :
  exists tcs tll h1,
    (tcs ← DP_transient_canvas_state_new 1;
     tll ← get_transient_layer_list tcs 0; mret (tcs, tll)) Sample.canvas
    = Some ((tcs, tll), h1)
    /\ lists Sample.canvas !! tll = None
    /\ lists h1 !! tll
       = Some (mkLayerList 1 true [Sample.blank_layer 1 64 64 []])
    /\ lists h1 !! 1%positive
       = Some (mkLayerList 1 false [Sample.blank_layer 1 64 64 []])
    /\ get_transient_layer_list tcs 0 h1 = Some (tll, h1).
Proof.
  apply (get_transient_layer_list_copies_once Sample.canvas 1
           (mkCanvasState 1 false 64 64 None (Some 1%positive)) 1%positive
           (mkLayerList 1 false [Sample.blank_layer 1 64 64 []]) 0);
    [reflexivity | reflexivity | reflexivity | reflexivity | lia].
Defined.

Lemma handle_keeps_its_input_witness :
  exists r h',
    DP_canvas_state_handle 1 (mkMessage 7 (MsgFillRect 1 1 0 0 4 4 255))
      Sample.canvas = Some (r, h')
    /\ valid_snapshot h' 1 = true
    /\ snapshot_view h' 1 = snapshot_view Sample.canvas 1.
Proof.
  eexists _, _. split; [vm_compute; reflexivity|].
  eapply (handle_keeps_its_input Sample.canvas 1
           (mkCanvasState 1 false 64 64 None (Some 1%positive)) 1%positive
           (mkLayerList 1 false [Sample.blank_layer 1 64 64 []])
           (mkMessage 7 (MsgFillRect 1 1 0 0 4 4 255)));
    [reflexivity | reflexivity | reflexivity | reflexivity
    | discriminate | vm_compute; reflexivity].
Defined.

Lemma handle_then_decref_restores_heap_witness :
  exists p h',
    DP_canvas_state_handle 1 (mkMessage 7 (MsgCanvasBackground (PayloadColor 255)))
      Sample.canvas = Some (Some p, h')
    /\ DP_canvas_state_decref p h' = Some (tt, Sample.canvas).
Proof.
  eexists _, _. split; [vm_compute; reflexivity|].
  apply (handle_then_decref_restores_heap Sample.canvas 1
           (mkCanvasState 1 false 64 64 None (Some 1%positive)) 1%positive
           (mkLayerList 1 false [Sample.blank_layer 1 64 64 []])
           (mkMessage 7 (MsgCanvasBackground (PayloadColor 255))));
    [reflexivity | reflexivity | reflexivity | reflexivity
    | discriminate | vm_compute; reflexivity].
Defined.

Lemma handle_returns_a_valid_snapshot_witness :
  exists p h',
    DP_canvas_state_handle 1 (mkMessage 7 MsgPenUp) Sample.two_strokes
    = Some (Some p, h')
    /\ valid_snapshot h' p = true /\ valid_snapshot h' 1 = true.
Proof.
  eexists _, _. split; [vm_compute; reflexivity|].
  apply (handle_returns_a_valid_snapshot Sample.two_strokes 1
           (mkCanvasState 1 false 64 64 None (Some 1%positive)) 1%positive
           (mkLayerList 1 false
              [Sample.layer_with_stroke 1; Sample.layer_with_stroke 2])
           (mkMessage 7 MsgPenUp));
    [reflexivity | reflexivity | reflexivity | reflexivity
    | vm_compute; reflexivity].
Defined.

Lemma handle_keeps_the_size_admissible_witness :
  exists p h',
    DP_canvas_state_handle 1 (mkMessage 7 (MsgCanvasResize 0 36 (-14) 0))
      Sample.canvas = Some (Some p, h')
    /\ exists s', states h' !! p = Some s'
         /\ canvas_size_ok (width s') (height s').
Proof.
  eexists _, _. split; [vm_compute; reflexivity|].
  eapply (handle_keeps_the_size_admissible Sample.canvas 1
            (mkCanvasState 1 false 64 64 None (Some 1%positive)) 1%positive
            (mkLayerList 1 false [Sample.blank_layer 1 64 64 []])
            (mkMessage 7 (MsgCanvasResize 0 36 (-14) 0)));
    [reflexivity | reflexivity | reflexivity | reflexivity
    | right; cbn; unfold INT16_MAX; lia | vm_compute; reflexivity].
Defined.

End Witnesses.

Section DiffWitnesses.
Import CInt CanvasDiff.

Lemma canvas_diff_block_covers_count_witness :
  Z.of_nat (length (tile_changes Sample.four_tiles)) = tile_changes_reserved Sample.four_tiles
  /\ count Sample.four_tiles <= tile_changes_reserved Sample.four_tiles
  /\ forall i, 0 <= i < count Sample.four_tiles ->
       is_Some (tile_changes Sample.four_tiles !! Z.to_nat i).
Proof.
  apply (canvas_diff_block_covers_count Sample.round_up Sample.four_tiles).
  apply (reach_begin Sample.round_up DP_canvas_diff_new false 0 0 100 100 false);
    [apply reach_new | reflexivity].
Defined.

Lemma canvas_diff_begin_flags_witness :
  exists d',
    DP_canvas_diff_begin Sample.round_up false Sample.four_tiles 100 100 100 30 true = Some d'
    /\ count d' = int_mul (Sample.round_up 100) (Sample.round_up 30)
    /\ (forall i, 0 <= i < count d' ->
          tile_changes d' !! Z.to_nat i = Some true)
    /\ DP_canvas_diff_tiles_changed d' = true && (0 <? count d')
    /\ layer_props_changed d' = true.
Proof.
  apply (canvas_diff_begin_flags Sample.round_up false Sample.four_tiles 100 100 100 30 true);
    [unfold diff_wf; cbn; lia | lia | lia | lia | lia].
Defined.

Lemma canvas_diff_check_marks_witness :
  let d := mkCanvasDiff 4 2 2 4 [true; false; false; false] false in
  let r := DP_canvas_diff_check d (fun data i => (Z.even i, i :: data)) [] in
  (forall i, 0 <= i < 4 ->
     read_flag (tile_changes r.1) i = read_flag (tile_changes d) i || Z.even i)
  /\ r.2 = [3; 2; 1]
  /\ count r.1 = 4.
Proof.
  apply (canvas_diff_check_marks
           (mkCanvasDiff 4 2 2 4 [true; false; false; false] false)
           Z.even (fun data i => i :: data) []).
  unfold diff_wf. cbn. lia.
Defined.

Lemma canvas_diff_check_all_settles_witness :
  DP_canvas_diff_tiles_changed
    (DP_canvas_diff_check_all (mkCanvasDiff 4 2 2 4 [true; false; false; false] false))
  = true
  /\ DP_canvas_diff_check
       (DP_canvas_diff_check_all (mkCanvasDiff 4 2 2 4 [true; false; false; false] false))
       (fun data i => (true, i :: data)) []
     = (DP_canvas_diff_check_all (mkCanvasDiff 4 2 2 4 [true; false; false; false] false),
        []).
Proof.
  apply (canvas_diff_check_all_settles
           (mkCanvasDiff 4 2 2 4 [true; false; false; false] false)
           (fun data i => (true, i :: data)) []).
  unfold diff_wf. cbn. lia.
Defined.

Lemma canvas_diff_each_pos_is_each_index_witness :
  let d := mkCanvasDiff 4 2 2 4 [true; false; false; true] false in
  DP_canvas_diff_each_pos d (fun data x y => (y * 2 + x) :: data) []
  = DP_canvas_diff_each_index d (fun data i => i :: data) [].
Proof.
  apply (canvas_diff_each_pos_is_each_index
           (mkCanvasDiff 4 2 2 4 [true; false; false; true] false)
           (fun data i => i :: data) []);
    [cbn; lia | cbn; lia | reflexivity | cbn; unfold INT_MAX; lia].
Defined.

Lemma render_after_begin_witness :
  exists d',
    DP_canvas_diff_begin Sample.round_up false DP_canvas_diff_new 0 0 64 64 false
    = Some d'
    /\ DP_canvas_state_render
         (fun target _ w h =>
            Sample.blank_layer (layer_id target) w h (layer_title target))
         (fun target _ _ tile_index =>
            Sample.blank_layer (layer_id target) (layer_width target)
              (layer_height target) (tile_index :: layer_title target))
         1 (Sample.blank_layer 9 0 0 []) d' Sample.canvas
       = Some (fold_left
                 (render_tile
                    (fun target _ _ tile_index =>
                       Sample.blank_layer (layer_id target) (layer_width target)
                         (layer_height target)
                         (tile_index :: layer_title target))
                    Sample.canvas 1)
                 (if negb (0 =? 64) || negb (0 =? 64)
                  then seqZ 0 (count d') else [])
                 (Sample.blank_layer 9 64 64 []),
               Sample.canvas).
Proof.
  apply (render_after_begin
           (fun target _ w h =>
              Sample.blank_layer (layer_id target) w h (layer_title target))
           (fun target _ _ tile_index =>
              Sample.blank_layer (layer_id target) (layer_width target)
                (layer_height target) (tile_index :: layer_title target))
           Sample.round_up false DP_canvas_diff_new 0 0 false Sample.canvas 1
           (mkCanvasState 1 false 64 64 None (Some 1%positive))
           (Sample.blank_layer 9 0 0 []));
    [unfold diff_wf; cbn; lia | lia | lia | reflexivity | cbn; lia | cbn; lia].
Defined.

End DiffWitnesses.

Section ImageWitnesses.
Import CInt Image ImageTransform.

Lemma pixel_at_set_then_pixel_at_witness :
  exists img',
    DP_image_pixel_at_set (mkImage 2 2 [1; 2; 3; 4]) 1 0 9 = Some img'
    /\ image_wf img' /\ width img' = 2 /\ height img' = 2
    /\ DP_image_pixel_at img' 1 0 = Some 9
    /\ forall x' y', (x', y') <> (1, 0) ->
         DP_image_pixel_at img' x' y'
         = DP_image_pixel_at (mkImage 2 2 [1; 2; 3; 4]) x' y'.
Proof.
  apply (pixel_at_set_then_pixel_at (mkImage 2 2 [1; 2; 3; 4]) 1 0 9);
    [unfold image_wf; cbn; lia | cbn; unfold INT_MAX; lia | cbn; lia | cbn; lia].
Defined.

Lemma subimage_pixels_witness :
  exists sub,
    DP_image_new_subimage (mkImage 2 2 [1; 2; 3; 4]) 1 1 2 2 = Some sub
    /\ width sub = 2 /\ height sub = 2 /\ image_wf sub
    /\ DP_image_pixel_at sub 0 0
       = if (0 <=? 1 + 0) && (1 + 0 <? 2) && (0 <=? 1 + 0) && (1 + 0 <? 2)
         then DP_image_pixel_at (mkImage 2 2 [1; 2; 3; 4]) (1 + 0) (1 + 0)
         else Some 0.
Proof.
  apply (subimage_pixels (mkImage 2 2 [1; 2; 3; 4]) 1 1 2 2 0 0);
    try (unfold image_wf; cbn; unfold INT16_MAX; lia).
Defined.

Lemma subimage_succeeds_iff_witness :
  is_Some (DP_image_new_subimage (mkImage 2 2 [1; 2; 3; 4]) (-1) 2 3 1)
  <-> - 3 <= - 1 <= 2 /\ - 1 <= 2 <= 2.
Proof.
  apply (subimage_succeeds_iff (mkImage 2 2 [1; 2; 3; 4]) (-1) 2 3 1);
    first [cbn; unfold INT16_MAX; lia | vm_compute; split; discriminate].
Defined.

Lemma monochrome_mask_pixels_witness :
  exists img byte,
    DP_image_new_from_compressed_monochrome Some 9 1 [128; 64; 0; 0]
    = Some (Some img)
    /\ width img = 9 /\ height img = 1 /\ image_wf img
    /\ [128; 64; 0; 0] !! Z.to_nat (0 * (4 * ((9 + 31) / 32)) + 1 / 8) = Some byte
    /\ DP_image_pixel_at img 1 0
       = Some (if Z.testbit byte (7 - 1 mod 8) then 4294967295 else 0).
Proof.
  apply (monochrome_mask_pixels Some 9 1 [128; 64; 0; 0] [128; 64; 0; 0] 1 0);
    first [reflexivity | unfold INT_MAX; cbn; lia | vm_compute; discriminate].
Defined.

Lemma pixel_bounds_within_limits_witness :
  let '(o1, o2) := fetch_transformed_bilinear_pixel_bounds 0 63 17 in
  0 <= o1 <= 63 /\ 0 <= o2 <= 63 /\ (o2 = o1 \/ o2 = o1 + 1)
  /\ (0 <= 17 < 63 -> o1 = 17 /\ o2 = 17 + 1).
Proof.
  apply (pixel_bounds_within_limits 0 63 17); [lia|..];
    unfold is_int, INT_MIN, INT_MAX; lia.
Defined.

Lemma interpolate_pixel_channels_witness :
  Forall (fun n => channel n (interpolate_pixel 4278255360 64 16711935 192)
                   = (channel n 4278255360 * 64 + channel n 16711935 * 192) / 256)
    [0; 1; 2; 3]
  /\ 0 <= interpolate_pixel 4278255360 64 16711935 192 < 2 ^ 32.
Proof.
  apply (interpolate_pixel_channels 4278255360 64 16711935 192); lia.
Defined.

Lemma interpolate_4_pixels_exact_witness :
  interpolate_4_pixels 4278255360 16711935 255 65280 0 0 = 4278255360
  /\ interpolate_4_pixels 2155905152 2155905152 2155905152 2155905152 100 200
     = 2155905152.
Proof.
  apply (interpolate_4_pixels_exact 4278255360 16711935 255 65280 2155905152
           100 200); lia.
Defined.

Lemma interpolate_4_pixels_within_range_witness :
  255 <= channel 3 (interpolate_4_pixels 4278255360 4278190335 4294967295
                      4278190080 77 201) <= 255.
Proof.
  apply (interpolate_4_pixels_within_range 4278255360 4278190335 4294967295
           4278190080 77 201 3 255 255); try lia.
  - set_solver.
  - repeat constructor; vm_compute; discriminate.
Defined.

Lemma render_spans_composites_each_pixel_once_witness :
  exists calls,
    render_spans 4 8 18
      [mkSpan 1 3 0 255; mkSpan 4 3 0 128; mkSpan 0 0 1 7; mkSpan 2 2 1 64]
    = Some calls
    /\ call_pixels (0, 0) calls
       = [mkSpan 1 3 0 255; mkSpan 4 3 0 128; mkSpan 0 0 1 7; mkSpan 2 2 1 64]
           ≫= span_pixels 8
    /\ calls_fit 4 0 calls.
Proof.
  apply (render_spans_composites_each_pixel_once 4 8).
  - unfold INT_MAX. lia.
  - unfold INT16_MAX. lia.
  - repeat constructor; cbn; lia.
  - cbn. lia.
Defined.

End ImageWitnesses.
